(** * Heft copy-files plugin: incremental file copy engine

    A shallow embedding of [apps/heft/src/plugins/CopyFilesPlugin.ts]:
    the resolution of copy operations into copy descriptors
    ([_getCopyDescriptorsAsync]), the content-hash diff, the transfer loop and
    the build-info write ([_copyFilesInnerAsync]), and their composition
    ([copyFilesAsync]). *)

From Stdlib Require Import String Ascii List Bool Arith ZArith Lia DecimalNat DecimalString
  Permutation.
Import ListNotations.
Local Open Scope string_scope.
Local Open Scope list_scope.

(** ** JavaScript containers

    A JS [Map<string, V>] iterates in insertion order and [set] on a present
    key keeps the key's position: an association list with one entry per
    key. *)
Module JsMap.
Section WithValue.
Context {V : Type}.

Definition t : Type := list (string * V).

Definition empty : t := [].

Fixpoint get (key : string) (m : t) : option V :=
  match m with
  | [] => None
  | (k, v) :: rest => if String.eqb key k then Some v else get key rest
  end.

Fixpoint set (key : string) (value : V) (m : t) : t :=
  match m with
  | [] => [(key, value)]
  | (k, v) :: rest =>
      if String.eqb key k then (k, value) :: rest
      else (k, v) :: set key value rest
  end.

Definition keys (m : t) : list string := map fst m.
Definition values (m : t) : list V := map snd m.
Definition size (m : t) : nat := length m.
End WithValue.
Arguments t : clear implicits.
End JsMap.

(** A JS [Set<string>], also insertion ordered. *)
Module JsSet.
Definition t : Type := list string.
Definition empty : t := [].
Definition has (x : string) (s : t) : bool := existsb (String.eqb x) s.
Definition add (x : string) (s : t) : t := if has x s then s else s ++ [x].
End JsSet.

(** ** Data model *)

(** [ICopyOperation extends IFileSelectionSpecifier].  The optional flags
    [flatten?: boolean] and [hardlink?: boolean] are [option bool], [None]
    being an omitted (undefined) property. *)
Module ICopyOperation.
(** Modelled from the spec: the fields of [IFileSelectionSpecifier]
    (declared in FileGlobSpecifier.ts): a root folder [sourcePath] and the
    include and exclude glob patterns. *)
Record t : Type := {
  sourcePath : string;
  includeGlobs : list string;
  excludeGlobs : list string;
  destinationFolders : list string;
  flatten : option bool;
  hardlink : option bool
}.
End ICopyOperation.

Module ICopyDescriptor.
Record t : Type := {
  sourcePath : string;
  destinationPath : string;
  hardlink : bool
}.
End ICopyDescriptor.

(** Modelled from the spec: [IIncrementalBuildInfo] (declared in
    IncrementalBuildInfo.ts), the persisted record
    [{ configHash, inputFileVersions : mapping<path, hash> }]. *)
Module IIncrementalBuildInfo.
Record t : Type := {
  configHash : string;
  inputFileVersions : JsMap.t string
}.
End IIncrementalBuildInfo.

(** JS truthiness of an optional boolean: [x ? a : b] and [!!x]. *)
Definition truthy (x : option bool) : bool :=
  match x with
  | Some true => true
  | _ => false
  end.

(** Truthiness of [string | undefined], as tested by [!sourceFileHash]. *)
Definition truthyString (x : option string) : bool :=
  match x with
  | Some (String _ _) => true
  | _ => false
  end.

(** [a === b] on [string | undefined]. *)
Definition strictEq (a b : option string) : bool :=
  match a, b with
  | Some x, Some y => String.eqb x y
  | None, None => true
  | _, _ => false
  end.

Definition dquote : string := String (ascii_of_nat 34) EmptyString.

(** [`${n}`] for a non-negative integer. *)
Definition Number_toString (n : nat) : string :=
  NilEmpty.string_of_uint (Nat.to_uint n).

(** ** Effects

    What the engine throws, and what it asks of its collaborators. *)
Inductive Exn : Type :=
| Error (message : string)      (* [throw new Error(message)] in the plugin *)
| IOError (path : string).      (* a rejection of a file-system call *)

Inductive Outcome (A : Type) : Type :=
| Resolved (a : A)
| Rejected (e : Exn).
Arguments Resolved {A} a.
Arguments Rejected {A} e.

Inductive Event : Type :=
| EGlob (copyConfiguration : ICopyOperation.t)
| EReadBuildInfo (buildInfoPath : string)
| EReadFile (inputFilePath : string)
| ECreateHardLink (linkTargetPath newLinkPath : string)
| ECopyFiles (sourcePath destinationPath : string)
| EWriteLine (line : string)
| EWriteVerboseLine (line : string)
| EWriteBuildInfo (buildInfo : IIncrementalBuildInfo.t) (buildInfoPath : string).

(** The collaborators the plugin imports: [crypto], [path], [JSON], the
    file-selection resolver and [FileSystem] of node-core-library.  [FS] is
    the state of the file system; a call that rejects returns [None]. *)
Class Host : Type := {
  FS : Type;
  sha256_base64 : string -> string;
  JSON_stringify : ICopyOperation.t -> string;
  path_resolve : string -> string -> string;
  path_basename : string -> string;
  path_relative : string -> string -> string;
  getFileSelectionSpecifierPaths : FS -> ICopyOperation.t -> option (list string);
  readFileToBuffer : FS -> string -> option string;
  copyFiles : FS -> string -> string -> option FS;
  createHardLink : FS -> string -> string -> option FS
}.

Section Engine.
Context {host : Host}.

(** The file system, and the build-info files beside it, kept by path and
    apart from the files the transfers touch: the build info path is taken
    not to be a transfer destination. *)
Record World : Type := {
  fs : FS;
  buildInfoFiles : JsMap.t IIncrementalBuildInfo.t
}.

(** An awaited computation: its outcome, the world it leaves (also when it
    rejects: nothing is rolled back), and the calls it made, in order. *)
Definition Promise (A : Type) : Type := World -> Outcome A * World * list Event.

Definition ret {A} (a : A) : Promise A := fun w => (Resolved a, w, []).

Definition bind {A B} (m : Promise A) (k : A -> Promise B) : Promise B :=
  fun w =>
    match m w with
    | (Resolved a, w1, evs1) =>
        match k a w1 with
        | (o, w2, evs2) => (o, w2, evs1 ++ evs2)
        end
    | (Rejected e, w1, evs1) => (Rejected e, w1, evs1)
    end.

Definition liftOutcome {A} (o : Outcome A) : Promise A := fun w => (o, w, []).

Definition emit (e : Event) : Promise unit := fun w => (Resolved tt, w, [e]).

End Engine.

Declare Scope promise_scope.
Delimit Scope promise_scope with promise.
Notation "x <- m ;; k" := (bind m (fun x => k))
  (at level 61, m at next level, right associativity) : promise_scope.
Notation "m ;; k" := (bind m (fun _ => k))
  (at level 61, right associativity) : promise_scope.
Local Open Scope promise_scope.

Section Plugin.
Context {host : Host}.

(** *** Collaborators as awaited calls *)

Definition getFileSelectionSpecifierPathsAsync
    (copyConfiguration : ICopyOperation.t) : Promise (list string) :=
  fun w =>
    match getFileSelectionSpecifierPaths (fs w) copyConfiguration with
    | Some sourceFiles => (Resolved sourceFiles, w, [EGlob copyConfiguration])
    | None =>
        (Rejected (IOError (ICopyOperation.sourcePath copyConfiguration)), w,
         [EGlob copyConfiguration])
    end.

Definition readFileToBufferAsync (inputFilePath : string) : Promise string :=
  fun w =>
    match readFileToBuffer (fs w) inputFilePath with
    | Some fileContent => (Resolved fileContent, w, [EReadFile inputFilePath])
    | None => (Rejected (IOError inputFilePath), w, [EReadFile inputFilePath])
    end.

Definition createHardLinkAsync (linkTargetPath newLinkPath : string) : Promise unit :=
  fun w =>
    match createHardLink (fs w) linkTargetPath newLinkPath with
    | Some fs' =>
        (Resolved tt, {| fs := fs'; buildInfoFiles := buildInfoFiles w |},
         [ECreateHardLink linkTargetPath newLinkPath])
    | None =>
        (Rejected (IOError newLinkPath), w, [ECreateHardLink linkTargetPath newLinkPath])
    end.

Definition copyFilesAsync_FileSystem (sourcePath destinationPath : string) : Promise unit :=
  fun w =>
    match copyFiles (fs w) sourcePath destinationPath with
    | Some fs' =>
        (Resolved tt, {| fs := fs'; buildInfoFiles := buildInfoFiles w |},
         [ECopyFiles sourcePath destinationPath])
    | None =>
        (Rejected (IOError destinationPath), w, [ECopyFiles sourcePath destinationPath])
    end.

(** Modelled from the spec: [tryReadBuildInfoAsync] of
    IncrementalBuildInfo.ts reads the record at a caller-specified path; a
    missing or corrupt file reads as no prior snapshot. *)
Definition tryReadBuildInfoAsync (buildInfoPath : string)
    : Promise (option IIncrementalBuildInfo.t) :=
  fun w =>
    (Resolved (JsMap.get buildInfoPath (buildInfoFiles w)), w,
     [EReadBuildInfo buildInfoPath]).

(** Modelled from the spec: [writeBuildInfoAsync] of
    IncrementalBuildInfo.ts writes the record at the path, replacing any
    prior content. *)
Definition writeBuildInfoAsync (buildInfo : IIncrementalBuildInfo.t)
    (buildInfoPath : string) : Promise unit :=
  fun w =>
    (Resolved tt,
     {| fs := fs w;
        buildInfoFiles := JsMap.set buildInfoPath buildInfo (buildInfoFiles w) |},
     [EWriteBuildInfo buildInfo buildInfoPath]).

Definition writeLine (line : string) : Promise unit := emit (EWriteLine line).
Definition writeVerboseLine (line : string) : Promise unit := emit (EWriteVerboseLine line).

(** *** [_getCopyDescriptorsAsync] *)

(** Lines 133-138: the destination of one source file in one folder. *)
Definition resolvedDestinationPath (copyConfiguration : ICopyOperation.t)
    (destinationFolderPath sourceFilePath : string) : string :=
  path_resolve destinationFolderPath
    (if truthy (ICopyOperation.flatten copyConfiguration)
     then path_basename sourceFilePath
     else path_relative (ICopyOperation.sourcePath copyConfiguration) sourceFilePath).

Definition conflictMessage (destination : string) : string :=
  "Cannot copy multiple files to the same destination " ++ dquote ++ destination
    ++ dquote ++ ".".

(** Lines 133-163: the body of the inner loop. *)
Definition addCopyDescriptor (copyConfiguration : ICopyOperation.t)
    (destinationFolderPath sourceFilePath : string)
    (copyDescriptorByDestination : JsMap.t ICopyDescriptor.t)
    : Outcome (JsMap.t ICopyDescriptor.t) :=
  let destination :=
    resolvedDestinationPath copyConfiguration destinationFolderPath sourceFilePath in
  match JsMap.get destination copyDescriptorByDestination with
  | Some existingDestinationCopyDescriptor =>
      if String.eqb (ICopyDescriptor.sourcePath existingDestinationCopyDescriptor)
                    sourceFilePath
         && Bool.eqb (ICopyDescriptor.hardlink existingDestinationCopyDescriptor)
                     (truthy (ICopyOperation.hardlink copyConfiguration))
      then Resolved copyDescriptorByDestination
      else Rejected (Error (conflictMessage destination))
  | None =>
      let processedCopyDescriptor :=
        {| ICopyDescriptor.sourcePath := sourceFilePath;
           ICopyDescriptor.destinationPath := destination;
           ICopyDescriptor.hardlink := truthy (ICopyOperation.hardlink copyConfiguration) |} in
      Resolved (JsMap.set destination processedCopyDescriptor copyDescriptorByDestination)
  end.

(** Line 131: [for (const sourceFilePath of sourceFiles.keys())]. *)
Fixpoint forEachSourceFile (copyConfiguration : ICopyOperation.t)
    (destinationFolderPath : string) (sourceFiles : list string)
    (copyDescriptorByDestination : JsMap.t ICopyDescriptor.t)
    : Outcome (JsMap.t ICopyDescriptor.t) :=
  match sourceFiles with
  | [] => Resolved copyDescriptorByDestination
  | sourceFilePath :: rest =>
      match addCopyDescriptor copyConfiguration destinationFolderPath sourceFilePath
              copyDescriptorByDestination with
      | Resolved m => forEachSourceFile copyConfiguration destinationFolderPath rest m
      | Rejected e => Rejected e
      end
  end.

(** Line 129: [for (const destinationFolderPath of ...destinationFolders)]. *)
Fixpoint forEachDestinationFolder (copyConfiguration : ICopyOperation.t)
    (destinationFolders sourceFiles : list string)
    (copyDescriptorByDestination : JsMap.t ICopyDescriptor.t)
    : Outcome (JsMap.t ICopyDescriptor.t) :=
  match destinationFolders with
  | [] => Resolved copyDescriptorByDestination
  | destinationFolderPath :: rest =>
      match forEachSourceFile copyConfiguration destinationFolderPath sourceFiles
              copyDescriptorByDestination with
      | Resolved m => forEachDestinationFolder copyConfiguration rest sourceFiles m
      | Rejected e => Rejected e
      end
  end.

(** Lines 119-166: the callback run for one copy operation.  After its one
    [await] the callback is synchronous, so its insertions are not
    interleaved with another operation's. *)
Definition resolveCopyConfiguration (copyConfiguration : ICopyOperation.t)
    (copyDescriptorByDestination : JsMap.t ICopyDescriptor.t)
    : Promise (JsMap.t ICopyDescriptor.t) :=
  sourceFiles <- getFileSelectionSpecifierPathsAsync copyConfiguration ;;
  liftOutcome
    (forEachDestinationFolder copyConfiguration
       (ICopyOperation.destinationFolders copyConfiguration) sourceFiles
       copyDescriptorByDestination).

(** Line 117: [Async.forEachAsync(copyConfigurations, ...)].  The source
    starts the callbacks concurrently; a callback has one [await], the
    enumeration, and is synchronous after it, so the map is filled one whole
    operation after the other, in the order in which the enumerations
    complete.  Here that order is the order of the list and an enumeration
    is started once the operation before it went through, so a rejected
    resolution shows fewer enumerations than the source starts.  What is
    proved of a resolution is therefore either about one insertion, or holds
    for every order of the list and does not count the enumerations of a
    rejected one. *)
Fixpoint forEachCopyConfiguration (copyConfigurations : list ICopyOperation.t)
    (copyDescriptorByDestination : JsMap.t ICopyDescriptor.t)
    : Promise (JsMap.t ICopyDescriptor.t) :=
  match copyConfigurations with
  | [] => ret copyDescriptorByDestination
  | copyConfiguration :: rest =>
      m <- resolveCopyConfiguration copyConfiguration copyDescriptorByDestination ;;
      forEachCopyConfiguration rest m
  end.

Definition _getCopyDescriptorsAsync (copyConfigurations : list ICopyOperation.t)
    : Promise (JsMap.t ICopyDescriptor.t) :=
  forEachCopyConfiguration copyConfigurations JsMap.empty.

(** *** [_copyFilesInnerAsync] *)

(** Lines 184-187: a prior build info of another configuration is dropped. *)
Definition discardIfConfigurationChanged (configHash : string)
    (oldBuildInfo : option IIncrementalBuildInfo.t)
    : Promise (option IIncrementalBuildInfo.t) :=
  match oldBuildInfo with
  | Some old =>
      if negb (String.eqb (IIncrementalBuildInfo.configHash old) configHash)
      then
        writeVerboseLine "File copy configuration changed, discarding incremental state." ;;
        ret None
      else ret (Some old)
  | None => ret None
  end.

(** Lines 196-199: the distinct source paths, in first-use order. *)
Definition allInputFiles (copyDescriptors : JsMap.t ICopyDescriptor.t) : JsSet.t :=
  fold_left (fun s copyDescriptor => JsSet.add (ICopyDescriptor.sourcePath copyDescriptor) s)
    (JsMap.values copyDescriptors) JsSet.empty.

(** Lines 201-211: every input file is read and hashed into
    [inputFileVersions].  The source starts the reads concurrently; here
    the files are taken in the order of the set and the first read that
    rejects ends the loop, so after a failed read the source may have
    started reads which this trace does not show.  The outcome, and the
    versions recorded when every read resolves, do not depend on that
    order. *)
Fixpoint hashInputFiles (inputFiles : list string) (inputFileVersions : JsMap.t string)
    : Promise (JsMap.t string) :=
  match inputFiles with
  | [] => ret inputFileVersions
  | inputFilePath :: rest =>
      fileContent <- readFileToBufferAsync inputFilePath ;;
      let fileHash := sha256_base64 fileContent in
      hashInputFiles rest (JsMap.set inputFilePath fileHash inputFileVersions)
  end.

(** Line 222: [oldBuildInfo?.inputFileVersions.get(sourcePath)]. *)
Definition oldVersion (oldBuildInfo : option IIncrementalBuildInfo.t)
    (sourcePath : string) : option string :=
  match oldBuildInfo with
  | Some old => JsMap.get sourcePath (IIncrementalBuildInfo.inputFileVersions old)
  | None => None
  end.

Definition missingHashMessage (sourcePath : string) : string :=
  "Missing hash for input file: " ++ sourcePath.

(** Lines 213-227: the descriptors whose source is not up to date. *)
Fixpoint selectDescriptorsWithWork (copyDescriptors : list ICopyDescriptor.t)
    (oldBuildInfo : option IIncrementalBuildInfo.t)
    (inputFileVersions : JsMap.t string)
    (copyDescriptorsWithWork : list ICopyDescriptor.t)
    : Outcome (list ICopyDescriptor.t) :=
  match copyDescriptors with
  | [] => Resolved copyDescriptorsWithWork
  | copyDescriptor :: rest =>
      let sourcePath := ICopyDescriptor.sourcePath copyDescriptor in
      let sourceFileHash := JsMap.get sourcePath inputFileVersions in
      if negb (truthyString sourceFileHash)
      then Rejected (Error (missingHashMessage sourcePath))
      else if strictEq (oldVersion oldBuildInfo sourcePath) sourceFileHash
      then selectDescriptorsWithWork rest oldBuildInfo inputFileVersions
             copyDescriptorsWithWork
      else selectDescriptorsWithWork rest oldBuildInfo inputFileVersions
             (copyDescriptorsWithWork ++ [copyDescriptor])
  end.

(** Lines 183-227: the new build info and the descriptors with work.  The
    [buildInfo] object of line 191 holds a reference to the
    [inputFileVersions] map that the hashing loop fills, so it is built
    here from the filled map. *)
Definition findCopyDescriptorsWithWork (copyDescriptors : JsMap.t ICopyDescriptor.t)
    (configHash buildInfoPath : string)
    : Promise (IIncrementalBuildInfo.t * list ICopyDescriptor.t) :=
  readBuildInfo <- tryReadBuildInfoAsync buildInfoPath ;;
  oldBuildInfo <- discardIfConfigurationChanged configHash readBuildInfo ;;
  inputFileVersions <- hashInputFiles (allInputFiles copyDescriptors) JsMap.empty ;;
  let buildInfo :=
    {| IIncrementalBuildInfo.configHash := configHash;
       IIncrementalBuildInfo.inputFileVersions := inputFileVersions |} in
  copyDescriptorsWithWork <-
    liftOutcome (selectDescriptorsWithWork (JsMap.values copyDescriptors) oldBuildInfo
                   inputFileVersions []) ;;
  ret (buildInfo, copyDescriptorsWithWork).

Definition linkedMessage (copyDescriptor : ICopyDescriptor.t) : string :=
  "Linked " ++ dquote ++ ICopyDescriptor.sourcePath copyDescriptor ++ dquote ++ " to "
    ++ dquote ++ ICopyDescriptor.destinationPath copyDescriptor ++ dquote ++ ".".

Definition copiedMessage (copyDescriptor : ICopyDescriptor.t) : string :=
  "Copied " ++ dquote ++ ICopyDescriptor.sourcePath copyDescriptor ++ dquote ++ " to "
    ++ dquote ++ ICopyDescriptor.destinationPath copyDescriptor ++ dquote ++ ".".

(** Lines 238-260: one transfer.  The source bumps the counter before it
    awaits the file-system call; the counters are read only once every
    transfer has resolved. *)
Definition transferOne (copyDescriptor : ICopyDescriptor.t)
    (counts : nat * nat) : Promise (nat * nat) :=
  let '(copiedFileCount, linkedFileCount) := counts in
  if ICopyDescriptor.hardlink copyDescriptor
  then
    createHardLinkAsync (ICopyDescriptor.sourcePath copyDescriptor)
      (ICopyDescriptor.destinationPath copyDescriptor) ;;
    writeVerboseLine (linkedMessage copyDescriptor) ;;
    ret (copiedFileCount, S linkedFileCount)
  else
    copyFilesAsync_FileSystem (ICopyDescriptor.sourcePath copyDescriptor)
      (ICopyDescriptor.destinationPath copyDescriptor) ;;
    writeVerboseLine (copiedMessage copyDescriptor) ;;
    ret (S copiedFileCount, linkedFileCount).

(** Lines 236-262: [Async.forEachAsync(copyDescriptorsWithWork, ...)].  The
    source starts the transfers concurrently; here they are taken in the
    order of the array and the first rejection ends the loop, so after a
    failed transfer the source may complete transfers which this trace does
    not show.  The counters and the set of transfers of a loop that
    resolves do not depend on that order. *)
Fixpoint forEachCopyDescriptorWithWork (copyDescriptorsWithWork : list ICopyDescriptor.t)
    (counts : nat * nat) : Promise (nat * nat) :=
  match copyDescriptorsWithWork with
  | [] => ret counts
  | copyDescriptor :: rest =>
      counts' <- transferOne copyDescriptor counts ;;
      forEachCopyDescriptorWithWork rest counts'
  end.

(** Lines 264-267. *)
Definition summaryLine (copiedFileCount linkedFileCount : nat) : string :=
  "Copied " ++ Number_toString copiedFileCount ++ " file"
    ++ (if Nat.eqb copiedFileCount 1 then EmptyString else "s") ++ " and "
    ++ "linked " ++ Number_toString linkedFileCount ++ " file"
    ++ (if Nat.eqb linkedFileCount 1 then EmptyString else "s").

Definition upToDateLine : string :=
  "All requested file copy operations are up to date. Nothing to do.".

Definition _copyFilesInnerAsync (copyDescriptors : JsMap.t ICopyDescriptor.t)
    (configHash buildInfoPath : string) : Promise unit :=
  if Nat.eqb (JsMap.size copyDescriptors) 0 then ret tt
  else
    found <- findCopyDescriptorsWithWork copyDescriptors configHash buildInfoPath ;;
    let '(buildInfo, copyDescriptorsWithWork) := found in
    if Nat.eqb (length copyDescriptorsWithWork) 0
    then writeLine upToDateLine
    else
      counts <- forEachCopyDescriptorWithWork copyDescriptorsWithWork (0, 0) ;;
      writeLine (summaryLine (fst counts) (snd counts)) ;;
      writeBuildInfoAsync buildInfo buildInfoPath.

(** *** [copyFilesAsync] *)

(** Lines 95-99: [hasher.update] fed each serialized operation in turn
    digests their concatenation. *)
Definition computeConfigHash (copyOperations : list ICopyOperation.t) : string :=
  sha256_base64 (String.concat EmptyString (map JSON_stringify copyOperations)).

Definition copyFilesAsync (copyOperations : list ICopyOperation.t)
    (buildInfoPath : string) : Promise unit :=
  let configHash := computeConfigHash copyOperations in
  copyDescriptorByDestination <- _getCopyDescriptorsAsync copyOperations ;;
  _copyFilesInnerAsync copyDescriptorByDestination configHash buildInfoPath.

End Plugin.

(** ** Reading a run's calls *)

Definition isGlob (ev : Event) : bool :=
  match ev with
  | EGlob _ => true
  | _ => false
  end.

(** A call that changes the destination files. *)
Definition isTransfer (ev : Event) : bool :=
  match ev with
  | ECreateHardLink _ _ | ECopyFiles _ _ => true
  | _ => false
  end.

Definition isCopy (ev : Event) : bool :=
  match ev with
  | ECopyFiles _ _ => true
  | _ => false
  end.

Definition isLink (ev : Event) : bool :=
  match ev with
  | ECreateHardLink _ _ => true
  | _ => false
  end.

Definition isBuildInfoWrite (ev : Event) : bool :=
  match ev with
  | EWriteBuildInfo _ _ => true
  | _ => false
  end.

(** Any call other than the enumeration of source files. *)
Definition isAfterResolution (ev : Event) : bool := negb (isGlob ev).

(** What [terminal.writeLine] printed, in order. *)
Definition terminalLines (evs : list Event) : list string :=
  flat_map (fun ev => match ev with
                      | EWriteLine line => [line]
                      | _ => []
                      end) evs.

(** A call that writes: a transfer or the build-info write. *)
Definition isWrite (ev : Event) : bool := isTransfer ev || isBuildInfoWrite ev.

(** The prior build info that survives lines 184-187. *)
Definition keptBuildInfo (configHash : string)
    (readBuildInfo : option IIncrementalBuildInfo.t) : option IIncrementalBuildInfo.t :=
  match readBuildInfo with
  | Some old =>
      if String.eqb (IIncrementalBuildInfo.configHash old) configHash then Some old else None
  | None => None
  end.

Definition discardLine : string :=
  "File copy configuration changed, discarding incremental state.".

(** What lines 184-187 print. *)
Definition discardEvents (configHash : string)
    (readBuildInfo : option IIncrementalBuildInfo.t) : list Event :=
  match readBuildInfo with
  | Some old =>
      if String.eqb (IIncrementalBuildInfo.configHash old) configHash then []
      else [EWriteVerboseLine discardLine]
  | None => []
  end.

(** The test of line 222, negated: the descriptor is pushed. *)
Definition hasWork (oldBuildInfo : option IIncrementalBuildInfo.t)
    (inputFileVersions : JsMap.t string) (copyDescriptor : ICopyDescriptor.t) : bool :=
  negb (strictEq
          (match oldBuildInfo with
           | Some old =>
               JsMap.get (ICopyDescriptor.sourcePath copyDescriptor)
                 (IIncrementalBuildInfo.inputFileVersions old)
           | None => None
           end)
          (JsMap.get (ICopyDescriptor.sourcePath copyDescriptor) inputFileVersions)).

(** ** Node's [path.posix]

    A model of the three functions of Node's [path] module that the plugin
    calls, for POSIX paths, following Node's documentation: paths are split
    at "/", [resolve] prepends arguments from the right until the path is
    absolute (falling back on the working directory) and normalizes away
    empty, "." and ".." segments. *)
Module PosixPath.

Definition slash : ascii := ascii_of_nat 47.

(** [s.split('/')]. *)
Fixpoint split (s : string) : list string :=
  match s with
  | EmptyString => [EmptyString]
  | String c rest =>
      if Ascii.eqb c slash then EmptyString :: split rest
      else match split rest with
           | segment :: segments => String c segment :: segments
           | [] => [String c EmptyString]
           end
  end.

Definition join (segments : list string) : string := String.concat "/" segments.

Definition isAbsolute (p : string) : bool :=
  match p with
  | String c _ => Ascii.eqb c slash
  | EmptyString => false
  end.

(** [normalizeString]: [stack] holds the segments kept so far, last
    first. *)
Fixpoint normalizeSegments (allowAboveRoot : bool) (segments stack : list string)
    : list string :=
  match segments with
  | [] => rev stack
  | segment :: rest =>
      if String.eqb segment EmptyString || String.eqb segment "."
      then normalizeSegments allowAboveRoot rest stack
      else if String.eqb segment ".."
      then match stack with
           | top :: below =>
               if String.eqb top ".."
               then normalizeSegments allowAboveRoot rest
                      (if allowAboveRoot then segment :: stack else stack)
               else normalizeSegments allowAboveRoot rest below
           | [] =>
               normalizeSegments allowAboveRoot rest
                 (if allowAboveRoot then [segment] else [])
           end
      else normalizeSegments allowAboveRoot rest (segment :: stack)
  end.

(** The right-to-left scan of [resolve]: [args] is given last argument
    first and ends with the working directory. *)
Fixpoint prepend (args : list string) (resolvedPath : string) : string * bool :=
  match args with
  | [] => (resolvedPath, false)
  | p :: rest =>
      if String.eqb p EmptyString then prepend rest resolvedPath
      else if isAbsolute p then ((p ++ "/" ++ resolvedPath)%string, true)
      else prepend rest (p ++ "/" ++ resolvedPath)%string
  end.

Definition resolveAll (cwd : string) (args : list string) : string :=
  let '(resolvedPath, resolvedAbsolute) := prepend (rev args ++ [cwd]) EmptyString in
  let normalized :=
    join (normalizeSegments (negb resolvedAbsolute) (split resolvedPath) []) in
  if resolvedAbsolute then ("/" ++ normalized)%string
  else match normalized with
       | EmptyString => "."
       | _ => normalized
       end.

Definition resolve (cwd : string) (a b : string) : string := resolveAll cwd [a; b].

(** [basename(p)]: the last non-empty segment. *)
Definition basename (p : string) : string :=
  last (filter (fun segment => negb (String.eqb segment EmptyString)) (split p))
    EmptyString.

Fixpoint dropCommonPrefix (xs ys : list string) : list string * list string :=
  match xs, ys with
  | x :: xs', y :: ys' =>
      if String.eqb x y then dropCommonPrefix xs' ys' else (xs, ys)
  | _, _ => (xs, ys)
  end.

Definition segmentsOf (p : string) : list string :=
  filter (fun segment => negb (String.eqb segment EmptyString)) (split p).

(** [relative(from, to)]: both are resolved, then one ".." per segment
    left in [from] after the common prefix, then what is left of [to]. *)
Definition relative (cwd : string) (from to : string) : string :=
  if String.eqb from to then EmptyString
  else
    let from' := resolveAll cwd [from] in
    let to' := resolveAll cwd [to] in
    if String.eqb from' to' then EmptyString
    else
      let '(up, down) := dropCommonPrefix (segmentsOf from') (segmentsOf to') in
      join (map (fun _ => "..") up ++ down).

Fixpoint containsSlash (s : string) : bool :=
  match s with
  | EmptyString => false
  | String c rest => Ascii.eqb c slash || containsSlash rest
  end.

(** A file or folder name: not empty, not "." or "..", without "/". *)
Definition isName (s : string) : bool :=
  negb (String.eqb s EmptyString) && negb (String.eqb s ".")
  && negb (String.eqb s "..") && negb (containsSlash s).

(** The absolute path made of the given names. *)
Definition absolute (names : list string) : string := ("/" ++ join names)%string.

End PosixPath.

(** ** A small host to run the engine on

    Files are a list of paths with their content ([None]: present but not
    readable); folders under "/readonly" refuse writes.  The digest is a
    stand-in that tags the content. *)
Module Fixture.

Definition Files : Type := JsMap.t (option string).

Definition underFolder (folder path : string) : bool :=
  String.prefix (folder ++ "/")%string path.

Fixpoint endsWith (suffix s : string) : bool :=
  String.eqb suffix s
  || match s with
     | String _ rest => endsWith suffix rest
     | EmptyString => false
     end.

(** The part of a path after a prefix, when it starts with it. *)
Fixpoint below (folder path : string) : option string :=
  match folder, path with
  | EmptyString, _ => Some path
  | String a folder', String b path' =>
      if Ascii.eqb a b then below folder' path' else None
  | String _ _, EmptyString => None
  end.

Fixpoint hasSlash (s : string) : bool :=
  match s with
  | EmptyString => false
  | String c rest => Ascii.eqb c "/" || hasSlash rest
  end.

(** An include pattern "*.ext" selects the files of the folder itself whose
    name ends in ".ext"; an exclude pattern is a file name; without an
    include pattern no file is selected. *)
Definition selected (copyConfiguration : ICopyOperation.t) (path : string) : bool :=
  match below (ICopyOperation.sourcePath copyConfiguration ++ "/") path with
  | Some name =>
      negb (hasSlash name)
      && existsb (fun glob =>
                    match glob with
                    | String _ suffix => endsWith suffix name
                    | EmptyString => false
                    end) (ICopyOperation.includeGlobs copyConfiguration)
      && negb (existsb (fun glob => String.eqb glob name)
                 (ICopyOperation.excludeGlobs copyConfiguration))
  | None => false
  end.

Definition glob (files : Files) (copyConfiguration : ICopyOperation.t)
    : option (list string) :=
  Some (filter (selected copyConfiguration) (JsMap.keys files)).

Definition read (files : Files) (path : string) : option string :=
  match JsMap.get path files with
  | Some (Some content) => Some content
  | _ => None
  end.

Definition write (files : Files) (sourcePath destinationPath : string) : option Files :=
  if underFolder "/readonly" destinationPath then None
  else match JsMap.get sourcePath files with
       | Some content => Some (JsMap.set destinationPath content files)
       | None => None
       end.

Definition stringifyFlag (x : option bool) : string :=
  match x with
  | Some true => "true"
  | Some false => "false"
  | None => "undefined"
  end.

Definition stringify (copyConfiguration : ICopyOperation.t) : string :=
  "{" ++ ICopyOperation.sourcePath copyConfiguration
    ++ "|" ++ String.concat "," (ICopyOperation.includeGlobs copyConfiguration)
    ++ "|" ++ String.concat "," (ICopyOperation.excludeGlobs copyConfiguration)
    ++ "|" ++ String.concat "," (ICopyOperation.destinationFolders copyConfiguration)
    ++ "|" ++ stringifyFlag (ICopyOperation.flatten copyConfiguration)
    ++ "|" ++ stringifyFlag (ICopyOperation.hardlink copyConfiguration) ++ "}".

Definition cwd : string := "/work".

#[export] Instance host : Host := {|
  FS := Files;
  sha256_base64 := fun content => ("sha256:" ++ content)%string;
  JSON_stringify := stringify;
  path_resolve := PosixPath.resolve cwd;
  path_basename := PosixPath.basename;
  path_relative := PosixPath.relative cwd;
  getFileSelectionSpecifierPaths := glob;
  readFileToBuffer := read;
  copyFiles := write;
  createHardLink := write
|}.

Definition world (files : Files)
    (buildInfoFiles : JsMap.t IIncrementalBuildInfo.t) : World :=
  {| fs := files; buildInfoFiles := buildInfoFiles |}.

Definition operation (sourcePath : string) (includeGlobs destinationFolders : list string)
    (flatten hardlink : option bool) : ICopyOperation.t :=
  {| ICopyOperation.sourcePath := sourcePath;
     ICopyOperation.includeGlobs := includeGlobs;
     ICopyOperation.excludeGlobs := [];
     ICopyOperation.destinationFolders := destinationFolders;
     ICopyOperation.flatten := flatten;
     ICopyOperation.hardlink := hardlink |}.

(** The scenario of the spec: "src" holds a.txt ("hello") and b.txt
    ("world"), copied to "out". *)
Definition scenarioFiles : Files :=
  [("/work/src/a.txt", Some "hello"); ("/work/src/b.txt", Some "world")].

Definition scenarioOperation : ICopyOperation.t :=
  operation "/work/src" ["*.txt"] ["/work/out"] None (Some false).

Definition buildInfoPath : string := "/work/temp/copy-files.json".

Definition descriptor (sourcePath destinationPath : string) (hardlink : bool)
    : ICopyDescriptor.t :=
  {| ICopyDescriptor.sourcePath := sourcePath;
     ICopyDescriptor.destinationPath := destinationPath;
     ICopyDescriptor.hardlink := hardlink |}.

Definition descriptorA : ICopyDescriptor.t :=
  descriptor "/work/src/a.txt" "/work/out/a.txt" false.

Definition descriptorB : ICopyDescriptor.t :=
  descriptor "/work/src/b.txt" "/work/out/b.txt" false.

Definition scenarioDescriptors : JsMap.t ICopyDescriptor.t :=
  [("/work/out/a.txt", descriptorA); ("/work/out/b.txt", descriptorB)].

Definition scenarioConfigHash : string :=
  "sha256:{/work/src|*.txt||/work/out|undefined|false}".

(** The build info the first run of the scenario writes. *)
Definition scenarioBuildInfo : IIncrementalBuildInfo.t :=
  {| IIncrementalBuildInfo.configHash := scenarioConfigHash;
     IIncrementalBuildInfo.inputFileVersions :=
       [("/work/src/a.txt", "sha256:hello"); ("/work/src/b.txt", "sha256:world")] |}.

(** The file system the first run leaves. *)
Definition copiedFiles : Files :=
  scenarioFiles
    ++ [("/work/out/a.txt", Some "hello"); ("/work/out/b.txt", Some "world")].

(** The same, with the content of a.txt changed afterwards. *)
Definition changedFiles : Files :=
  [("/work/src/a.txt", Some "HELLO"); ("/work/src/b.txt", Some "world");
   ("/work/out/a.txt", Some "hello"); ("/work/out/b.txt", Some "world")].

(** A build info of the same configuration that still lists a source
    which is gone. *)
Definition staleBuildInfo : IIncrementalBuildInfo.t :=
  {| IIncrementalBuildInfo.configHash := scenarioConfigHash;
     IIncrementalBuildInfo.inputFileVersions :=
       [("/work/src/a.txt", "sha256:hello"); ("/work/src/b.txt", "sha256:world");
        ("/work/src/gone.txt", "sha256:bye")] |}.

(** Two operations that flatten a.txt of two folders onto one
    destination. *)
Definition conflictingFiles : Files :=
  [("/work/src/a.txt", Some "hello"); ("/work/lib/a.txt", Some "other")].

Definition conflictingOperations : list ICopyOperation.t :=
  [operation "/work/src" ["*.txt"] ["/work/out"] (Some true) None;
   operation "/work/lib" ["*.txt"] ["/work/out"] (Some true) None].

(** A source that is listed but cannot be read. *)
Definition unreadableFiles : Files :=
  [("/work/src/a.txt", Some "hello"); ("/work/src/b.txt", None)].

(** An operation whose destination folder refuses writes. *)
Definition readonlyOperation : ICopyOperation.t :=
  operation "/work/src" ["*.txt"] ["/work/out"; "/readonly/out"] None None.

Definition firstWorld : World := world scenarioFiles [].

(** The world the first run of the scenario leaves. *)
Definition copiedWorld : World := world copiedFiles [(buildInfoPath, scenarioBuildInfo)].

Definition changedWorld : World := world changedFiles [(buildInfoPath, scenarioBuildInfo)].

Definition staleWorld : World := world copiedFiles [(buildInfoPath, staleBuildInfo)].






(** One copy and one hard link of a.txt. *)
Definition mixedDescriptors : JsMap.t ICopyDescriptor.t :=
  [("/work/out/a.txt", descriptorA);
   ("/work/bak/a.txt", descriptor "/work/src/a.txt" "/work/bak/a.txt" true)].

(** The same destination declared with [hardlink: false] and without the
    flag. *)
Definition redeclaredOperations : list ICopyOperation.t :=
  [operation "/work/src" ["*.txt"] ["/work/out"] None (Some false);
   operation "/work/src" ["*.txt"] ["/work/out"] None None].

End Fixture.


(** ** [normalizeCopyOperation] *)

Section Normalize.
Context {host : Host}.

(** [normalizeFileSelectionSpecifier] of FileGlobSpecifier.ts is not among
    the sources: it is taken as a parameter which, as its type says, rewrites
    the fields of the file selection only (the source folder and the include
    and exclude patterns). *)
Variable normalizeFileSelectionSpecifier :
  string -> string * list string * list string -> string * list string * list string.

(** Lines 82-87.  The source rewrites the operation in place; the rewritten
    operation is returned here. *)
Definition normalizeCopyOperation (rootFolderPath : string)
    (copyOperation : ICopyOperation.t) : ICopyOperation.t :=
  let '(sourcePath, includeGlobs, excludeGlobs) :=
    normalizeFileSelectionSpecifier rootFolderPath
      (ICopyOperation.sourcePath copyOperation,
       ICopyOperation.includeGlobs copyOperation,
       ICopyOperation.excludeGlobs copyOperation) in
  {| ICopyOperation.sourcePath := sourcePath;
     ICopyOperation.includeGlobs := includeGlobs;
     ICopyOperation.excludeGlobs := excludeGlobs;
     ICopyOperation.destinationFolders :=
       map (fun x => path_resolve rootFolderPath x)
         (ICopyOperation.destinationFolders copyOperation);
     ICopyOperation.flatten := ICopyOperation.flatten copyOperation;
     ICopyOperation.hardlink := ICopyOperation.hardlink copyOperation |}.

End Normalize.

(** ** The declared copies

    One pass of the inner loop of [_getCopyDescriptorsAsync] is decided by
    the operation, one of its destination folders and one of its source
    files. *)
Definition CopyRequest : Type := (ICopyOperation.t * string * string)%type.

Section Requests.
Context {host : Host}.

Definition requestDestination (r : CopyRequest) : string :=
  let '(copyConfiguration, destinationFolderPath, sourceFilePath) := r in
  resolvedDestinationPath copyConfiguration destinationFolderPath sourceFilePath.

(** The [processedCopyDescriptor] of lines 157-161. *)
Definition requestDescriptor (r : CopyRequest) : ICopyDescriptor.t :=
  let '(copyConfiguration, destinationFolderPath, sourceFilePath) := r in
  {| ICopyDescriptor.sourcePath := sourceFilePath;
     ICopyDescriptor.destinationPath :=
       resolvedDestinationPath copyConfiguration destinationFolderPath sourceFilePath;
     ICopyDescriptor.hardlink := truthy (ICopyOperation.hardlink copyConfiguration) |}.

(** The passes of lines 129-165 for one operation, in the order of the two
    loops. *)
Definition requestsOf (copyConfiguration : ICopyOperation.t) (sourceFiles : list string)
    : list CopyRequest :=
  flat_map (fun destinationFolderPath =>
              map (fun sourceFilePath =>
                     (copyConfiguration, destinationFolderPath, sourceFilePath))
                sourceFiles)
    (ICopyOperation.destinationFolders copyConfiguration).

(** All passes of a resolution over the given file system. *)
Definition declaredRequests (files : FS) (copyConfigurations : list ICopyOperation.t)
    : list CopyRequest :=
  flat_map (fun copyConfiguration =>
              match getFileSelectionSpecifierPaths files copyConfiguration with
              | Some sourceFiles => requestsOf copyConfiguration sourceFiles
              | None => []
              end)
    copyConfigurations.

Fixpoint addAll (requests : list CopyRequest)
    (copyDescriptorByDestination : JsMap.t ICopyDescriptor.t)
    : Outcome (JsMap.t ICopyDescriptor.t) :=
  match requests with
  | [] => Resolved copyDescriptorByDestination
  | (copyConfiguration, destinationFolderPath, sourceFilePath) :: rest =>
      match addCopyDescriptor copyConfiguration destinationFolderPath sourceFilePath
              copyDescriptorByDestination with
      | Resolved m => addAll rest m
      | Rejected e => Rejected e
      end
  end.

(** No two passes claim one destination for different sources or hardlink
    flags. *)
Definition consistent (requests : list CopyRequest) : Prop :=
  forall r1 r2,
    In r1 requests -> In r2 requests ->
    requestDestination r1 = requestDestination r2 ->
    ICopyDescriptor.sourcePath (requestDescriptor r1)
      = ICopyDescriptor.sourcePath (requestDescriptor r2)
    /\ ICopyDescriptor.hardlink (requestDescriptor r1)
       = ICopyDescriptor.hardlink (requestDescriptor r2).

(** Every entry of the map sits under its own destination path. *)
Definition keyedByDestination (m : JsMap.t ICopyDescriptor.t) : Prop :=
  Forall (fun entry => ICopyDescriptor.destinationPath (snd entry) = fst entry) m.

End Requests.

(** The file-system call a descriptor's transfer makes. *)
Definition transferEvent (copyDescriptor : ICopyDescriptor.t) : Event :=
  if ICopyDescriptor.hardlink copyDescriptor
  then ECreateHardLink (ICopyDescriptor.sourcePath copyDescriptor)
         (ICopyDescriptor.destinationPath copyDescriptor)
  else ECopyFiles (ICopyDescriptor.sourcePath copyDescriptor)
         (ICopyDescriptor.destinationPath copyDescriptor).

(** The paths read by the hashing loop, in order. *)
Definition readPaths (evs : list Event) : list string :=
  flat_map (fun ev => match ev with
                      | EReadFile inputFilePath => [inputFilePath]
                      | _ => []
                      end) evs.

(** The paths the transfers wrote or tried to write, in order. *)
Definition writtenPaths (evs : list Event) : list string :=
  flat_map (fun ev => match ev with
                      | ECreateHardLink _ newLinkPath => [newLinkPath]
                      | ECopyFiles _ destinationPath => [destinationPath]
                      | _ => []
                      end) evs.

(** A call that takes input: an enumeration or a read. *)
Definition isInput (ev : Event) : bool :=
  match ev with
  | EGlob _ | EReadBuildInfo _ | EReadFile _ => true
  | _ => false
  end.

(** * Rush install action

    A shallow embedding of [runAsync], [_doInstall] and [_collectTelemetry]
    of [libraries/rush-lib/src/cli/actions/BaseInstallAction.ts]. *)
Module BaseInstallAction.

(** ** Data model

    [Subspace], [RushConfigurationProject], [RushConfiguration] and
    [IInstallManagerOptions] are declared outside the sources; the records
    hold the members [runAsync] reads or writes.  The JS sets and the map
    compare objects by identity: a subspace object is identified here by its
    name and a project object by its package name. *)
Record Subspace : Type := {
  subspaceName : string;
  (* [getPnpmOptions()?.alwaysFullInstall] *)
  pnpmAlwaysFullInstall : option bool;
  (* the package names of [getProjects()] *)
  projectNames : list string
}.

Record RushConfigurationProject : Type := {
  packageName : string;
  subspace : Subspace
}.

Definition getProjects (s : Subspace) : list RushConfigurationProject :=
  map (fun name => {| packageName := name; subspace := s |}) (projectNames s).

(** [Set<RushConfigurationProject>]. *)
Definition hasProject (project : RushConfigurationProject)
    (s : list RushConfigurationProject) : bool :=
  existsb (fun other => String.eqb (packageName other) (packageName project)) s.

Definition addProject (project : RushConfigurationProject)
    (s : list RushConfigurationProject) : list RushConfigurationProject :=
  if hasProject project s then s else s ++ [project].

Definition newProjectSet (projects : list RushConfigurationProject)
    : list RushConfigurationProject :=
  fold_left (fun s project => addProject project s) projects [].

(** [Set<Subspace>]. *)
Definition hasSubspace (x : Subspace) (s : list Subspace) : bool :=
  existsb (fun other => String.eqb (subspaceName other) (subspaceName x)) s.

Definition addSubspace (x : Subspace) (s : list Subspace) : list Subspace :=
  if hasSubspace x s then s else s ++ [x].

Definition newSubspaceSet (subspaces : list Subspace) : list Subspace :=
  fold_left (fun s x => addSubspace x s) subspaces [].

Record ISubspaceSelectedProjectsMetadata : Type := {
  selectedProjects : list RushConfigurationProject;
  pnpmFilterArguments : list string;
  alwaysFullInstall : bool
}.

(** The options [runAsync] reads or overrides; the spread of lines 247 and
    254 carries every other option over unchanged. *)
Record IInstallManagerOptions : Type := {
  options_selectedProjects : list RushConfigurationProject;
  options_pnpmFilterArguments : list string;
  options_subspace : Subspace;
  debug : bool;
  fullUpgrade : bool
}.

Record RushConfiguration : Type := {
  _hasVariantsField : bool;
  subspacesFeatureEnabled : bool;
  projects : list RushConfigurationProject;
  subspaces : list Subspace;
  (* [subspacesConfiguration?.preventSelectingAllSubspaces] *)
  preventSelectingAllSubspaces : option bool;
  packageManager : string
}.

(** The action: its name, its parameters' values, and what its
    collaborators hand back. *)
Record Action : Type := {
  actionName : string;
  rushConfiguration : RushConfiguration;
  purgeParameter : bool;
  networkConcurrencyParameter : option Z;
  maxInstallAttempts : Z;
  ignoreHooksParameter : bool;
  isDebug : bool;
  (* whether [this.parser.telemetry] is set *)
  telemetry : bool;
  (* [this._selectionParameters?.getTargetSubspace()] *)
  targetSubspace : option Subspace;
  (* what [buildInstallOptionsAsync] resolves to *)
  installOptions : IInstallManagerOptions;
  (* what [StandardScriptUpdater.updateAsync] resolves to *)
  scriptsRefreshed : bool
}.

(** ** Effects *)

(** The two members of [Event] (api/EventHooks) that [runAsync] raises. *)
Inductive HookEvent : Type := preRushInstall | postRushInstall.

(** The texts printed, by the line that prints them; the stopwatch reading
    inside the last one is left out. *)
Inductive Message : Type :=
| VariantsWarning                          (* lines 114-120, yellow *)
| BlankLine                                (* lines 166 and 213 *)
| PreventSelectingAllSubspaces             (* lines 168-173, red *)
| PurgeNotice                              (* line 210 *)
| InstallingForSubspace (name : string)    (* line 242, green *)
| ScriptsRefreshedNotice                   (* lines 282-288, yellow *)
| FinishedSuccessfully (name : string).    (* lines 292-294, green *)

(** A step of a run: a line printed or a call to a collaborator. *)
Inductive Step : Type :=
| TerminalWriteLine (message : Message)
| ConsoleLog (message : Message)
| BuildInstallOptions
| EnsureConsistentVersions (subspace : option Subspace)
| SetupChecksValidate
| StandardScriptUpdate
| StandardScriptValidate
| HandleEvent (event : HookEvent) (isDebug ignoreHooks : bool)
| PurgeNormal
| ImportInstallManagerFactory
| GetInstallManager (options : IInstallManagerOptions)
| DoInstall (options : IInstallManagerOptions)
| StartDeleteAll
| TelemetryLog (result mode : string) (clean debug full : bool)
| FlushTelemetry.

Inductive Thrown : Type :=
| AlreadyReportedError
| ErrorMessage (message : string)     (* [throw new Error(message)] in [runAsync] *)
| CollaboratorError (call : Step).    (* a call to a collaborator threw *)

Inductive Result (A : Type) : Type :=
| Done (a : A)
| Threw (e : Thrown).
Arguments Done {A} a.
Arguments Threw {A} e.

(** A computation: its result and the steps it took, in order. *)
Definition Act (A : Type) : Type := (Result A * list Step)%type.

Definition done {A} (a : A) : Act A := (Done a, []).

Definition throwError {A} (e : Thrown) : Act A := (Threw e, []).

Definition andThen {A B} (m : Act A) (k : A -> Act B) : Act B :=
  match m with
  | (Done a, steps1) =>
      match k a with
      | (r, steps2) => (r, steps1 ++ steps2)
      end
  | (Threw e, steps1) => (Threw e, steps1)
  end.

Definition print (s : Step) : Act unit := (Done tt, [s]).

(** [try { body } catch (error) { installSuccessful = false; throw error }
    finally { finalizer }]: the finalizer runs either way and is told
    whether the body threw; if it throws itself, its error is the one
    thrown. *)
Definition tryFinally {A} (body : Act A) (finalizer : bool -> Act unit) : Act A :=
  match body with
  | (r, steps1) =>
      let installSuccessful := match r with Done _ => true | Threw _ => false end in
      match finalizer installSuccessful with
      | (Done _, steps2) => (r, steps1 ++ steps2)
      | (Threw e, steps2) => (Threw e, steps1 ++ steps2)
      end
  end.

(** JS truthiness of [number | undefined]. *)
Definition truthyNumber (x : option Z) : bool :=
  match x with
  | Some n => negb (Z.eqb n 0)
  | None => false
  end.

Section Run.

(** Which calls to collaborators throw. *)
Variable throws : Step -> bool.

Definition call (s : Step) : Act unit :=
  if throws s then (Threw (CollaboratorError s), [s]) else (Done tt, [s]).

(** Lines 132-156: the body of the loop over the selected projects.  The
    metadata object is shared with the map, so its updates are stored
    back. *)
Definition selectProject (project : RushConfigurationProject)
    (state : list Subspace * JsMap.t ISubspaceSelectedProjectsMetadata)
    : list Subspace * JsMap.t ISubspaceSelectedProjectsMetadata :=
  let '(selectedSubspaces, selectedProjectsMetadataBySubspace) := state in
  let projectSubspace := subspace project in
  let '(selectedSubspaces', metadataBySubspace', subspaceSelectedProjectsMetadata) :=
    match JsMap.get (subspaceName projectSubspace) selectedProjectsMetadataBySubspace with
    | Some metadata => (selectedSubspaces, selectedProjectsMetadataBySubspace, metadata)
    | None =>
        let full :=
          match pnpmAlwaysFullInstall projectSubspace with
          | Some b => b
          | None => false
          end in
        let metadata :=
          {| selectedProjects :=
               newProjectSet (if full then getProjects projectSubspace else []);
             pnpmFilterArguments := [];
             alwaysFullInstall := full |} in
        (addSubspace projectSubspace selectedSubspaces,
         JsMap.set (subspaceName projectSubspace) metadata
           selectedProjectsMetadataBySubspace,
         metadata)
    end in
  if negb (alwaysFullInstall subspaceSelectedProjectsMetadata)
  then
    (selectedSubspaces',
     JsMap.set (subspaceName projectSubspace)
       {| selectedProjects :=
            addProject project (selectedProjects subspaceSelectedProjectsMetadata);
          pnpmFilterArguments :=
            pnpmFilterArguments subspaceSelectedProjectsMetadata
              ++ ["--filter"; packageName project];
          alwaysFullInstall := alwaysFullInstall subspaceSelectedProjectsMetadata |}
       metadataBySubspace')
  else (selectedSubspaces', metadataBySubspace').

(** Lines 123-177: the subspaces to install for, and what was selected in
    each. *)
Definition selectSubspaces (configuration : RushConfiguration)
    (selectedSubspaceParameter : option Subspace)
    (installManagerOptions : IInstallManagerOptions)
    : Act (option (list Subspace) * JsMap.t ISubspaceSelectedProjectsMetadata) :=
  if subspacesFeatureEnabled configuration
  then
    if negb (Nat.eqb (length (options_selectedProjects installManagerOptions))
               (length (projects configuration)))
    then
      let '(selectedSubspaces, metadataBySubspace) :=
        fold_left (fun state project => selectProject project state)
          (options_selectedProjects installManagerOptions) ([], JsMap.empty) in
      done (Some selectedSubspaces, metadataBySubspace)
    else
      match selectedSubspaceParameter with
      | Some selected => done (Some (newSubspaceSet [selected]), JsMap.empty)
      | None =>
          if negb (truthy (preventSelectingAllSubspaces configuration))
          then done (Some (newSubspaceSet (subspaces configuration)), JsMap.empty)
          else
            andThen (print (ConsoleLog BlankLine)) (fun _ =>
            andThen (print (ConsoleLog PreventSelectingAllSubspaces)) (fun _ =>
            throwError AlreadyReportedError))
      end
  else done (None, JsMap.empty).

(** Lines 179-188. *)
Fixpoint ensureConsistentVersionsForEach (selectedSubspaces : list Subspace) : Act unit :=
  match selectedSubspaces with
  | [] => done tt
  | s :: rest =>
      andThen (call (EnsureConsistentVersions (Some s))) (fun _ =>
      ensureConsistentVersionsForEach rest)
  end.

Definition ensureConsistentVersions (selectedSubspaces : option (list Subspace)) : Act unit :=
  match selectedSubspaces with
  | Some selected => ensureConsistentVersionsForEach selected
  | None => call (EnsureConsistentVersions None)
  end.

Definition networkConcurrencyMessage : string :=
  "The " ++ dquote ++ "--network-concurrency" ++ dquote ++ " parameter is"
    ++ " only supported when using the PNPM package manager.".

Definition maxInstallAttemptsMessage : string :=
  "The value of " ++ dquote ++ "--max-install-attempts" ++ dquote
    ++ " must be positive and nonzero.".

(** Lines 216-227. *)
Definition checkParameters (action : Action) : Act unit :=
  andThen
    (if truthyNumber (networkConcurrencyParameter action)
     then
       if negb (String.eqb (packageManager (rushConfiguration action)) "pnpm")
       then throwError (ErrorMessage networkConcurrencyMessage)
       else done tt
     else done tt) (fun _ =>
  if Z.ltb (maxInstallAttempts action) 1
  then throwError (ErrorMessage maxInstallAttemptsMessage)
  else done tt).

(** Lines 297-311. *)
Definition _doInstall (installManagerOptions : IInstallManagerOptions) : Act unit :=
  andThen (call (GetInstallManager installManagerOptions)) (fun _ =>
  call (DoInstall installManagerOptions)).

(** Lines 243-257: the options one subspace is installed with. *)
Definition installManagerOptionsForInstall (installManagerOptions : IInstallManagerOptions)
    (selectedProjectsMetadata : option ISubspaceSelectedProjectsMetadata)
    (s : Subspace) : IInstallManagerOptions :=
  match selectedProjectsMetadata with
  | Some metadata =>
      {| options_selectedProjects := selectedProjects metadata;
         options_pnpmFilterArguments := pnpmFilterArguments metadata;
         options_subspace := s;
         debug := debug installManagerOptions;
         fullUpgrade := fullUpgrade installManagerOptions |}
  | None =>
      {| options_selectedProjects := options_selectedProjects installManagerOptions;
         options_pnpmFilterArguments := options_pnpmFilterArguments installManagerOptions;
         options_subspace := s;
         debug := debug installManagerOptions;
         fullUpgrade := fullUpgrade installManagerOptions |}
  end.

(** Lines 238-260: one subspace after the other; a throw ends the loop. *)
Fixpoint installForEach (installManagerOptions : IInstallManagerOptions)
    (metadataBySubspace : JsMap.t ISubspaceSelectedProjectsMetadata)
    (selectedSubspaces : list Subspace) : Act unit :=
  match selectedSubspaces with
  | [] => done tt
  | s :: rest =>
      andThen (print (ConsoleLog (InstallingForSubspace (subspaceName s)))) (fun _ =>
      andThen (_doInstall
                 (installManagerOptionsForInstall installManagerOptions
                    (JsMap.get (subspaceName s) metadataBySubspace) s)) (fun _ =>
      installForEach installManagerOptions metadataBySubspace rest))
  end.

(** Lines 236-263: the body of the [try]. *)
Definition install (installManagerOptions : IInstallManagerOptions)
    (selectedSubspaces : option (list Subspace))
    (metadataBySubspace : JsMap.t ISubspaceSelectedProjectsMetadata) : Act unit :=
  match selectedSubspaces with
  | Some selected => installForEach installManagerOptions metadataBySubspace selected
  | None => _doInstall installManagerOptions
  end.

(** Lines 313-334; the duration and the parameter maps of [extraData] are
    left out of the logged record. *)
Definition _collectTelemetry (action : Action)
    (installManagerOptions : IInstallManagerOptions) (success : bool) : Act unit :=
  if telemetry action
  then call (TelemetryLog (if success then "Succeeded" else "Failed")
               (actionName action) (purgeParameter action)
               (debug installManagerOptions) (fullUpgrade installManagerOptions))
  else done tt.

(** Lines 267-278: the [finally] block. *)
Definition finalize (action : Action) (installManagerOptions : IInstallManagerOptions)
    (installSuccessful : bool) : Act unit :=
  andThen (call StartDeleteAll) (fun _ =>
  andThen (_collectTelemetry action installManagerOptions installSuccessful) (fun _ =>
  andThen (call FlushTelemetry) (fun _ =>
  call (HandleEvent postRushInstall (isDebug action) (ignoreHooksParameter action))))).

(** Lines 111-232: everything before the [try]. *)
Definition prepare (action : Action)
    : Act (IInstallManagerOptions * option (list Subspace)
           * JsMap.t ISubspaceSelectedProjectsMetadata * bool) :=
  andThen (call BuildInstallOptions) (fun _ =>
  let installManagerOptions := installOptions action in
  andThen (if _hasVariantsField (rushConfiguration action)
           then print (TerminalWriteLine VariantsWarning)
           else done tt) (fun _ =>
  andThen (selectSubspaces (rushConfiguration action) (targetSubspace action)
             installManagerOptions) (fun selection =>
  let '(selectedSubspaces, metadataBySubspace) := selection in
  andThen (ensureConsistentVersions selectedSubspaces) (fun _ =>
  andThen (call SetupChecksValidate) (fun _ =>
  andThen (if String.eqb (actionName action) "update"
           then andThen (call StandardScriptUpdate) (fun _ =>
                done (scriptsRefreshed action))
           else andThen (call StandardScriptValidate) (fun _ => done false))
    (fun warnAboutScriptUpdate =>
  andThen (call (HandleEvent preRushInstall (isDebug action)
                   (ignoreHooksParameter action))) (fun _ =>
  andThen (if purgeParameter action
           then andThen (print (ConsoleLog PurgeNotice)) (fun _ =>
                andThen (call PurgeNormal) (fun _ =>
                print (ConsoleLog BlankLine)))
           else done tt) (fun _ =>
  andThen (checkParameters action) (fun _ =>
  andThen (call ImportInstallManagerFactory) (fun _ =>
  done (installManagerOptions, selectedSubspaces, metadataBySubspace,
        warnAboutScriptUpdate))))))))))).

(** Lines 110-295. *)
Definition runAsync (action : Action) : Act unit :=
  andThen (prepare action) (fun prepared =>
  let '(installManagerOptions, selectedSubspaces, metadataBySubspace,
        warnAboutScriptUpdate) := prepared in
  andThen (tryFinally (install installManagerOptions selectedSubspaces metadataBySubspace)
             (finalize action installManagerOptions)) (fun _ =>
  andThen (if warnAboutScriptUpdate
           then print (ConsoleLog ScriptsRefreshedNotice)
           else done tt) (fun _ =>
  print (ConsoleLog (FinishedSuccessfully (actionName action)))))).

End Run.

(** The steps that install. *)
Definition isInstallStep (s : Step) : bool :=
  match s with
  | ImportInstallManagerFactory | GetInstallManager _ | DoInstall _ => true
  | _ => false
  end.

Definition installedSubspaces (steps : list Step) : list Subspace :=
  flat_map (fun s => match s with
                     | DoInstall options => [options_subspace options]
                     | _ => []
                     end) steps.

Definition filterArgumentsOf (selected : list RushConfigurationProject) : list string :=
  flat_map (fun project => ["--filter"; packageName project]) selected.

Definition inSubspace (name : string) (project : RushConfigurationProject) : bool :=
  String.eqb (subspaceName (subspace project)) name.

(** [projectSubspace.getPnpmOptions()?.alwaysFullInstall ?? false]. *)
Definition alwaysFullInstallOf (s : Subspace) : bool :=
  match pnpmAlwaysFullInstall s with
  | Some b => b
  | None => false
  end.

(** What the selection records for a subspace, given the selected
    projects. *)
Definition metadataOf (s : Subspace) (selected : list RushConfigurationProject)
    : ISubspaceSelectedProjectsMetadata :=
  if alwaysFullInstallOf s
  then {| selectedProjects := newProjectSet (getProjects s);
          pnpmFilterArguments := [];
          alwaysFullInstall := true |}
  else {| selectedProjects :=
            newProjectSet (filter (inSubspace (subspaceName s)) selected);
          pnpmFilterArguments :=
            filterArgumentsOf (filter (inSubspace (subspaceName s)) selected);
          alwaysFullInstall := false |}.

Definition threw {A} (r : Result A) : bool :=
  match r with
  | Threw _ => true
  | Done _ => false
  end.

(** The steps of each part of [runAsync]. *)
Definition isPrepareStep (s : Step) : bool :=
  match s with
  | BuildInstallOptions | TerminalWriteLine VariantsWarning | ConsoleLog BlankLine
  | ConsoleLog PreventSelectingAllSubspaces | ConsoleLog PurgeNotice
  | EnsureConsistentVersions _ | SetupChecksValidate | StandardScriptUpdate
  | StandardScriptValidate | HandleEvent preRushInstall _ _ | PurgeNormal
  | ImportInstallManagerFactory => true
  | _ => false
  end.

Definition isTryStep (s : Step) : bool :=
  match s with
  | ConsoleLog (InstallingForSubspace _) | GetInstallManager _ | DoInstall _ => true
  | _ => false
  end.

Definition isFinallyStep (s : Step) : bool :=
  match s with
  | StartDeleteAll | TelemetryLog _ _ _ _ _ | FlushTelemetry
  | HandleEvent postRushInstall _ _ => true
  | _ => false
  end.

Definition isReportStep (s : Step) : bool :=
  match s with
  | ConsoleLog ScriptsRefreshedNotice | ConsoleLog (FinishedSuccessfully _) => true
  | _ => false
  end.

(** What each guarded step of the preparation tells. *)
Definition guardOf (action : Action) (s : Step) : Prop :=
  match s with
  | TerminalWriteLine VariantsWarning =>
      _hasVariantsField (rushConfiguration action) = true
  | StandardScriptUpdate => actionName action = "update"
  | StandardScriptValidate => actionName action <> "update"
  | PurgeNormal | ConsoleLog PurgeNotice => purgeParameter action = true
  | _ => True
  end.

End BaseInstallAction.

(** ** A small repository

    Two subspaces, "default" (projects "app" and "lib") and "tools"
    (projects "cli" and "lint", always installed in full), and an install
    action over them. *)
Module InstallFixture.
Import BaseInstallAction.

Definition defaultSubspace : Subspace :=
  {| subspaceName := "default"; pnpmAlwaysFullInstall := None;
     projectNames := ["app"; "lib"] |}.

Definition toolsSubspace : Subspace :=
  {| subspaceName := "tools"; pnpmAlwaysFullInstall := Some true;
     projectNames := ["cli"; "lint"] |}.

Definition project (name : string) (s : Subspace) : RushConfigurationProject :=
  {| packageName := name; subspace := s |}.

Definition allProjects : list RushConfigurationProject :=
  getProjects defaultSubspace ++ getProjects toolsSubspace.

Definition configuration (prevent : option bool) (manager : string) : RushConfiguration :=
  {| _hasVariantsField := false;
     subspacesFeatureEnabled := true;
     projects := allProjects;
     subspaces := [defaultSubspace; toolsSubspace];
     preventSelectingAllSubspaces := prevent;
     packageManager := manager |}.

Definition optionsFor (selected : list RushConfigurationProject) : IInstallManagerOptions :=
  {| options_selectedProjects := selected;
     options_pnpmFilterArguments := [];
     options_subspace := defaultSubspace;
     debug := false;
     fullUpgrade := false |}.

(** [rush install] of the projects given, with telemetry on. *)
Definition installAction (c : RushConfiguration) (selected : list RushConfigurationProject)
    (attempts : Z) : Action :=
  {| actionName := "install";
     rushConfiguration := c;
     purgeParameter := false;
     networkConcurrencyParameter := None;
     maxInstallAttempts := attempts;
     ignoreHooksParameter := false;
     isDebug := false;
     telemetry := true;
     targetSubspace := None;
     installOptions := optionsFor selected;
     scriptsRefreshed := false |}.

(** The app and the cli are selected. *)
Definition filteredAction : Action :=
  installAction (configuration None "pnpm")
    [project "app" defaultSubspace; project "cli" toolsSubspace] 1.

(** [rush update --purge] of every project; the scripts get refreshed. *)
Definition updateAction : Action :=
  {| actionName := "update";
     rushConfiguration := configuration None "pnpm";
     purgeParameter := true;
     networkConcurrencyParameter := Some 4%Z;
     maxInstallAttempts := 3;
     ignoreHooksParameter := false;
     isDebug := false;
     telemetry := false;
     targetSubspace := None;
     installOptions := optionsFor allProjects;
     scriptsRefreshed := true |}.

(** The options the tools are installed with when the cli is selected. *)
Definition toolsOptions : IInstallManagerOptions :=
  {| options_selectedProjects :=
       [project "cli" toolsSubspace; project "lint" toolsSubspace];
     options_pnpmFilterArguments := [];
     options_subspace := toolsSubspace;
     debug := false;
     fullUpgrade := false |}.

(** No collaborator throws. *)
Definition neverThrows (s : Step) : bool := false.

(** The install manager of the subspace named cannot be made. *)
Definition noInstallManagerFor (name : string) (s : Step) : bool :=
  match s with
  | GetInstallManager options => String.eqb (subspaceName (options_subspace options)) name
  | _ => false
  end.

End InstallFixture.

(** * Properties *)

(** ** The containers *)

Lemma JsMap_get_set_same {V} (key : string) (value : V) (m : JsMap.t V) :
  JsMap.get key (JsMap.set key value m) = Some value.
Proof.
  induction m as [|[k v] rest IH]; simpl.
  - now rewrite String.eqb_refl.
  - destruct (String.eqb key k) eqn:E; simpl; rewrite E; auto.
Qed.

Lemma JsMap_get_set_other {V} (key key' : string) (value : V) (m : JsMap.t V) :
  key' <> key -> JsMap.get key' (JsMap.set key value m) = JsMap.get key' m.
Proof.
  intros Hne. induction m as [|[k v] rest IH]; simpl.
  - apply String.eqb_neq in Hne. now rewrite Hne.
  - destruct (String.eqb key k) eqn:E; simpl.
    + apply String.eqb_eq in E. subst k.
      apply String.eqb_neq in Hne. now rewrite Hne.
    + destruct (String.eqb key' k); auto.
Qed.

Lemma JsSet_has_In (x : string) (s : JsSet.t) : JsSet.has x s = true <-> In x s.
Proof.
  unfold JsSet.has. rewrite existsb_exists. split.
  - intros [y [Hin Heq]]. apply String.eqb_eq in Heq. now subst.
  - intros Hin. exists x. split; [assumption | apply String.eqb_refl].
Qed.

Lemma JsSet_add_In (x y : string) (s : JsSet.t) :
  In y (JsSet.add x s) <-> y = x \/ In y s.
Proof.
  unfold JsSet.add. destruct (JsSet.has x s) eqn:E.
  - apply JsSet_has_In in E. split; [auto | intros [->|]; auto].
  - rewrite in_app_iff. simpl. intuition.
Qed.

(** ** The promise monad *)

Section PromiseFacts.
Context {host : Host}.

Lemma bind_inv {A B} (m : Promise A) (k : A -> Promise B) w o w' evs :
  bind m k w = (o, w', evs) ->
  (exists a w1 evs1 evs2,
      m w = (Resolved a, w1, evs1) /\ k a w1 = (o, w', evs2) /\ evs = evs1 ++ evs2)
  \/ (exists e, m w = (Rejected e, w', evs) /\ o = Rejected e).
Proof.
  unfold bind. destruct (m w) as [[[a|e] w1] evs1].
  - destruct (k a w1) as [[o2 w2] evs2] eqn:Ek. intros H. inversion H; subst.
    left. now exists a, w1, evs1, evs2.
  - intros H. inversion H; subst. right. now exists e.
Qed.



End PromiseFacts.

(** ** Resolution of the copy operations *)

Section ResolutionFacts.
Context {host : Host}.

Lemma getFileSelectionSpecifierPathsAsync_run copyConfiguration w o w' evs :
  getFileSelectionSpecifierPathsAsync copyConfiguration w = (o, w', evs) ->
  w' = w /\ evs = [EGlob copyConfiguration].
Proof.
  unfold getFileSelectionSpecifierPathsAsync.
  destruct (getFileSelectionSpecifierPaths (fs w) copyConfiguration);
    intros H; inversion H; auto.
Qed.

Lemma resolveCopyConfiguration_run copyConfiguration m w o w' evs :
  resolveCopyConfiguration copyConfiguration m w = (o, w', evs) ->
  w' = w /\ evs = [EGlob copyConfiguration].
Proof.
  unfold resolveCopyConfiguration. intros H.
  apply bind_inv in H as [(files & w1 & evs1 & evs2 & Hg & Hk & ->)|(e & Hg & ->)].
  - apply getFileSelectionSpecifierPathsAsync_run in Hg as [-> ->].
    unfold liftOutcome in Hk. inversion Hk; subst. auto.
  - now apply getFileSelectionSpecifierPathsAsync_run in Hg.
Qed.

(** Resolution only enumerates: it leaves the world as it is. *)
Lemma forEachCopyConfiguration_run copyConfigurations :
  forall m w o w' evs,
    forEachCopyConfiguration copyConfigurations m w = (o, w', evs) ->
    w' = w /\ forallb isGlob evs = true.
Proof.
  induction copyConfigurations as [|c rest IH]; simpl; intros m w o w' evs H.
  - inversion H; auto.
  - apply bind_inv in H as [(m1 & w1 & evs1 & evs2 & Hr & Hk & ->)|(e & Hr & ->)].
    + apply resolveCopyConfiguration_run in Hr as [-> ->].
      apply IH in Hk as [-> Hg]. split; [reflexivity | exact Hg].
    + apply resolveCopyConfiguration_run in Hr as [-> ->]. auto.
Qed.



(** The loops run their list piecewise, and stop at the first throw. *)
Lemma forEachSourceFile_app copyConfiguration folder before after :
  forall m,
    forEachSourceFile copyConfiguration folder (before ++ after) m
    = match forEachSourceFile copyConfiguration folder before m with
      | Resolved m' => forEachSourceFile copyConfiguration folder after m'
      | Rejected e => Rejected e
      end.
Proof.
  induction before as [|f rest IH]; simpl; intros m; [reflexivity|].
  destruct (addCopyDescriptor copyConfiguration folder f m); auto.
Qed.

Lemma forEachDestinationFolder_app copyConfiguration sourceFiles before after :
  forall m,
    forEachDestinationFolder copyConfiguration (before ++ after) sourceFiles m
    = match forEachDestinationFolder copyConfiguration before sourceFiles m with
      | Resolved m' => forEachDestinationFolder copyConfiguration after sourceFiles m'
      | Rejected e => Rejected e
      end.
Proof.
  induction before as [|f rest IH]; simpl; intros m; [reflexivity|].
  destruct (forEachSourceFile copyConfiguration f sourceFiles m); auto.
Qed.

Lemma forEachCopyConfiguration_app before after :
  forall m w,
    forEachCopyConfiguration (before ++ after) m w
    = bind (forEachCopyConfiguration before m) (forEachCopyConfiguration after) w.
Proof.
  induction before as [|c rest IH]; simpl; intros m w.
  - unfold bind, ret. destruct (forEachCopyConfiguration after m w) as [[o w'] evs].
    reflexivity.
  - unfold bind.
    destruct (resolveCopyConfiguration c m w) as [[[m1|e] w1] evs1]; [|reflexivity].
    rewrite IH. unfold bind.
    destruct (forEachCopyConfiguration rest m1 w1) as [[[m2|e] w2] evs2]; [|reflexivity].
    destruct (forEachCopyConfiguration after m2 w2) as [[o w3] evs3].
    now rewrite app_assoc.
Qed.

End ResolutionFacts.

(** ** Hashing and the diff *)

Section DiffFacts.
Context {host : Host}.

Lemma discardIfConfigurationChanged_run configHash readBuildInfo w :
  discardIfConfigurationChanged configHash readBuildInfo w
  = (Resolved (keptBuildInfo configHash readBuildInfo), w,
     discardEvents configHash readBuildInfo).
Proof.
  unfold discardIfConfigurationChanged, keptBuildInfo, discardEvents.
  destruct readBuildInfo as [old|]; [|reflexivity].
  destruct (String.eqb (IIncrementalBuildInfo.configHash old) configHash); reflexivity.
Qed.

Lemma allInputFiles_fold (ds : list ICopyDescriptor.t) :
  forall (s : JsSet.t) (p : string),
    In p (fold_left (fun s d => JsSet.add (ICopyDescriptor.sourcePath d) s) ds s)
    <-> In p s \/ In p (map ICopyDescriptor.sourcePath ds).
Proof.
  induction ds as [|d rest IH]; simpl; intros s p.
  - tauto.
  - rewrite IH, JsSet_add_In. split; intros H; [|intuition].
    destruct H as [[->|H]|H]; auto.
Qed.

Lemma allInputFiles_In copyDescriptors (p : string) :
  In p (allInputFiles copyDescriptors)
  <-> In p (map ICopyDescriptor.sourcePath (JsMap.values copyDescriptors)).
Proof.
  unfold allInputFiles. rewrite allInputFiles_fold. simpl. tauto.
Qed.

(** Hashing only reads. *)
Lemma hashInputFiles_quiet inputFiles :
  forall acc w o w' evs,
    hashInputFiles inputFiles acc w = (o, w', evs) ->
    w' = w /\ existsb isWrite evs = false
    /\ ~ In (EWriteVerboseLine discardLine) evs /\ terminalLines evs = [].
Proof.
  induction inputFiles as [|p rest IH]; simpl; intros acc w o w' evs H.
  - inversion H; subst. simpl. tauto.
  - revert H. unfold bind at 1. unfold readFileToBufferAsync at 1.
    destruct (readFileToBuffer (fs w) p) as [c|].
    + destruct (hashInputFiles rest _ w) as [[o2 w2] evs2] eqn:E.
      intros H. inversion H; subst. apply IH in E as (-> & Hq & Hd & Ht).
      simpl. repeat split; auto. intros [Hbad|Hbad]; [discriminate | auto].
    + intros H. inversion H; subst. simpl. repeat split; auto.
      intros [Hbad|[]]; discriminate.
Qed.

(** On success every input file has the digest of its content, and
    nothing else was added. *)
Lemma hashInputFiles_resolved inputFiles :
  forall acc w m w' evs,
    hashInputFiles inputFiles acc w = (Resolved m, w', evs) ->
    forall p,
      (In p inputFiles ->
         exists c, readFileToBuffer (fs w) p = Some c
                   /\ JsMap.get p m = Some (sha256_base64 c))
      /\ (~ In p inputFiles -> JsMap.get p m = JsMap.get p acc).
Proof.
  induction inputFiles as [|q rest IH]; simpl; intros acc w m w' evs H p.
  - inversion H; subst. split; [intros [] | reflexivity].
  - revert H. unfold bind at 1. unfold readFileToBufferAsync at 1.
    destruct (readFileToBuffer (fs w) q) as [c|] eqn:Hread; [|discriminate].
    destruct (hashInputFiles rest _ w) as [[o2 w2] evs2] eqn:E.
    intros H. inversion H; subst. clear H.
    destruct (IH _ _ _ _ _ E p) as [Hin Hout].
    destruct (in_dec string_dec p rest) as [Hp|Hp].
    + split; [intros _; auto | intros Hn; exfalso; apply Hn; auto].
    + rewrite (Hout Hp). split.
      * intros [->|Hin']; [|contradiction].
        exists c. split; [assumption | apply JsMap_get_set_same].
      * intros Hn. apply JsMap_get_set_other. intros ->. apply Hn. now left.
Qed.


Lemma hasWork_eq oldBuildInfo inputFileVersions d :
  hasWork oldBuildInfo inputFileVersions d
  = negb (strictEq (oldVersion oldBuildInfo (ICopyDescriptor.sourcePath d))
            (JsMap.get (ICopyDescriptor.sourcePath d) inputFileVersions)).
Proof. reflexivity. Qed.

(** The diff keeps, in order, the descriptors that fail the test of
    line 222, provided every source has a non-empty hash. *)
Lemma selectDescriptorsWithWork_resolved ds :
  forall oldBuildInfo versions acc work,
    selectDescriptorsWithWork ds oldBuildInfo versions acc = Resolved work ->
    work = acc ++ filter (hasWork oldBuildInfo versions) ds
    /\ forall d, In d ds ->
         truthyString (JsMap.get (ICopyDescriptor.sourcePath d) versions) = true.
Proof.
  induction ds as [|d rest IH]; simpl; intros old versions acc work H.
  - inversion H; subst. rewrite app_nil_r. split; [reflexivity | intros ? []].
  - rewrite hasWork_eq.
    destruct (truthyString (JsMap.get (ICopyDescriptor.sourcePath d) versions)) eqn:Ht;
      simpl in H; [|discriminate].
    destruct (strictEq _ _) eqn:Eq; simpl; apply IH in H as [-> Hall].
    + split; [reflexivity|]. intros d' [<-|Hin]; auto.
    + rewrite <- app_assoc. split; [reflexivity|]. intros d' [<-|Hin]; auto.
Qed.

Lemma selectDescriptorsWithWork_total ds :
  forall oldBuildInfo versions acc,
    (forall d, In d ds ->
       truthyString (JsMap.get (ICopyDescriptor.sourcePath d) versions) = true) ->
    selectDescriptorsWithWork ds oldBuildInfo versions acc
    = Resolved (acc ++ filter (hasWork oldBuildInfo versions) ds).
Proof.
  induction ds as [|d rest IH]; simpl; intros old versions acc Hall.
  - now rewrite app_nil_r.
  - rewrite hasWork_eq, (Hall d (or_introl eq_refl)). simpl.
    destruct (strictEq _ _); simpl; rewrite IH by auto; [reflexivity|].
    now rewrite <- app_assoc.
Qed.

(** Lines 183-227 unfolded into their three steps. *)
Lemma findCopyDescriptorsWithWork_eq copyDescriptors configHash buildInfoPath w :
  findCopyDescriptorsWithWork copyDescriptors configHash buildInfoPath w
  = let readBuildInfo := JsMap.get buildInfoPath (buildInfoFiles w) in
    let before := EReadBuildInfo buildInfoPath :: discardEvents configHash readBuildInfo in
    match hashInputFiles (allInputFiles copyDescriptors) JsMap.empty w with
    | (Resolved versions, w1, evs) =>
        match selectDescriptorsWithWork (JsMap.values copyDescriptors)
                (keptBuildInfo configHash readBuildInfo) versions [] with
        | Resolved work =>
            (Resolved ({| IIncrementalBuildInfo.configHash := configHash;
                          IIncrementalBuildInfo.inputFileVersions := versions |}, work),
             w1, before ++ evs)
        | Rejected e => (Rejected e, w1, before ++ evs)
        end
    | (Rejected e, w1, evs) => (Rejected e, w1, before ++ evs)
    end.
Proof.
  unfold findCopyDescriptorsWithWork.
  unfold bind at 1. unfold tryReadBuildInfoAsync at 1.
  unfold bind at 1. rewrite discardIfConfigurationChanged_run.
  unfold bind at 1.
  destruct (hashInputFiles _ _ w) as [[[versions|e] w1] evs]; simpl.
  - unfold bind, liftOutcome, ret.
    destruct (selectDescriptorsWithWork _ _ versions []); simpl;
      rewrite ?app_nil_r; reflexivity.
  - reflexivity.
Qed.

(** The diff phase reads and may print the verbose discard line; it
    writes nothing. *)
Lemma findCopyDescriptorsWithWork_quiet copyDescriptors configHash buildInfoPath w o w' evs :
  findCopyDescriptorsWithWork copyDescriptors configHash buildInfoPath w = (o, w', evs) ->
  w' = w /\ existsb isWrite evs = false /\ terminalLines evs = []
  /\ (In (EWriteVerboseLine discardLine) evs ->
      exists old, JsMap.get buildInfoPath (buildInfoFiles w) = Some old
                  /\ IIncrementalBuildInfo.configHash old <> configHash).
Proof.
  rewrite findCopyDescriptorsWithWork_eq. cbv zeta.
  destruct (hashInputFiles _ _ w) as [[oh w1] evsh] eqn:Eh.
  apply hashInputFiles_quiet in Eh as (-> & Hq & Hd & Ht).
  assert (Hpre : forall evs0,
    evs0 = (EReadBuildInfo buildInfoPath
             :: discardEvents configHash (JsMap.get buildInfoPath (buildInfoFiles w)))
           ++ evsh ->
    existsb isWrite evs0 = false /\ terminalLines evs0 = []
    /\ (In (EWriteVerboseLine discardLine) evs0 ->
        exists old, JsMap.get buildInfoPath (buildInfoFiles w) = Some old
                    /\ IIncrementalBuildInfo.configHash old <> configHash)).
  { intros evs0 ->. unfold discardEvents.
    destruct (JsMap.get buildInfoPath (buildInfoFiles w)) as [old|]; simpl.
    - destruct (String.eqb _ configHash) eqn:E; simpl.
      + repeat split; auto. intros [Hbad|Hbad]; [discriminate | contradiction].
      + repeat split; auto. intros _. exists old. split; [reflexivity|].
        now apply String.eqb_neq.
    - repeat split; auto. intros [Hbad|Hbad]; [discriminate | contradiction]. }
  destruct oh as [versions|e].
  - destruct (selectDescriptorsWithWork _ _ versions []);
      intros H; inversion H; subst; split; auto.
  - intros H; inversion H; subst; split; auto.
Qed.

End DiffFacts.

(** ** The transfers *)

Section TransferFacts.
Context {host : Host}.

Lemma linkedMessage_not_discardLine d : linkedMessage d <> discardLine.
Proof. unfold linkedMessage, discardLine. simpl. discriminate. Qed.

Lemma copiedMessage_not_discardLine d : copiedMessage d <> discardLine.
Proof. unfold copiedMessage, discardLine. simpl. discriminate. Qed.

(** One transfer makes one file-system call, of the kind the descriptor
    asks for, and bumps the matching counter. *)
Lemma transferOne_run d copied linked w o w' evs :
  transferOne d (copied, linked) w = (o, w', evs) ->
  buildInfoFiles w' = buildInfoFiles w
  /\ existsb isBuildInfoWrite evs = false
  /\ terminalLines evs = []
  /\ ~ In (EWriteVerboseLine discardLine) evs
  /\ filter isTransfer evs
     = [if ICopyDescriptor.hardlink d
        then ECreateHardLink (ICopyDescriptor.sourcePath d) (ICopyDescriptor.destinationPath d)
        else ECopyFiles (ICopyDescriptor.sourcePath d) (ICopyDescriptor.destinationPath d)]
  /\ forall counts', o = Resolved counts' ->
       counts' = if ICopyDescriptor.hardlink d then (copied, S linked)
                 else (S copied, linked).
Proof.
  unfold transferOne.
  destruct (ICopyDescriptor.hardlink d);
    unfold bind, createHardLinkAsync, copyFilesAsync_FileSystem, writeVerboseLine, emit, ret.
  - destruct (createHardLink (fs w) _ _); intros H; inversion H; subst; simpl;
      repeat split; auto; try discriminate.
    + intros [Hbad|[Hbad|[]]]; [discriminate|].
      inversion Hbad as [Hm]; try now apply linkedMessage_not_discardLine in Hm.
    + intros counts' Hc. now inversion Hc.
    + intros [Hbad|[]]; discriminate.
  - destruct (copyFiles (fs w) _ _); intros H; inversion H; subst; simpl;
      repeat split; auto; try discriminate.
    + intros [Hbad|[Hbad|[]]]; [discriminate|].
      inversion Hbad as [Hm]; try now apply copiedMessage_not_discardLine in Hm.
    + intros counts' Hc. now inversion Hc.
    + intros [Hbad|[]]; discriminate.
Qed.

Lemma forEachCopyDescriptorWithWork_run work :
  forall copied linked w o w' evs,
    forEachCopyDescriptorWithWork work (copied, linked) w = (o, w', evs) ->
    buildInfoFiles w' = buildInfoFiles w
    /\ existsb isBuildInfoWrite evs = false
    /\ terminalLines evs = []
    /\ ~ In (EWriteVerboseLine discardLine) evs
    /\ forall counts', o = Resolved counts' ->
         counts' = (copied + length (filter (fun d => negb (ICopyDescriptor.hardlink d)) work),
                    linked + length (filter ICopyDescriptor.hardlink work))
         /\ length (filter isCopy evs)
            = length (filter (fun d => negb (ICopyDescriptor.hardlink d)) work)
         /\ length (filter isLink evs) = length (filter ICopyDescriptor.hardlink work).
Proof.
  induction work as [|d rest IH]; simpl; intros copied linked w o w' evs H.
  - inversion H; subst. simpl. repeat split; auto.
    match goal with Hc : Resolved _ = Resolved _ |- _ => inversion Hc end.
    now rewrite !Nat.add_0_r.
  - apply bind_inv in H as [(c1 & w1 & evs1 & evs2 & Ht & Hk & ->)|(e & Ht & ->)].
    + apply transferOne_run in Ht as (Hb & Hw & Hl & Hd & Hf & Hc).
      specialize (Hc c1 eq_refl). subst c1.
      assert (Hcopy1 : length (filter isCopy evs1)
                       = if ICopyDescriptor.hardlink d then 0 else 1).
      { assert (E : filter isCopy evs1 = filter isCopy (filter isTransfer evs1)).
        { clear. induction evs1 as [|ev evs IH]; simpl; [reflexivity|].
          destruct ev; simpl; auto. now rewrite IH. }
        rewrite E, Hf. now destruct (ICopyDescriptor.hardlink d). }
      assert (Hlink1 : length (filter isLink evs1)
                       = if ICopyDescriptor.hardlink d then 1 else 0).
      { assert (E : filter isLink evs1 = filter isLink (filter isTransfer evs1)).
        { clear. induction evs1 as [|ev evs IH]; simpl; [reflexivity|].
          destruct ev; simpl; auto. now rewrite IH. }
        rewrite E, Hf. now destruct (ICopyDescriptor.hardlink d). }
      destruct (ICopyDescriptor.hardlink d); simpl;
        apply IH in Hk as (Hb2 & Hw2 & Hl2 & Hd2 & Hc2);
        (split; [congruence|]);
        (split; [rewrite existsb_app, Hw, Hw2; reflexivity|]);
        (split; [unfold terminalLines in *; rewrite flat_map_app, Hl, Hl2; reflexivity|]);
        (split; [rewrite in_app_iff; tauto|]);
        intros counts' Ho; destruct (Hc2 counts' Ho) as (-> & Hn1 & Hn2);
        rewrite !filter_app, !length_app, Hcopy1, Hlink1, Hn1, Hn2;
        repeat split; try lia; f_equal; lia.
    + apply transferOne_run in Ht as (Hb & Hw & Hl & Hd & Hf & Hc).
      repeat split; auto; congruence.
Qed.

End TransferFacts.

(** ** The run as a whole *)

Section RunFacts.
Context {host : Host}.

Lemma copyFilesInnerAsync_eq copyDescriptors configHash buildInfoPath w :
  _copyFilesInnerAsync copyDescriptors configHash buildInfoPath w
  = if Nat.eqb (JsMap.size copyDescriptors) 0 then (Resolved tt, w, [])
    else
      match findCopyDescriptorsWithWork copyDescriptors configHash buildInfoPath w with
      | (Resolved (buildInfo, work), w1, evs1) =>
          if Nat.eqb (length work) 0
          then (Resolved tt, w1, evs1 ++ [EWriteLine upToDateLine])
          else
            match forEachCopyDescriptorWithWork work (0, 0) w1 with
            | (Resolved counts, w2, evs2) =>
                (Resolved tt,
                 {| fs := fs w2;
                    buildInfoFiles := JsMap.set buildInfoPath buildInfo (buildInfoFiles w2) |},
                 evs1 ++ evs2
                   ++ [EWriteLine (summaryLine (fst counts) (snd counts));
                       EWriteBuildInfo buildInfo buildInfoPath])
            | (Rejected e, w2, evs2) => (Rejected e, w2, evs1 ++ evs2)
            end
      | (Rejected e, w1, evs1) => (Rejected e, w1, evs1)
      end.
Proof.
  unfold _copyFilesInnerAsync.
  destruct (Nat.eqb (JsMap.size copyDescriptors) 0); [reflexivity|].
  unfold bind at 1.
  destruct (findCopyDescriptorsWithWork _ _ _ w) as [[[[buildInfo work]|e] w1] evs1];
    [|reflexivity].
  destruct (Nat.eqb (length work) 0); [reflexivity|].
  unfold bind, writeLine, writeBuildInfoAsync, emit.
  destruct (forEachCopyDescriptorWithWork work (0, 0) w1) as [[[counts|e] w2] evs2];
    reflexivity.
Qed.

Lemma copyFilesAsync_eq copyOperations buildInfoPath w :
  copyFilesAsync copyOperations buildInfoPath w
  = match _getCopyDescriptorsAsync copyOperations w with
    | (Resolved copyDescriptors, w1, evs1) =>
        let '(o, w2, evs2) :=
          _copyFilesInnerAsync copyDescriptors (computeConfigHash copyOperations)
            buildInfoPath w1 in
        (o, w2, evs1 ++ evs2)
    | (Rejected e, w1, evs1) => (Rejected e, w1, evs1)
    end.
Proof. reflexivity. Qed.

Lemma getCopyDescriptorsAsync_run copyOperations w o w' evs :
  _getCopyDescriptorsAsync copyOperations w = (o, w', evs) ->
  w' = w /\ forallb isGlob evs = true.
Proof. apply forEachCopyConfiguration_run. Qed.

Lemma forallb_isGlob_quiet evs :
  forallb isGlob evs = true ->
  existsb isWrite evs = false /\ terminalLines evs = []
  /\ ~ In (EWriteVerboseLine discardLine) evs
  /\ existsb isAfterResolution evs = false.
Proof.
  induction evs as [|ev rest IH]; simpl; [tauto|].
  destruct ev; simpl; try discriminate. intros H.
  destruct (IH H) as (? & ? & ? & ?). repeat split; auto.
  intros [Hbad|Hbad]; [discriminate | contradiction].
Qed.

Lemma terminalLines_app evs1 evs2 :
  terminalLines (evs1 ++ evs2) = terminalLines evs1 ++ terminalLines evs2.
Proof. unfold terminalLines. apply flat_map_app. Qed.



Lemma isWrite_false_parts evs :
  existsb isWrite evs = false ->
  existsb isBuildInfoWrite evs = false /\ existsb isTransfer evs = false
  /\ filter isCopy evs = [] /\ filter isLink evs = [].
Proof.
  induction evs as [|ev rest IH]; simpl; [tauto|].
  intros H. apply orb_false_iff in H as [Hev Hrest].
  destruct (IH Hrest) as (? & ? & ? & ?).
  destruct ev; simpl in *; try discriminate; auto.
Qed.

(** Every way a run can go: resolution throws; there is no descriptor;
    hashing or the diff throws; nothing has work; a transfer rejects; or
    every transfer resolves and the build info is written last. *)
Lemma copyFilesAsync_cases copyOperations buildInfoPath w o w' evs :
  copyFilesAsync copyOperations buildInfoPath w = (o, w', evs) ->
  exists evsR,
    (exists e,
        _getCopyDescriptorsAsync copyOperations w = (Rejected e, w, evsR)
        /\ o = Rejected e /\ w' = w /\ evs = evsR)
    \/ exists copyDescriptors,
        _getCopyDescriptorsAsync copyOperations w = (Resolved copyDescriptors, w, evsR)
        /\ ((JsMap.size copyDescriptors = 0 /\ o = Resolved tt /\ w' = w /\ evs = evsR)
            \/ (JsMap.size copyDescriptors <> 0
                /\ exists evsD,
                    (exists e,
                        findCopyDescriptorsWithWork copyDescriptors
                          (computeConfigHash copyOperations) buildInfoPath w
                        = (Rejected e, w, evsD)
                        /\ o = Rejected e /\ w' = w /\ evs = evsR ++ evsD)
                    \/ exists buildInfo work,
                        findCopyDescriptorsWithWork copyDescriptors
                          (computeConfigHash copyOperations) buildInfoPath w
                        = (Resolved (buildInfo, work), w, evsD)
                        /\ ((work = [] /\ o = Resolved tt /\ w' = w
                             /\ evs = evsR ++ evsD ++ [EWriteLine upToDateLine])
                            \/ (work <> []
                                /\ exists wT evsT,
                                    (exists e,
                                        forEachCopyDescriptorWithWork work (0, 0) w
                                        = (Rejected e, wT, evsT)
                                        /\ o = Rejected e /\ w' = wT
                                        /\ evs = evsR ++ evsD ++ evsT)
                                    \/ exists counts,
                                        forEachCopyDescriptorWithWork work (0, 0) w
                                        = (Resolved counts, wT, evsT)
                                        /\ o = Resolved tt
                                        /\ w' = {| fs := fs wT;
                                                   buildInfoFiles :=
                                                     JsMap.set buildInfoPath buildInfo
                                                       (buildInfoFiles wT) |}
                                        /\ evs = evsR ++ evsD ++ evsT
                                                 ++ [EWriteLine (summaryLine (fst counts)
                                                                   (snd counts));
                                                     EWriteBuildInfo buildInfo
                                                       buildInfoPath])))).
Proof.
  intros Hrun. rewrite copyFilesAsync_eq in Hrun.
  destruct (_getCopyDescriptorsAsync copyOperations w) as [[[descs|e] wR] evsR] eqn:ER;
    destruct (getCopyDescriptorsAsync_run _ _ _ _ _ ER) as [-> _]; exists evsR.
  2:{ inversion Hrun; subst. left. exists e. auto. }
  right. exists descs. split; [reflexivity|].
  rewrite copyFilesInnerAsync_eq in Hrun.
  destruct (Nat.eqb (JsMap.size descs) 0) eqn:Esize.
  { inversion Hrun; subst. left. apply Nat.eqb_eq in Esize.
    now rewrite app_nil_r. }
  right. split; [now apply Nat.eqb_neq|].
  destruct (findCopyDescriptorsWithWork descs _ buildInfoPath w)
    as [[[[buildInfo work]|e] wD] evsD] eqn:ED;
    destruct (findCopyDescriptorsWithWork_quiet _ _ _ _ _ _ _ ED) as (-> & _);
    exists evsD.
  2:{ inversion Hrun; subst. left. exists e. auto. }
  right. exists buildInfo, work. split; [reflexivity|].
  destruct (Nat.eqb (length work) 0) eqn:Elen.
  { inversion Hrun; subst. left. apply Nat.eqb_eq in Elen.
    destruct work; [auto | discriminate]. }
  right. split; [intros ->; discriminate|].
  destruct (forEachCopyDescriptorWithWork work (0, 0) w) as [[[counts|e] wT] evsT] eqn:ET;
    exists wT, evsT; inversion Hrun; subst.
  - right. exists counts. auto.
  - left. exists e. auto.
Qed.


Lemma findCopyDescriptorsWithWork_configHash copyDescriptors configHash buildInfoPath
    w buildInfo work w' evs :
  findCopyDescriptorsWithWork copyDescriptors configHash buildInfoPath w
    = (Resolved (buildInfo, work), w', evs) ->
  IIncrementalBuildInfo.configHash buildInfo = configHash.
Proof.
  rewrite findCopyDescriptorsWithWork_eq. cbv zeta.
  destruct (hashInputFiles _ _ w) as [[[versions|e] w1] evsh]; [|discriminate].
  destruct (selectDescriptorsWithWork _ _ versions []); [|discriminate].
  intros H. inversion H. reflexivity.
Qed.

Lemma findCopyDescriptorsWithWork_work copyDescriptors configHash buildInfoPath
    w buildInfo work w' evs :
  findCopyDescriptorsWithWork copyDescriptors configHash buildInfoPath w
    = (Resolved (buildInfo, work), w', evs) ->
  work <> [] -> JsMap.size copyDescriptors <> 0.
Proof.
  rewrite findCopyDescriptorsWithWork_eq. cbv zeta.
  destruct (hashInputFiles _ _ w) as [[[versions|e] w1] evsh]; [|discriminate].
  destruct (selectDescriptorsWithWork _ _ versions []) eqn:Es; [|discriminate].
  intros H Hne. inversion H; subst.
  apply selectDescriptorsWithWork_resolved in Es as [-> _].
  destruct copyDescriptors; [contradiction | discriminate].
Qed.



End RunFacts.

(** ** The map of descriptors *)

Lemma JsMap_get_None_keys {V} (key : string) (m : JsMap.t V) :
  JsMap.get key m = None <-> ~ In key (JsMap.keys m).
Proof.
  induction m as [|[k v] rest IH]; simpl.
  - tauto.
  - destruct (String.eqb key k) eqn:E.
    + apply String.eqb_eq in E. subst. split; [discriminate | intros H; exfalso; auto].
    + apply String.eqb_neq in E. rewrite IH. split; [intros H [Hk|Hk]; auto | auto].
Qed.

Lemma JsMap_set_absent {V} (key : string) (value : V) (m : JsMap.t V) :
  JsMap.get key m = None -> JsMap.set key value m = m ++ [(key, value)].
Proof.
  induction m as [|[k v] rest IH]; simpl; [reflexivity|].
  destruct (String.eqb key k); [discriminate|]. intros H. now rewrite (IH H).
Qed.

Lemma JsMap_get_In {V} (key : string) (value : V) (m : JsMap.t V) :
  JsMap.get key m = Some value -> In (key, value) m.
Proof.
  induction m as [|[k v] rest IH]; simpl; [discriminate|].
  destruct (String.eqb key k) eqn:E.
  - apply String.eqb_eq in E. subst. intros H. injection H as ->. now left.
  - intros H. right. auto.
Qed.

Lemma JsMap_In_get {V} (key : string) (value : V) (m : JsMap.t V) :
  NoDup (JsMap.keys m) -> In (key, value) m -> JsMap.get key m = Some value.
Proof.
  induction m as [|[k v] rest IH]; simpl; [intros _ []|].
  intros Hnd [Heq|Hin].
  - injection Heq as -> ->. now rewrite String.eqb_refl.
  - inversion Hnd as [|? ? Hk Hrest]; subst.
    destruct (String.eqb key k) eqn:E.
    + apply String.eqb_eq in E. subst. exfalso. apply Hk.
      change k with (fst (k, value)). now apply in_map.
    + auto.
Qed.

Section DescriptorMapFacts.
Context {host : Host}.

Lemma addCopyDescriptor_request copyConfiguration folder file m :
  addCopyDescriptor copyConfiguration folder file m
  = match JsMap.get (requestDestination (copyConfiguration, folder, file)) m with
    | Some existing =>
        if String.eqb (ICopyDescriptor.sourcePath existing) file
           && Bool.eqb (ICopyDescriptor.hardlink existing)
                (truthy (ICopyOperation.hardlink copyConfiguration))
        then Resolved m
        else Rejected (Error (conflictMessage
                                (requestDestination (copyConfiguration, folder, file))))
    | None =>
        Resolved (m ++ [(requestDestination (copyConfiguration, folder, file),
                         requestDescriptor (copyConfiguration, folder, file))])
    end.
Proof.
  unfold addCopyDescriptor, requestDestination, requestDescriptor.
  destruct (JsMap.get _ m) eqn:E; [reflexivity|].
  now rewrite (JsMap_set_absent _ _ _ E).
Qed.

Lemma get_app_last {V} (key k : string) (v : V) (m : JsMap.t V) :
  JsMap.get key (m ++ [(k, v)])
  = match JsMap.get key m with
    | Some x => Some x
    | None => if String.eqb key k then Some v else None
    end.
Proof.
  induction m as [|[k0 v0] rest IH]; simpl; [reflexivity|].
  destruct (String.eqb key k0); auto.
Qed.

(** The loops of the source are the passes taken one after the other. *)
Lemma forEachSourceFile_addAll copyConfiguration folder sourceFiles :
  forall m,
    forEachSourceFile copyConfiguration folder sourceFiles m
    = addAll (map (fun file => (copyConfiguration, folder, file)) sourceFiles) m.
Proof.
  induction sourceFiles as [|file rest IH]; simpl; intros m; [reflexivity|].
  destruct (addCopyDescriptor copyConfiguration folder file m); auto.
Qed.

Lemma addAll_app before after :
  forall m,
    addAll (before ++ after) m
    = match addAll before m with
      | Resolved m' => addAll after m'
      | Rejected e => Rejected e
      end.
Proof.
  induction before as [|[[c folder] file] rest IH]; simpl; intros m; [reflexivity|].
  destruct (addCopyDescriptor c folder file m); auto.
Qed.

Lemma forEachDestinationFolder_addAll copyConfiguration sourceFiles folders :
  forall m,
    forEachDestinationFolder copyConfiguration folders sourceFiles m
    = addAll (flat_map (fun folder =>
                          map (fun file => (copyConfiguration, folder, file)) sourceFiles)
                folders) m.
Proof.
  induction folders as [|folder rest IH]; simpl; intros m; [reflexivity|].
  rewrite addAll_app, forEachSourceFile_addAll.
  destruct (addAll _ m); auto.
Qed.

(** A resolution resolves exactly when every enumeration does and the
    passes go through. *)
Lemma forEachCopyConfiguration_addAll copyConfigurations :
  forall m w m' w' evs,
    forEachCopyConfiguration copyConfigurations m w = (Resolved m', w', evs)
    <-> (forall c, In c copyConfigurations ->
           getFileSelectionSpecifierPaths (fs w) c <> None)
        /\ addAll (declaredRequests (fs w) copyConfigurations) m = Resolved m'
        /\ w' = w /\ evs = map EGlob copyConfigurations.
Proof.
  induction copyConfigurations as [|c rest IH]; intros m w m' w' evs.
  - simpl. unfold ret. split.
    + intros H. inversion H; subst. repeat split; auto; intros c [].
    + intros (_ & H & -> & ->). now inversion H.
  - change (declaredRequests (fs w) (c :: rest))
      with ((match getFileSelectionSpecifierPaths (fs w) c with
             | Some sourceFiles => requestsOf c sourceFiles
             | None => []
             end) ++ declaredRequests (fs w) rest).
    simpl forEachCopyConfiguration.
    unfold bind at 1. unfold resolveCopyConfiguration, bind, liftOutcome,
      getFileSelectionSpecifierPathsAsync.
    rewrite addAll_app.
    destruct (getFileSelectionSpecifierPaths (fs w) c) as [sourceFiles|] eqn:Eg.
    + rewrite forEachDestinationFolder_addAll. fold (requestsOf c sourceFiles).
      destruct (addAll (requestsOf c sourceFiles) m) as [m1|e].
      * destruct (forEachCopyConfiguration rest m1 w) as [[o2 w2] evs2] eqn:Er.
        split.
        -- intros H. inversion H; subst.
           apply IH in Er as (Hall & Hadd & -> & ->).
           repeat split; auto. intros c0 [<-|Hin]; [congruence | auto].
        -- intros (Hall & Hadd & -> & ->).
           assert (Er' : forEachCopyConfiguration rest m1 w
                         = (Resolved m', w, map EGlob rest)).
           { apply IH. repeat split; auto. intros c0 Hin. apply Hall. now right. }
           rewrite Er in Er'. inversion Er'; subst. reflexivity.
      * split; [discriminate | intros (_ & H & _); discriminate].
    + split; [discriminate|]. intros (Hall & _). exfalso.
      apply (Hall c); [now left | assumption].
Qed.

Lemma requestDescriptor_destination r :
  ICopyDescriptor.destinationPath (requestDescriptor r) = requestDestination r.
Proof. destruct r as [[c folder] file]. reflexivity. Qed.

Lemma descriptor_eq (d1 d2 : ICopyDescriptor.t) :
  ICopyDescriptor.sourcePath d1 = ICopyDescriptor.sourcePath d2 ->
  ICopyDescriptor.destinationPath d1 = ICopyDescriptor.destinationPath d2 ->
  ICopyDescriptor.hardlink d1 = ICopyDescriptor.hardlink d2 ->
  d1 = d2.
Proof. destruct d1, d2. simpl. now intros -> -> ->. Qed.

Lemma keyedByDestination_get m key d :
  keyedByDestination m -> JsMap.get key m = Some d ->
  ICopyDescriptor.destinationPath d = key.
Proof.
  intros Hk Hget. apply JsMap_get_In in Hget.
  unfold keyedByDestination in Hk. rewrite Forall_forall in Hk.
  exact (Hk _ Hget).
Qed.

(** What one pass does to the map when it does not throw. *)
Lemma addCopyDescriptor_resolved copyConfiguration folder file m m' :
  addCopyDescriptor copyConfiguration folder file m = Resolved m' ->
  let r := (copyConfiguration, folder, file) in
  (m' = m
   /\ exists existing,
        JsMap.get (requestDestination r) m = Some existing
        /\ ICopyDescriptor.sourcePath existing = file
        /\ ICopyDescriptor.hardlink existing
           = truthy (ICopyOperation.hardlink copyConfiguration))
  \/ (JsMap.get (requestDestination r) m = None
      /\ m' = m ++ [(requestDestination r, requestDescriptor r)]).
Proof.
  rewrite addCopyDescriptor_request. cbv zeta.
  destruct (JsMap.get _ m) as [existing|] eqn:E.
  - destruct (String.eqb _ file) eqn:Es; simpl; [|discriminate].
    destruct (Bool.eqb _ _) eqn:Eh; [|discriminate].
    intros H. inversion H; subst. left. split; [reflexivity|].
    exists existing. apply String.eqb_eq in Es. apply Bool.eqb_prop in Eh. auto.
  - intros H. inversion H; subst. right. auto.
Qed.

Lemma addCopyDescriptor_invariant copyConfiguration folder file m m' :
  addCopyDescriptor copyConfiguration folder file m = Resolved m' ->
  keyedByDestination m -> NoDup (JsMap.keys m) ->
  keyedByDestination m' /\ NoDup (JsMap.keys m')
  /\ JsMap.get (requestDestination (copyConfiguration, folder, file)) m'
     = Some (requestDescriptor (copyConfiguration, folder, file))
  /\ (forall key d, JsMap.get key m = Some d -> JsMap.get key m' = Some d)
  /\ (forall key d,
        JsMap.get key m' = Some d ->
        JsMap.get key m = Some d
        \/ (key = requestDestination (copyConfiguration, folder, file)
            /\ d = requestDescriptor (copyConfiguration, folder, file))).
Proof.
  intros Hadd Hk Hnd.
  apply addCopyDescriptor_resolved in Hadd
    as [(-> & existing & Hget & Hs & Hh)|(Hnone & ->)]; cbv zeta in *.
  - repeat split; auto.
    rewrite Hget. f_equal. apply descriptor_eq; simpl; auto.
    exact (keyedByDestination_get _ _ _ Hk Hget).
  - repeat split.
    + unfold keyedByDestination. apply Forall_app. split; [exact Hk|].
      constructor; [reflexivity | constructor].
    + unfold JsMap.keys. rewrite map_app. simpl.
      apply NoDup_app; [exact Hnd | repeat constructor; auto | ].
      intros k Hin [<-|[]]. now apply JsMap_get_None_keys in Hnone.
    + rewrite get_app_last, Hnone, String.eqb_refl. reflexivity.
    + intros key d Hget. rewrite get_app_last, Hget. reflexivity.
    + intros key d. rewrite get_app_last.
      destruct (JsMap.get key m); [auto|].
      destruct (String.eqb key _) eqn:E; [|discriminate].
      apply String.eqb_eq in E. intros H. inversion H. auto.
Qed.

Lemma addAll_invariant requests :
  forall m m',
    addAll requests m = Resolved m' ->
    keyedByDestination m -> NoDup (JsMap.keys m) ->
    keyedByDestination m' /\ NoDup (JsMap.keys m')
    /\ (forall r, In r requests ->
          JsMap.get (requestDestination r) m' = Some (requestDescriptor r))
    /\ (forall key d, JsMap.get key m = Some d -> JsMap.get key m' = Some d)
    /\ (forall key d,
          JsMap.get key m' = Some d ->
          JsMap.get key m = Some d
          \/ exists r, In r requests /\ key = requestDestination r
                       /\ d = requestDescriptor r).
Proof.
  induction requests as [|[[c folder] file] rest IH]; simpl; intros m m' Hadd Hk Hnd.
  - inversion Hadd; subst. repeat split; auto. intros r [].
  - destruct (addCopyDescriptor c folder file m) as [m1|e] eqn:E1; [|discriminate].
    destruct (addCopyDescriptor_invariant _ _ _ _ _ E1 Hk Hnd)
      as (Hk1 & Hnd1 & Hget1 & Hmono1 & Hsound1).
    destruct (IH _ _ Hadd Hk1 Hnd1) as (Hk' & Hnd' & Hall & Hmono & Hsound).
    repeat split; auto.
    + intros r [<-|Hin]; auto.
    + intros key d Hget. destruct (Hsound _ _ Hget) as [Hm1|(r & Hin & -> & ->)].
      * destruct (Hsound1 _ _ Hm1) as [Hm|[-> ->]]; [auto|].
        right. eexists. split; [left; reflexivity | auto].
      * right. exists r. auto.
Qed.

(** Passes whose descriptors are all in the map leave it as it is. *)
Lemma addAll_present requests m :
  (forall r, In r requests ->
     JsMap.get (requestDestination r) m = Some (requestDescriptor r)) ->
  addAll requests m = Resolved m.
Proof.
  induction requests as [|[[c folder] file] rest IH]; simpl; intros Hall; [reflexivity|].
  rewrite addCopyDescriptor_request, (Hall _ (or_introl eq_refl)). simpl.
  rewrite String.eqb_refl, Bool.eqb_reflx. simpl. apply IH. auto.
Qed.

(** Consistent passes never throw, whatever their order. *)
Lemma addAll_total requests :
  forall m,
    keyedByDestination m -> NoDup (JsMap.keys m) ->
    (forall r existing,
       In r requests -> JsMap.get (requestDestination r) m = Some existing ->
       existing = requestDescriptor r) ->
    consistent requests ->
    exists m', addAll requests m = Resolved m'.
Proof.
  induction requests as [|[[c folder] file] rest IH]; simpl; intros m Hk Hnd Hcompat Hcons.
  - eauto.
  - destruct (addCopyDescriptor c folder file m) as [m1|e] eqn:E1.
    + destruct (addCopyDescriptor_invariant _ _ _ _ _ E1 Hk Hnd)
        as (Hk1 & Hnd1 & _ & _ & Hsound1).
      apply IH; auto.
      * intros r existing Hin Hget.
        destruct (Hsound1 _ _ Hget) as [Hm|[Hdst ->]].
        -- apply (Hcompat r); auto.
        -- destruct (Hcons (c, folder, file) r (or_introl eq_refl) (or_intror Hin)
                       (eq_sym Hdst)) as [Hs Hh].
           apply descriptor_eq; auto.
           now rewrite !requestDescriptor_destination.
      * intros r1 r2 H1 H2. apply Hcons; now right.
    + exfalso. revert E1. rewrite addCopyDescriptor_request.
      destruct (JsMap.get _ m) as [existing|] eqn:Hget; [|discriminate].
      rewrite (Hcompat _ _ (or_introl eq_refl) Hget). simpl.
      rewrite String.eqb_refl, Bool.eqb_reflx. discriminate.
Qed.

Lemma addAll_consistent requests m :
  addAll requests [] = Resolved m -> consistent requests.
Proof.
  intros Hadd r1 r2 H1 H2 Hdst.
  destruct (addAll_invariant _ _ _ Hadd (Forall_nil _) (NoDup_nil _))
    as (_ & _ & Hall & _).
  pose proof (Hall _ H1) as G1. pose proof (Hall _ H2) as G2.
  rewrite Hdst, G2 in G1. injection G1 as <-. auto.
Qed.

Lemma In_declaredRequests files copyConfigurations c folder file :
  In (c, folder, file) (declaredRequests files copyConfigurations)
  <-> In c copyConfigurations
      /\ In folder (ICopyOperation.destinationFolders c)
      /\ exists sourceFiles,
           getFileSelectionSpecifierPaths files c = Some sourceFiles
           /\ In file sourceFiles.
Proof.
  unfold declaredRequests. rewrite in_flat_map. split.
  - intros (c0 & Hc0 & Hin).
    destruct (getFileSelectionSpecifierPaths files c0) as [sourceFiles|] eqn:Eg;
      [|contradiction].
    unfold requestsOf in Hin. apply in_flat_map in Hin as (folder0 & Hf & Hin).
    apply in_map_iff in Hin as (file0 & Heq & Hfile). inversion Heq; subst.
    repeat split; auto. eauto.
  - intros (Hc & Hf & sourceFiles & Eg & Hfile). exists c. split; [assumption|].
    rewrite Eg. unfold requestsOf. apply in_flat_map. exists folder.
    split; [assumption|]. apply in_map_iff. eauto.
Qed.

(** With every enumeration going through, the outcome of a resolution is
    that of its passes. *)
Lemma forEachCopyConfiguration_outcome copyConfigurations :
  forall m w o w' evs,
    (forall c, In c copyConfigurations ->
       getFileSelectionSpecifierPaths (fs w) c <> None) ->
    forEachCopyConfiguration copyConfigurations m w = (o, w', evs) ->
    addAll (declaredRequests (fs w) copyConfigurations) m = o.
Proof.
  induction copyConfigurations as [|c rest IH]; intros m w o w' evs Hglob.
  - simpl. unfold ret. intros H. now inversion H.
  - change (declaredRequests (fs w) (c :: rest))
      with ((match getFileSelectionSpecifierPaths (fs w) c with
             | Some sourceFiles => requestsOf c sourceFiles
             | None => []
             end) ++ declaredRequests (fs w) rest).
    simpl forEachCopyConfiguration.
    unfold bind at 1. unfold resolveCopyConfiguration, bind, liftOutcome,
      getFileSelectionSpecifierPathsAsync.
    rewrite addAll_app.
    destruct (getFileSelectionSpecifierPaths (fs w) c) as [sourceFiles|] eqn:Eg.
    + rewrite forEachDestinationFolder_addAll. fold (requestsOf c sourceFiles).
      destruct (addAll (requestsOf c sourceFiles) m) as [m1|e].
      * destruct (forEachCopyConfiguration rest m1 w) as [[o2 w2] evs2] eqn:Er.
        intros H. inversion H; subst.
        apply (IH _ _ _ _ _ (fun c0 Hin => Hglob c0 (or_intror Hin)) Er).
      * intros H. now inversion H.
    + exfalso. apply (Hglob c); [now left | assumption].
Qed.

(** Passes that throw: the error names a destination which a pass claims
    for another source or another hardlink flag than an entry already
    there. *)
Lemma addAll_rejected (all : list CopyRequest) requests :
  forall m e,
    addAll requests m = Rejected e ->
    keyedByDestination m -> NoDup (JsMap.keys m) ->
    (forall r, In r requests -> In r all) ->
    (forall key d, JsMap.get key m = Some d ->
       exists r0, In r0 all /\ requestDestination r0 = key /\ d = requestDescriptor r0) ->
    exists r0 r,
      In r0 all /\ In r all
      /\ requestDestination r0 = requestDestination r
      /\ e = Error (conflictMessage (requestDestination r))
      /\ (ICopyDescriptor.sourcePath (requestDescriptor r0)
            <> ICopyDescriptor.sourcePath (requestDescriptor r)
          \/ ICopyDescriptor.hardlink (requestDescriptor r0)
               <> ICopyDescriptor.hardlink (requestDescriptor r)).
Proof.
  induction requests as [|[[c folder] file] rest IH]; simpl; intros m e Hadd Hk Hnd Hincl Hfrom.
  - discriminate.
  - destruct (addCopyDescriptor c folder file m) as [m1|e1] eqn:E1.
    + destruct (addCopyDescriptor_invariant _ _ _ _ _ E1 Hk Hnd)
        as (Hk1 & Hnd1 & _ & _ & Hsound1).
      apply (IH m1 e Hadd Hk1 Hnd1); [auto|].
      intros key d Hget. destruct (Hsound1 _ _ Hget) as [Hm|[-> ->]]; [auto|].
      exists (c, folder, file). auto.
    + inversion Hadd; subst e1. clear Hadd.
      rewrite addCopyDescriptor_request in E1.
      destruct (JsMap.get _ m) as [existing|] eqn:Hget; [|discriminate].
      destruct (Hfrom _ _ Hget) as (r0 & Hr0 & Hdst & ->).
      exists r0, (c, folder, file). split; [exact Hr0|]. split; [auto|].
      split; [exact Hdst|].
      destruct (String.eqb _ file) eqn:Es; simpl in E1.
      * destruct (Bool.eqb _ _) eqn:Eh; [discriminate|].
        inversion E1. split; [reflexivity|]. right.
        now apply Bool.eqb_false_iff in Eh.
      * inversion E1. split; [reflexivity|]. left.
        now apply String.eqb_neq in Es.
Qed.

End DescriptorMapFacts.

(** ** The summary line *)

Lemma append_inv_head (s a b : string) : (s ++ a)%string = (s ++ b)%string -> a = b.
Proof. induction s as [|c s' IH]; simpl; intros H; [exact H|]. injection H as H. auto. Qed.

(** A number in decimal holds no space: what follows it is told apart. *)
Lemma digits_then_space (u u' : Decimal.uint) (rest rest' : string) :
  (NilEmpty.string_of_uint u ++ String " " rest)%string
  = (NilEmpty.string_of_uint u' ++ String " " rest')%string ->
  u = u' /\ rest = rest'.
Proof.
  revert u'. induction u as [|u IHu|u IHu|u IHu|u IHu|u IHu|u IHu|u IHu|u IHu|u IHu|u IHu];
    destruct u'; simpl; intros H; try discriminate;
    try (injection H as H; apply IHu in H as [-> ->]; split; reflexivity).
  injection H as ->. split; reflexivity.
Qed.

Lemma summaryLine_text (copiedFileCount linkedFileCount : nat) :
  summaryLine copiedFileCount linkedFileCount
  = ("Copied " ++ NilEmpty.string_of_uint (Nat.to_uint copiedFileCount) ++ " file"
     ++ (if Nat.eqb copiedFileCount 1 then EmptyString else "s") ++ " and linked "
     ++ NilEmpty.string_of_uint (Nat.to_uint linkedFileCount) ++ " file"
     ++ (if Nat.eqb linkedFileCount 1 then EmptyString else "s"))%string.
Proof. reflexivity. Qed.

(** The line tells the two counts. *)
Lemma summaryLine_injective (c l c' l' : nat) :
  summaryLine c l = summaryLine c' l' -> c = c' /\ l = l'.
Proof.
  rewrite !summaryLine_text. intros H.
  apply (append_inv_head "Copied ") in H.
  apply (digits_then_space (Nat.to_uint c) (Nat.to_uint c')) in H as [Hc H].
  assert (Ec : c = c').
  { rewrite <- (DecimalNat.Unsigned.of_to c), <- (DecimalNat.Unsigned.of_to c').
    now rewrite Hc. }
  subst c'. split; [reflexivity|].
  apply (append_inv_head "file") in H.
  apply append_inv_head in H.
  apply (append_inv_head " and linked ") in H.
  apply (digits_then_space (Nat.to_uint l) (Nat.to_uint l')) in H as [Hl _].
  rewrite <- (DecimalNat.Unsigned.of_to l), <- (DecimalNat.Unsigned.of_to l').
  now rewrite Hl.
Qed.

(** ** The claims *)

Section Claims.
Context {host : Host}.

(** C1. A resolved descriptor is left out of the transfer set exactly when
    a prior build info exists at the build-info path, its [configHash] is
    the run's, and the hash it records for the descriptor's source path is
    the hash just computed from that source's content; in every other case
    the descriptor is in the transfer set. *)
Theorem C1_excluded_iff_prior_hash_matches
    (copyDescriptors : JsMap.t ICopyDescriptor.t) (configHash buildInfoPath : string)
    (w w' : World) (buildInfo : IIncrementalBuildInfo.t)
    (work : list ICopyDescriptor.t) (evs : list Event) :
  findCopyDescriptorsWithWork copyDescriptors configHash buildInfoPath w
    = (Resolved (buildInfo, work), w', evs) ->
  forall d, In d (JsMap.values copyDescriptors) ->
    let upToDate :=
      exists prior content,
        JsMap.get buildInfoPath (buildInfoFiles w) = Some prior
        /\ IIncrementalBuildInfo.configHash prior = configHash
        /\ readFileToBuffer (fs w) (ICopyDescriptor.sourcePath d) = Some content
        /\ JsMap.get (ICopyDescriptor.sourcePath d)
             (IIncrementalBuildInfo.inputFileVersions prior)
           = Some (sha256_base64 content) in
    (~ In d work <-> upToDate) /\ (In d work <-> ~ upToDate).
Proof.
  rewrite findCopyDescriptorsWithWork_eq. cbv zeta.
  destruct (hashInputFiles _ _ w) as [[[versions|e] w1] evsh] eqn:Eh; [|discriminate].
  destruct (selectDescriptorsWithWork _ _ versions []) as [work0|e] eqn:Es; [|discriminate].
  intros H d Hd. inversion H; subst; clear H.
  apply selectDescriptorsWithWork_resolved in Es as [-> _]. simpl app.
  assert (Hsrc : In (ICopyDescriptor.sourcePath d) (allInputFiles copyDescriptors)).
  { apply allInputFiles_In. now apply in_map. }
  destruct (proj1 (hashInputFiles_resolved _ _ _ _ _ _ Eh _) Hsrc) as (c & Hread & Hver).
  assert (Hiff : hasWork (keptBuildInfo configHash
                            (JsMap.get buildInfoPath (buildInfoFiles w))) versions d = false
                 <-> exists prior content,
                       JsMap.get buildInfoPath (buildInfoFiles w) = Some prior
                       /\ IIncrementalBuildInfo.configHash prior = configHash
                       /\ readFileToBuffer (fs w) (ICopyDescriptor.sourcePath d) = Some content
                       /\ JsMap.get (ICopyDescriptor.sourcePath d)
                            (IIncrementalBuildInfo.inputFileVersions prior)
                          = Some (sha256_base64 content)).
  { unfold hasWork, keptBuildInfo. rewrite Hver, Bool.negb_false_iff. split.
    - destruct (JsMap.get buildInfoPath (buildInfoFiles w)) as [prior|]; [|discriminate].
      destruct (String.eqb (IIncrementalBuildInfo.configHash prior) configHash) eqn:Ec;
        [|discriminate].
      destruct (JsMap.get _ (IIncrementalBuildInfo.inputFileVersions prior)) as [h|] eqn:Eo;
        [|discriminate].
      simpl. intros Heq. apply String.eqb_eq in Heq, Ec. subst h.
      exists prior, c. auto.
    - intros (prior & c' & -> & <- & Hread' & Hold).
      rewrite String.eqb_refl, Hold. simpl.
      rewrite Hread in Hread'. injection Hread' as <-. apply String.eqb_refl. }
  cbv zeta. rewrite filter_In, <- Hiff.
  destruct (hasWork _ versions d); split; split; intuition congruence.
Qed.

(** C2. Re-inserting a destination that already maps to a descriptor with
    the same source path and the same hardlink flag changes nothing and
    raises nothing; if the source path or the hardlink flag differs the
    insertion throws the conflict error naming the destination.  For a run:
    when every enumeration goes through and two declared copies claim one
    destination for different sources or different hardlink flags, then in
    whatever order the operations are taken the run rejects with the
    conflict error naming a destination so claimed, the world is as it was
    and every call made is an enumeration of source files: no file is read,
    transferred or written.  A resolution that rejects ends the run with
    its error before any such call. *)
Theorem C2_duplicate_destination_noop_or_conflict
    (copyConfiguration : ICopyOperation.t) (destinationFolderPath sourceFilePath : string)
    (copyDescriptorByDestination : JsMap.t ICopyDescriptor.t)
    (existing : ICopyDescriptor.t) :
  let destination :=
    resolvedDestinationPath copyConfiguration destinationFolderPath sourceFilePath in
  JsMap.get destination copyDescriptorByDestination = Some existing ->
  (ICopyDescriptor.sourcePath existing = sourceFilePath
   /\ ICopyDescriptor.hardlink existing = truthy (ICopyOperation.hardlink copyConfiguration) ->
   addCopyDescriptor copyConfiguration destinationFolderPath sourceFilePath
     copyDescriptorByDestination
   = Resolved copyDescriptorByDestination)
  /\ (ICopyDescriptor.sourcePath existing <> sourceFilePath
      \/ ICopyDescriptor.hardlink existing <> truthy (ICopyOperation.hardlink copyConfiguration) ->
      addCopyDescriptor copyConfiguration destinationFolderPath sourceFilePath
        copyDescriptorByDestination
      = Rejected (Error ("Cannot copy multiple files to the same destination "
                         ++ dquote ++ destination ++ dquote ++ ".")))
  /\ (forall copyOperations taken buildInfoPath w
             c1 folder1 file1 files1 c2 folder2 file2 files2,
        Permutation copyOperations taken ->
        (forall c, In c copyOperations ->
           getFileSelectionSpecifierPaths (fs w) c <> None) ->
        In c1 copyOperations -> In c2 copyOperations ->
        getFileSelectionSpecifierPaths (fs w) c1 = Some files1 ->
        getFileSelectionSpecifierPaths (fs w) c2 = Some files2 ->
        In folder1 (ICopyOperation.destinationFolders c1) -> In file1 files1 ->
        In folder2 (ICopyOperation.destinationFolders c2) -> In file2 files2 ->
        resolvedDestinationPath c1 folder1 file1 = resolvedDestinationPath c2 folder2 file2 ->
        file1 <> file2
        \/ truthy (ICopyOperation.hardlink c1) <> truthy (ICopyOperation.hardlink c2) ->
        exists contested evs,
          copyFilesAsync taken buildInfoPath w
          = (Rejected (Error ("Cannot copy multiple files to the same destination "
                              ++ dquote ++ contested ++ dquote ++ ".")), w, evs)
          /\ forallb isGlob evs = true
          /\ exists a folderA fileA filesA b folderB fileB filesB,
               In a copyOperations /\ In b copyOperations
               /\ getFileSelectionSpecifierPaths (fs w) a = Some filesA
               /\ getFileSelectionSpecifierPaths (fs w) b = Some filesB
               /\ In folderA (ICopyOperation.destinationFolders a) /\ In fileA filesA
               /\ In folderB (ICopyOperation.destinationFolders b) /\ In fileB filesB
               /\ resolvedDestinationPath a folderA fileA = contested
               /\ resolvedDestinationPath b folderB fileB = contested
               /\ (fileA <> fileB
                   \/ truthy (ICopyOperation.hardlink a)
                      <> truthy (ICopyOperation.hardlink b)))
  /\ (forall copyOperations buildInfoPath w e w1 evs,
        _getCopyDescriptorsAsync copyOperations w = (Rejected e, w1, evs) ->
        copyFilesAsync copyOperations buildInfoPath w = (Rejected e, w, evs)
        /\ existsb isAfterResolution evs = false).
Proof.
  intros destination Hget.
  assert (Hstep : forall b,
    (String.eqb (ICopyDescriptor.sourcePath existing) sourceFilePath
     && Bool.eqb (ICopyDescriptor.hardlink existing)
          (truthy (ICopyOperation.hardlink copyConfiguration))) = b ->
    addCopyDescriptor copyConfiguration destinationFolderPath sourceFilePath
      copyDescriptorByDestination
    = if b then Resolved copyDescriptorByDestination
      else Rejected (Error (conflictMessage destination))).
  { intros b <-. unfold addCopyDescriptor. fold destination. now rewrite Hget. }
  split; [|split; [|split]].
  - intros [Hs Hh]. rewrite (Hstep true); [reflexivity|].
    apply andb_true_iff. split; [now apply String.eqb_eq | now apply Bool.eqb_true_iff].
  - intros Hdiff. rewrite (Hstep false); [reflexivity|]. apply andb_false_iff.
    destruct Hdiff as [Hs|Hh]; [left; now apply String.eqb_neq|].
    right. now apply Bool.eqb_false_iff.
  - intros copyOperations taken buildInfoPath w c1 folder1 file1 files1
           c2 folder2 file2 files2 Hperm Hglob Hc1 Hc2 G1 G2 F1 S1 F2 S2 Hdst Hdiff.
    assert (Hglob' : forall c, In c taken ->
                       getFileSelectionSpecifierPaths (fs w) c <> None).
    { intros c Hc. apply Hglob. exact (Permutation_in _ (Permutation_sym Hperm) Hc). }
    assert (Hreq : forall c folder file,
              In (c, folder, file) (declaredRequests (fs w) taken)
              <-> In c copyOperations
                  /\ In folder (ICopyOperation.destinationFolders c)
                  /\ exists sourceFiles,
                       getFileSelectionSpecifierPaths (fs w) c = Some sourceFiles
                       /\ In file sourceFiles).
    { intros c folder file. rewrite In_declaredRequests.
      split; intros (Hc & Hrest); (split; [|exact Hrest]).
      - exact (Permutation_in _ (Permutation_sym Hperm) Hc).
      - exact (Permutation_in _ Hperm Hc). }
    destruct (_getCopyDescriptorsAsync taken w) as [[o w1] evs] eqn:Hres.
    destruct (getCopyDescriptorsAsync_run _ _ _ _ _ Hres) as [-> Hg].
    pose proof (forEachCopyConfiguration_outcome _ _ _ _ _ _ Hglob' Hres) as Hadd.
    destruct o as [m|e].
    + exfalso.
      destruct (addAll_consistent _ _ Hadd (c1, folder1, file1) (c2, folder2, file2))
        as [Hs Hh]; [apply Hreq; eauto | apply Hreq; eauto | exact Hdst |].
      simpl in Hs, Hh. destruct Hdiff; contradiction.
    + destruct (addAll_rejected (declaredRequests (fs w) taken) _ _ _ Hadd
                  (Forall_nil _) (NoDup_nil _))
        as ([[a folderA] fileA] & [[b folderB] fileB] & Ha & Hb & Hsame & -> & Hdiffers);
        [auto | intros key d Hbad; discriminate |].
      apply Hreq in Ha as (Ha & HfA & filesA & GA & SA).
      apply Hreq in Hb as (Hb & HfB & filesB & GB & SB).
      exists (resolvedDestinationPath b folderB fileB), evs.
      split; [rewrite copyFilesAsync_eq, Hres; reflexivity|].
      split; [exact Hg|].
      exists a, folderA, fileA, filesA, b, folderB, fileB, filesB.
      repeat split; auto.
  - intros copyOperations buildInfoPath w e w1 evs Hres.
    destruct (getCopyDescriptorsAsync_run _ _ _ _ _ Hres) as [-> Hglob].
    rewrite copyFilesAsync_eq, Hres. split; [reflexivity|].
    now apply forallb_isGlob_quiet.
Qed.



(** C6. A run that rejects, at whichever step, leaves every build-info
    file as it found it and has made no build-info write; a build-info
    write happens only in a run whose transfer loop has resolved, and it
    is that run's last call. *)
Theorem C6_failed_run_leaves_build_info
    (copyOperations : list ICopyOperation.t) (buildInfoPath : string)
    (w w' : World) (o : Outcome unit) (evs : list Event) :
  copyFilesAsync copyOperations buildInfoPath w = (o, w', evs) ->
  (forall e, o = Rejected e ->
     buildInfoFiles w' = buildInfoFiles w /\ existsb isBuildInfoWrite evs = false)
  /\ (existsb isBuildInfoWrite evs = true ->
      o = Resolved tt
      /\ exists copyDescriptors buildInfo work counts wT evsR evsD evsT,
           _getCopyDescriptorsAsync copyOperations w = (Resolved copyDescriptors, w, evsR)
           /\ findCopyDescriptorsWithWork copyDescriptors (computeConfigHash copyOperations)
                buildInfoPath w = (Resolved (buildInfo, work), w, evsD)
           /\ forEachCopyDescriptorWithWork work (0, 0) w = (Resolved counts, wT, evsT)
           /\ length (filter isTransfer evsT) = length work
           /\ evs = (evsR ++ evsD ++ evsT
                       ++ [EWriteLine (summaryLine (fst counts) (snd counts))])
                    ++ [EWriteBuildInfo buildInfo buildInfoPath]
           /\ existsb isBuildInfoWrite
                (evsR ++ evsD ++ evsT
                   ++ [EWriteLine (summaryLine (fst counts) (snd counts))]) = false).
Proof.
  intros Hrun.
  apply copyFilesAsync_cases in Hrun
    as (evsR & [(e & HR & -> & -> & ->)
               |(descs & HR & [(Hsize & -> & -> & ->)
                              |(Hsize & evsD & [(e & HD & -> & -> & ->)
                                               |(bi & work & HD & [(-> & -> & -> & ->)
                                |(Hwork & wT & evsT & [(e & HT & -> & -> & ->)
                                                      |(counts & HT & -> & -> & ->)])])])])]);
    destruct (getCopyDescriptorsAsync_run _ _ _ _ _ HR) as [_ HgR];
    destruct (forallb_isGlob_quiet _ HgR) as (HqR & _);
    destruct (isWrite_false_parts _ HqR) as (HbR & _);
    try (destruct (findCopyDescriptorsWithWork_quiet _ _ _ _ _ _ _ HD) as (_ & HqD & _);
         destruct (isWrite_false_parts _ HqD) as (HbD & _));
    try (destruct (forEachCopyDescriptorWithWork_run _ _ _ _ _ _ _ HT)
           as (HfT & HbT & _ & _ & HcT)).
  1-5: split; [intros e0 He0; try discriminate; split; auto;
               rewrite ?existsb_app, ?HbR, ?HbD, ?HbT; reflexivity
              |rewrite ?existsb_app, ?HbR, ?HbD, ?HbT; simpl; discriminate].
  split; [intros e0 He0; discriminate|]. intros _. split; [reflexivity|].
  exists descs, bi, work, counts, wT, evsR, evsD, evsT.
  repeat split; auto.
  - destruct counts as [copied linked].
    destruct (HcT _ eq_refl) as (Hc & Hn1 & Hn2). clear - Hn1 Hn2.
    assert (Hsplit : forall l, length (filter isTransfer l)
                               = length (filter isCopy l) + length (filter isLink l)).
    { induction l as [|ev l IH]; simpl; [reflexivity|]. destruct ev; simpl; lia. }
    rewrite Hsplit, Hn1, Hn2. clear.
    induction work as [|d rest IH]; simpl; [reflexivity|].
    destruct (ICopyDescriptor.hardlink d); simpl; lia.
  - now rewrite <- !app_assoc.
  - rewrite !existsb_app, HbR, HbD, HbT. reflexivity.
Qed.

(** C7, as amended. A run that resolves with a non-empty transfer set
    writes, as its last call, the new build info: the run's configuration
    hash with the hash of the content of every distinct source path of
    this run and of no other path; it replaces whatever the build-info
    path held.  A run that resolves with an empty transfer set, or with no
    descriptor, writes nothing and leaves the build-info files as they
    were. *)
Theorem C7_build_info_written_when_work_was_done
    (copyOperations : list ICopyOperation.t) (buildInfoPath : string)
    (w w' : World) (evs evsR : list Event)
    (copyDescriptors : JsMap.t ICopyDescriptor.t) :
  copyFilesAsync copyOperations buildInfoPath w = (Resolved tt, w', evs) ->
  _getCopyDescriptorsAsync copyOperations w = (Resolved copyDescriptors, w, evsR) ->
  (JsMap.size copyDescriptors = 0 ->
     buildInfoFiles w' = buildInfoFiles w /\ existsb isBuildInfoWrite evs = false)
  /\ forall buildInfo work evsD,
       findCopyDescriptorsWithWork copyDescriptors (computeConfigHash copyOperations)
         buildInfoPath w = (Resolved (buildInfo, work), w, evsD) ->
       (work = [] ->
          buildInfoFiles w' = buildInfoFiles w /\ existsb isBuildInfoWrite evs = false)
       /\ (work <> [] ->
           (exists before, evs = before ++ [EWriteBuildInfo buildInfo buildInfoPath])
           /\ JsMap.get buildInfoPath (buildInfoFiles w') = Some buildInfo
           /\ buildInfoFiles w' = JsMap.set buildInfoPath buildInfo (buildInfoFiles w)
           /\ IIncrementalBuildInfo.configHash buildInfo = computeConfigHash copyOperations
           /\ forall p,
                (In p (map ICopyDescriptor.sourcePath (JsMap.values copyDescriptors)) ->
                   exists content,
                     readFileToBuffer (fs w) p = Some content
                     /\ JsMap.get p (IIncrementalBuildInfo.inputFileVersions buildInfo)
                        = Some (sha256_base64 content))
                /\ (~ In p (map ICopyDescriptor.sourcePath (JsMap.values copyDescriptors)) ->
                    JsMap.get p (IIncrementalBuildInfo.inputFileVersions buildInfo) = None)).
Proof.
  intros Hrun Hres.
  apply copyFilesAsync_cases in Hrun
    as (evsR' & [(e & HR & He & _)
                |(descs & HR & [(Hsize & _ & -> & ->)
                               |(Hsize & evsD' & [(e & HD & He & _)
                                                 |(bi & work' & HD & [(-> & _ & -> & ->)
                                 |(Hwork & wT & evsT & [(e & HT & He & _)
                                                       |(counts & HT & _ & -> & ->)])])])])]);
    try discriminate;
    rewrite Hres in HR; inversion HR; subst descs evsR';
    destruct (getCopyDescriptorsAsync_run _ _ _ _ _ Hres) as [_ HgR];
    destruct (forallb_isGlob_quiet _ HgR) as (HqR & _);
    destruct (isWrite_false_parts _ HqR) as (HbR & _);
    try (destruct (findCopyDescriptorsWithWork_quiet _ _ _ _ _ _ _ HD) as (_ & HqD & _);
         destruct (isWrite_false_parts _ HqD) as (HbD & _));
    try (destruct (forEachCopyDescriptorWithWork_run _ _ _ _ _ _ _ HT)
           as (HfT & HbT & _)).
  - split; [auto|]. intros buildInfo work evsD Hfind. split; [auto|].
    intros Hne. exfalso.
    exact (findCopyDescriptorsWithWork_work _ _ _ _ _ _ _ _ Hfind Hne Hsize).
  - split; [intros; contradiction|]. intros buildInfo work evsD Hfind.
    rewrite Hfind in HD. inversion HD; subst. split; [|intros; congruence].
    intros _. split; [reflexivity|]. rewrite !existsb_app, HbR, HbD. reflexivity.
  - split; [intros; contradiction|]. intros buildInfo work evsD Hfind.
    rewrite Hfind in HD. inversion HD; subst. split; [intros; contradiction|].
    intros _. simpl. rewrite HfT. repeat split.
    + exists (evsR ++ evsD' ++ evsT ++ [EWriteLine (summaryLine (fst counts) (snd counts))]).
      now rewrite <- !app_assoc.
    + apply JsMap_get_set_same.
    + eapply findCopyDescriptorsWithWork_configHash; eauto.
    + revert Hfind. rewrite findCopyDescriptorsWithWork_eq. cbv zeta.
      destruct (hashInputFiles _ _ w) as [[[versions|e] w1] evsh] eqn:Eh; [|discriminate].
      destruct (selectDescriptorsWithWork _ _ versions []); [|discriminate].
      intros Hfind Hp. inversion Hfind; subst. simpl.
      apply allInputFiles_In in Hp.
      exact (proj1 (hashInputFiles_resolved _ _ _ _ _ _ Eh p) Hp).
    + revert Hfind. rewrite findCopyDescriptorsWithWork_eq. cbv zeta.
      destruct (hashInputFiles _ _ w) as [[[versions|e] w1] evsh] eqn:Eh; [|discriminate].
      destruct (selectDescriptorsWithWork _ _ versions []); [|discriminate].
      intros Hfind Hp. inversion Hfind; subst. simpl.
      rewrite <- allInputFiles_In in Hp.
      exact (proj2 (hashInputFiles_resolved _ _ _ _ _ _ Eh p) Hp).
Qed.

(** C8. When the transfer phase resolves, the copied count is the number
    of descriptors with work whose hardlink flag is false, the linked
    count the number whose flag is true, as many copy and hard-link calls
    were made, and the one line printed is "Copied <c> file(s) and linked
    <l> file(s)" with the two counts in decimal and "file" for a count of
    one; the line is that of no other pair of counts.  Two copies and no
    link print "Copied 2 files and linked 0 files". *)
Theorem C8_summary_counts
    (copyDescriptors : JsMap.t ICopyDescriptor.t) (configHash buildInfoPath : string)
    (w w1 w' : World) (buildInfo : IIncrementalBuildInfo.t)
    (work : list ICopyDescriptor.t) (evsD evs : list Event) :
  findCopyDescriptorsWithWork copyDescriptors configHash buildInfoPath w
    = (Resolved (buildInfo, work), w1, evsD) ->
  work <> [] ->
  _copyFilesInnerAsync copyDescriptors configHash buildInfoPath w = (Resolved tt, w', evs) ->
  let copiedFileCount := length (filter (fun d => negb (ICopyDescriptor.hardlink d)) work) in
  let linkedFileCount := length (filter ICopyDescriptor.hardlink work) in
  (exists wT evsT,
      forEachCopyDescriptorWithWork work (0, 0) w1
      = (Resolved (copiedFileCount, linkedFileCount), wT, evsT))
  /\ terminalLines evs
     = [("Copied " ++ NilEmpty.string_of_uint (Nat.to_uint copiedFileCount) ++ " file"
         ++ (if Nat.eqb copiedFileCount 1 then EmptyString else "s") ++ " and linked "
         ++ NilEmpty.string_of_uint (Nat.to_uint linkedFileCount) ++ " file"
         ++ (if Nat.eqb linkedFileCount 1 then EmptyString else "s"))%string]
  /\ (forall c l, terminalLines evs = [summaryLine c l] ->
        c = copiedFileCount /\ l = linkedFileCount)
  /\ length (filter isCopy evs) = copiedFileCount
  /\ length (filter isLink evs) = linkedFileCount
  /\ summaryLine 2 0 = "Copied 2 files and linked 0 files"
  /\ summaryLine 1 1 = "Copied 1 file and linked 1 file"
  /\ summaryLine 0 12 = "Copied 0 files and linked 12 files".
Proof.
  intros Hfind Hwork. rewrite copyFilesInnerAsync_eq, Hfind.
  pose proof (findCopyDescriptorsWithWork_work _ _ _ _ _ _ _ _ Hfind Hwork) as Hsize.
  apply Nat.eqb_neq in Hsize. rewrite Hsize.
  destruct (Nat.eqb (length work) 0) eqn:Elen.
  { apply Nat.eqb_eq in Elen. destruct work; [contradiction | discriminate]. }
  destruct (findCopyDescriptorsWithWork_quiet _ _ _ _ _ _ _ Hfind) as (-> & HqD & HtD & _).
  destruct (isWrite_false_parts _ HqD) as (_ & _ & HcD & HlD).
  destruct (forEachCopyDescriptorWithWork work (0, 0) w) as [[[counts|e] wT] evsT] eqn:ET;
    [|discriminate].
  destruct (forEachCopyDescriptorWithWork_run _ _ _ _ _ _ _ ET) as (_ & _ & HtT & _ & HcT).
  destruct (HcT _ eq_refl) as (-> & Hn1 & Hn2). simpl fst. simpl snd.
  intros Hrun. inversion Hrun; subst. cbv zeta.
  set (copied := length (filter (fun d => negb (ICopyDescriptor.hardlink d)) work)) in *.
  set (linked := length (filter ICopyDescriptor.hardlink work)) in *.
  assert (Hline : terminalLines (evsD ++ evsT
                                 ++ [EWriteLine (summaryLine copied linked);
                                     EWriteBuildInfo buildInfo buildInfoPath])
                  = [summaryLine copied linked]).
  { now rewrite !terminalLines_app, HtD, HtT. }
  split; [now exists wT, evsT|].
  split; [rewrite Hline; now rewrite summaryLine_text|].
  split.
  { intros c l Hcl. rewrite Hline in Hcl.
    pose proof (f_equal (hd EmptyString) Hcl) as Heq.
    change (summaryLine copied linked = summaryLine c l) in Heq.
    apply summaryLine_injective in Heq as [-> ->]. split; reflexivity. }
  split; [rewrite !filter_app, HcD, !length_app; simpl; lia|].
  split; [rewrite !filter_app, HlD, !length_app; simpl; lia|].
  repeat split.
Qed.

(** C9. With no descriptor the run returns at once: nothing is read,
    hashed, written or printed, and the world is as before, whether or not
    a build info exists.  With descriptors but nothing to transfer the
    prior build info is read and the up-to-date line is printed. *)
Theorem C9_no_descriptor_returns_at_once
    (copyDescriptors : JsMap.t ICopyDescriptor.t) (configHash buildInfoPath : string)
    (w : World) :
  (JsMap.size copyDescriptors = 0 ->
     _copyFilesInnerAsync copyDescriptors configHash buildInfoPath w = (Resolved tt, w, [])
     /\ forall copyOperations evsR,
          _getCopyDescriptorsAsync copyOperations w
            = (Resolved copyDescriptors, w, evsR) ->
          copyFilesAsync copyOperations buildInfoPath w = (Resolved tt, w, evsR)
          /\ existsb isAfterResolution evsR = false)
  /\ (JsMap.size copyDescriptors <> 0 ->
      forall buildInfo w1 evsD,
        findCopyDescriptorsWithWork copyDescriptors configHash buildInfoPath w
          = (Resolved (buildInfo, []), w1, evsD) ->
        _copyFilesInnerAsync copyDescriptors configHash buildInfoPath w
          = (Resolved tt, w, evsD ++ [EWriteLine upToDateLine])
        /\ hd_error evsD = Some (EReadBuildInfo buildInfoPath)
        /\ terminalLines (evsD ++ [EWriteLine upToDateLine]) = [upToDateLine]).
Proof.
  split.
  - intros Hsize.
    assert (Hinner : forall h,
              _copyFilesInnerAsync copyDescriptors h buildInfoPath w = (Resolved tt, w, [])).
    { intros h. rewrite copyFilesInnerAsync_eq, Hsize. reflexivity. }
    split; [apply Hinner|]. intros copyOperations evsR Hres.
    rewrite copyFilesAsync_eq, Hres, Hinner, app_nil_r. split; [reflexivity|].
    destruct (getCopyDescriptorsAsync_run _ _ _ _ _ Hres) as [_ HgR].
    now apply forallb_isGlob_quiet.
  - intros Hsize buildInfo w1 evsD Hfind.
    destruct (findCopyDescriptorsWithWork_quiet _ _ _ _ _ _ _ Hfind) as (-> & _ & HtD & _).
    rewrite copyFilesInnerAsync_eq, Hfind. apply Nat.eqb_neq in Hsize. rewrite Hsize.
    simpl. repeat split.
    + revert Hfind. rewrite findCopyDescriptorsWithWork_eq. cbv zeta.
      destruct (hashInputFiles _ _ w) as [[[versions|e] wh] evsh]; [|discriminate].
      destruct (selectDescriptorsWithWork _ _ versions []); [|discriminate].
      intros Hfind. inversion Hfind. reflexivity.
    + now rewrite terminalLines_app, HtD.
Qed.

(** C10. An operation that omits [hardlink] yields descriptors whose
    hardlink flag is false; such a descriptor is transferred by a copy
    call, never by a hard-link call; and declaring a destination once
    with [hardlink: false] and once with the flag omitted, from the same
    source, in either order, is a re-declaration that leaves the map as it
    is and raises nothing. *)
Theorem C10_omitted_hardlink_is_false
    (copyConfiguration : ICopyOperation.t) (destinationFolderPath sourceFilePath : string) :
  ICopyOperation.hardlink copyConfiguration = None ->
  let destination :=
    resolvedDestinationPath copyConfiguration destinationFolderPath sourceFilePath in
  (forall m,
      JsMap.get destination m = None ->
      exists d,
        addCopyDescriptor copyConfiguration destinationFolderPath sourceFilePath m
        = Resolved (JsMap.set destination d m)
        /\ ICopyDescriptor.sourcePath d = sourceFilePath
        /\ ICopyDescriptor.destinationPath d = destination
        /\ ICopyDescriptor.hardlink d = false)
  /\ (forall d copied linked w o w' evs,
        ICopyDescriptor.hardlink d = false ->
        transferOne d (copied, linked) w = (o, w', evs) ->
        filter isTransfer evs
        = [ECopyFiles (ICopyDescriptor.sourcePath d) (ICopyDescriptor.destinationPath d)])
  /\ (forall explicitFalse folder' m m1,
        ICopyOperation.hardlink explicitFalse = Some false ->
        resolvedDestinationPath explicitFalse folder' sourceFilePath = destination ->
        (JsMap.get destination m = None ->
         addCopyDescriptor explicitFalse folder' sourceFilePath m = Resolved m1 ->
         addCopyDescriptor copyConfiguration destinationFolderPath sourceFilePath m1
         = Resolved m1)
        /\ (JsMap.get destination m = None ->
            addCopyDescriptor copyConfiguration destinationFolderPath sourceFilePath m
            = Resolved m1 ->
            addCopyDescriptor explicitFalse folder' sourceFilePath m1 = Resolved m1)).
Proof.
  intros Hnone destination. split; [|split].
  - intros m Hget. unfold addCopyDescriptor. fold destination. rewrite Hget, Hnone.
    eexists. split; [reflexivity|]. simpl. auto.
  - intros d copied linked w o w' evs Hd Hrun.
    apply transferOne_run in Hrun as (_ & _ & _ & _ & Hf & _). now rewrite Hd in Hf.
  - intros explicitFalse folder' m m1 Hfalse Hsame. split; intros Hget Hadd.
    + revert Hadd. unfold addCopyDescriptor. rewrite Hsame. fold destination.
      rewrite Hget, Hfalse, Hnone. intros Hadd. inversion Hadd; subst m1.
      rewrite JsMap_get_set_same. simpl. now rewrite String.eqb_refl.
    + revert Hadd. unfold addCopyDescriptor. rewrite Hsame. fold destination.
      rewrite Hget, Hfalse, Hnone. intros Hadd. inversion Hadd; subst m1.
      rewrite JsMap_get_set_same. simpl. now rewrite String.eqb_refl.
Qed.

End Claims.

(** ** POSIX paths made of plain names *)

Section PosixFacts.
Import PosixPath.

Lemma split_not_nil (s : string) : split s <> [].
Proof.
  destruct s as [|c rest]; simpl; [discriminate|].
  destruct (Ascii.eqb c slash); [discriminate|].
  destruct (split rest); discriminate.
Qed.

Lemma split_app_slash (x y : string) :
  split (x ++ String slash y) = split x ++ split y.
Proof.
  induction x as [|c x IH]; simpl.
  - reflexivity.
  - destruct (Ascii.eqb c slash); rewrite IH; [reflexivity|].
    pose proof (split_not_nil x) as Hne.
    destruct (split x); [contradiction | reflexivity].
Qed.

Lemma split_plain (s : string) : containsSlash s = false -> split s = [s].
Proof.
  induction s as [|c s IH]; simpl; [reflexivity|].
  intros H. apply orb_false_iff in H as [Hc Hs]. rewrite Hc, (IH Hs). reflexivity.
Qed.

Lemma isName_inv (s : string) :
  isName s = true ->
  containsSlash s = false /\ String.eqb s EmptyString = false
  /\ String.eqb s "." = false /\ String.eqb s ".." = false.
Proof.
  unfold isName. rewrite !andb_true_iff, !negb_true_iff. tauto.
Qed.

Lemma isName_head (s : string) :
  isName s = true -> exists c tail, s = String c tail /\ Ascii.eqb c slash = false.
Proof.
  intros H. apply isName_inv in H as (Hs & He & _).
  destruct s as [|c tail]; [discriminate|].
  simpl in Hs. apply orb_false_iff in Hs as [Hc _]. eauto.
Qed.

Lemma segmentsOf_app_slash (x y : string) :
  segmentsOf (x ++ String slash y) = segmentsOf x ++ segmentsOf y.
Proof. unfold segmentsOf. now rewrite split_app_slash, filter_app. Qed.

Lemma segmentsOf_name (s : string) : isName s = true -> segmentsOf s = [s].
Proof.
  intros H. apply isName_inv in H as (Hs & He & _).
  unfold segmentsOf. rewrite (split_plain _ Hs). simpl. now rewrite He.
Qed.

Lemma join_cons (name : string) (names : list string) :
  names <> [] -> join (name :: names) = (name ++ String slash (join names))%string.
Proof. destruct names; [contradiction | reflexivity]. Qed.

Lemma segmentsOf_join (names : list string) :
  forallb isName names = true -> segmentsOf (join names) = names.
Proof.
  induction names as [|name rest IH]; simpl; [reflexivity|].
  intros H. apply andb_true_iff in H as [Hn Hrest].
  destruct rest as [|next rest'].
  - simpl. now apply segmentsOf_name.
  - rewrite join_cons by discriminate.
    rewrite segmentsOf_app_slash, (segmentsOf_name _ Hn), (IH Hrest). reflexivity.
Qed.

Lemma segmentsOf_absolute (names : list string) :
  forallb isName names = true -> segmentsOf (absolute names) = names.
Proof.
  intros H. unfold absolute.
  change ("/" ++ join names)%string with (EmptyString ++ String slash (join names))%string.
  rewrite segmentsOf_app_slash, (segmentsOf_join _ H). reflexivity.
Qed.

(** Normalization skips empty segments and keeps plain names. *)
Lemma normalizeSegments_segments (allowAboveRoot : bool) (segments : list string) :
  forall stack,
    normalizeSegments allowAboveRoot segments stack
    = normalizeSegments allowAboveRoot
        (filter (fun segment => negb (String.eqb segment EmptyString)) segments) stack.
Proof.
  induction segments as [|segment rest IH]; simpl; intros stack; [reflexivity|].
  destruct (String.eqb segment EmptyString) eqn:Ee; simpl; [apply IH|].
  rewrite Ee. simpl.
  destruct (String.eqb segment "."); [apply IH|].
  destruct (String.eqb segment "..").
  - destruct stack as [|top below]; [apply IH|].
    destruct (String.eqb top ".."); apply IH.
  - apply IH.
Qed.

Lemma normalizeSegments_names (allowAboveRoot : bool) (names : list string) :
  forallb isName names = true ->
  forall stack, normalizeSegments allowAboveRoot names stack = rev stack ++ names.
Proof.
  induction names as [|name rest IH]; simpl; intros H stack.
  - now rewrite app_nil_r.
  - apply andb_true_iff in H as [Hn Hrest].
    apply isName_inv in Hn as (_ & He & Hd & Hdd). rewrite He, Hd, Hdd. simpl.
    rewrite (IH Hrest). simpl. now rewrite <- app_assoc.
Qed.

Lemma normalize_path (allowAboveRoot : bool) (p : string) :
  forallb isName (segmentsOf p) = true ->
  normalizeSegments allowAboveRoot (split p) [] = segmentsOf p.
Proof.
  intros H. rewrite normalizeSegments_segments.
  now rewrite (normalizeSegments_names _ _ H).
Qed.

Lemma join_names_head (names : list string) :
  forallb isName names = true -> names <> [] ->
  exists c tail, join names = String c tail /\ Ascii.eqb c slash = false.
Proof.
  destruct names as [|name rest]; [contradiction|]. simpl. intros H _.
  apply andb_true_iff in H as [Hn _].
  destruct (isName_head _ Hn) as (c & tail & -> & Hc).
  destruct rest; unfold join; simpl; eauto.
Qed.

(** [resolve] of an absolute folder and a relative path of plain names. *)
Lemma resolve_absolute_relative (cwd : string) (folder names : list string) :
  forallb isName folder = true -> forallb isName names = true -> names <> [] ->
  resolve cwd (absolute folder) (join names) = absolute (folder ++ names).
Proof.
  intros Hf Hn Hne. unfold resolve, resolveAll. simpl rev. simpl app.
  destruct (join_names_head _ Hn Hne) as (c & tail & Hj & Hc).
  assert (Hprep : prepend [join names; absolute folder; cwd] EmptyString
                  = ((absolute folder ++ String slash (join names ++ String slash EmptyString))%string,
                     true)).
  { simpl. rewrite Hj. simpl. rewrite Hc. reflexivity. }
  rewrite Hprep. simpl negb.
  assert (Hseg : segmentsOf (absolute folder
                             ++ String slash (join names ++ String slash EmptyString))
                 = folder ++ names).
  { rewrite !segmentsOf_app_slash, (segmentsOf_absolute _ Hf), (segmentsOf_join _ Hn).
    now rewrite app_nil_r. }
  rewrite normalize_path; rewrite Hseg; [reflexivity|].
  rewrite forallb_app, Hf, Hn. reflexivity.
Qed.

Lemma resolveAll_absolute (cwd : string) (names : list string) :
  forallb isName names = true -> resolveAll cwd [absolute names] = absolute names.
Proof.
  intros Hn. unfold resolveAll. simpl rev. simpl app.
  assert (Hprep : prepend [absolute names; cwd] EmptyString
                  = ((absolute names ++ String slash EmptyString)%string, true))
    by reflexivity.
  rewrite Hprep. simpl negb.
  assert (Hseg : segmentsOf (absolute names ++ String slash EmptyString) = names).
  { rewrite segmentsOf_app_slash, (segmentsOf_absolute _ Hn). now rewrite app_nil_r. }
  rewrite normalize_path; rewrite Hseg; [reflexivity | exact Hn].
Qed.

Lemma basename_absolute (names : list string) :
  forallb isName names = true -> basename (absolute names) = last names EmptyString.
Proof.
  intros H. unfold basename. fold (segmentsOf (absolute names)).
  now rewrite segmentsOf_absolute.
Qed.

Lemma dropCommonPrefix_app (xs ys : list string) :
  dropCommonPrefix xs (xs ++ ys) = ([], ys).
Proof.
  induction xs as [|x xs IH]; simpl; [now destruct ys|].
  now rewrite String.eqb_refl.
Qed.

(** [relative] from a folder to a path below it. *)
Lemma relative_below (cwd : string) (root names : list string) :
  forallb isName root = true -> forallb isName names = true -> names <> [] ->
  relative cwd (absolute root) (absolute (root ++ names)) = join names.
Proof.
  intros Hr Hn Hne.
  assert (Hall : forallb isName (root ++ names) = true).
  { rewrite forallb_app, Hr, Hn. reflexivity. }
  assert (Hdiff : String.eqb (absolute root) (absolute (root ++ names)) = false).
  { apply String.eqb_neq. intros Heq.
    apply (f_equal segmentsOf) in Heq.
    rewrite (segmentsOf_absolute _ Hr), (segmentsOf_absolute _ Hall) in Heq.
    apply (f_equal (@length string)) in Heq. rewrite length_app in Heq.
    destruct names; [contradiction | simpl in Heq; lia]. }
  unfold relative. rewrite Hdiff.
  rewrite (resolveAll_absolute _ _ Hr), (resolveAll_absolute _ _ Hall), Hdiff.
  rewrite (segmentsOf_absolute _ Hr), (segmentsOf_absolute _ Hall).
  rewrite dropCommonPrefix_app. reflexivity.
Qed.

End PosixFacts.


(** ** Destinations *)

(** C4. The destination of a source file in a destination folder is the
    folder resolved with [basename] of the source when [flatten] is true,
    and with the source's path relative to the operation's source folder
    when [flatten] is false or omitted; the descriptor stored under that
    destination carries the source.  With POSIX paths made of plain names,
    a source [root/sub.../file] copied to folder [D] lands at [D/file] when
    flattened and at [D/sub.../file] otherwise. *)
Theorem C4_flatten_destination {host : Host}
    (copyConfiguration : ICopyOperation.t) (destinationFolderPath sourceFilePath : string) :
  let destination :=
    resolvedDestinationPath copyConfiguration destinationFolderPath sourceFilePath in
  (ICopyOperation.flatten copyConfiguration = Some true ->
     destination = path_resolve destinationFolderPath (path_basename sourceFilePath))
  /\ (ICopyOperation.flatten copyConfiguration <> Some true ->
      destination
      = path_resolve destinationFolderPath
          (path_relative (ICopyOperation.sourcePath copyConfiguration) sourceFilePath))
  /\ (forall m m',
        addCopyDescriptor copyConfiguration destinationFolderPath sourceFilePath m
          = Resolved m' ->
        exists d,
          JsMap.get destination m' = Some d
          /\ ICopyDescriptor.sourcePath d = sourceFilePath)
  /\ (forall cwd folder root sub file,
        path_resolve = PosixPath.resolve cwd ->
        path_basename = PosixPath.basename ->
        path_relative = PosixPath.relative cwd ->
        forallb PosixPath.isName folder = true ->
        forallb PosixPath.isName root = true ->
        forallb PosixPath.isName sub = true ->
        PosixPath.isName file = true ->
        destinationFolderPath = PosixPath.absolute folder ->
        ICopyOperation.sourcePath copyConfiguration = PosixPath.absolute root ->
        sourceFilePath = PosixPath.absolute (root ++ sub ++ [file]) ->
        destination
        = PosixPath.absolute
            (folder ++ if truthy (ICopyOperation.flatten copyConfiguration)
                       then [file] else sub ++ [file])).
Proof.
  intros destination. subst destination. unfold resolvedDestinationPath.
  split; [|split; [|split]].
  - intros ->. reflexivity.
  - intros Hf. destruct (ICopyOperation.flatten copyConfiguration) as [[|]|];
      [contradiction | reflexivity | reflexivity].
  - intros m m'. unfold addCopyDescriptor, resolvedDestinationPath.
    destruct (JsMap.get _ m) as [existing|] eqn:Hget.
    + destruct (String.eqb (ICopyDescriptor.sourcePath existing) sourceFilePath) eqn:Es;
        simpl; [|discriminate].
      destruct (Bool.eqb _ _); [|discriminate].
      intros H. inversion H; subst. exists existing. split; [assumption|].
      now apply String.eqb_eq.
    + intros H. inversion H; subst. eexists. split; [apply JsMap_get_set_same | reflexivity].
  - intros cwd folder root sub file -> -> -> Hfolder Hroot Hsub Hfile -> -> ->.
    assert (Hfile1 : forallb PosixPath.isName [file] = true) by (simpl; now rewrite Hfile).
    assert (Hrel : forallb PosixPath.isName (sub ++ [file]) = true).
    { rewrite forallb_app, Hsub, Hfile1. reflexivity. }
    assert (Hall : forallb PosixPath.isName (root ++ sub ++ [file]) = true).
    { rewrite forallb_app, Hroot, Hrel. reflexivity. }
    destruct (truthy (ICopyOperation.flatten copyConfiguration)).
    + rewrite (basename_absolute _ Hall), app_assoc, last_last.
      change file with (PosixPath.join [file]) at 1.
      apply resolve_absolute_relative; auto. discriminate.
    + rewrite (relative_below cwd root (sub ++ [file]) Hroot Hrel).
      * apply resolve_absolute_relative; auto. now destruct sub.
      * now destruct sub.
Qed.

(** ** The scenario of the spec, run *)

Section Scenario.
Import Fixture.

Example scenario_first_run :
  copyFilesAsync [scenarioOperation] buildInfoPath firstWorld
  = (Resolved tt, copiedWorld,
     [EGlob scenarioOperation; EReadBuildInfo buildInfoPath;
      EReadFile "/work/src/a.txt"; EReadFile "/work/src/b.txt";
      ECopyFiles "/work/src/a.txt" "/work/out/a.txt";
      EWriteVerboseLine (copiedMessage descriptorA);
      ECopyFiles "/work/src/b.txt" "/work/out/b.txt";
      EWriteVerboseLine (copiedMessage descriptorB);
      EWriteLine "Copied 2 files and linked 0 files";
      EWriteBuildInfo scenarioBuildInfo buildInfoPath]).
Proof. reflexivity. Qed.

Example scenario_second_run :
  copyFilesAsync [scenarioOperation] buildInfoPath copiedWorld
  = (Resolved tt, copiedWorld,
     [EGlob scenarioOperation; EReadBuildInfo buildInfoPath;
      EReadFile "/work/src/a.txt"; EReadFile "/work/src/b.txt";
      EWriteLine upToDateLine]).
Proof. reflexivity. Qed.

Example scenario_changed_run :
  filter isTransfer
    (snd (copyFilesAsync [scenarioOperation] buildInfoPath changedWorld))
  = [ECopyFiles "/work/src/a.txt" "/work/out/a.txt"].
Proof. reflexivity. Qed.

Example conflict_rejects_the_run :
  copyFilesAsync conflictingOperations buildInfoPath (world conflictingFiles [])
  = (Rejected (Error (conflictMessage "/work/out/a.txt")), world conflictingFiles [],
     map EGlob conflictingOperations).
Proof. reflexivity. Qed.

Example unreadable_source_rejects_the_run :
  copyFilesAsync [scenarioOperation] buildInfoPath (world unreadableFiles [])
  = (Rejected (IOError "/work/src/b.txt"), world unreadableFiles [],
     [EGlob scenarioOperation; EReadBuildInfo buildInfoPath;
      EReadFile "/work/src/a.txt"; EReadFile "/work/src/b.txt"]).
Proof. reflexivity. Qed.

Example resolve_examples :
  PosixPath.resolve cwd "/D" "a.txt" = "/D/a.txt"
  /\ PosixPath.resolve cwd "D" "sub/a.txt" = "/work/D/sub/a.txt"
  /\ PosixPath.resolve cwd "/D/x/.." "./a.txt" = "/D/a.txt"
  /\ PosixPath.basename "/root/sub/a.txt" = "a.txt"
  /\ PosixPath.relative cwd "root" "root/sub/a.txt" = "sub/a.txt"
  /\ PosixPath.relative cwd "/a/b/c" "/a/d" = "../../d".
Proof. repeat split. Qed.

End Scenario.

(** ** The claims at the scenario *)

Section Instances.
Import Fixture.

(** After a.txt changed, b.txt is up to date and a.txt is not. *)
Lemma C1_scenario_changed_source :
  findCopyDescriptorsWithWork scenarioDescriptors scenarioConfigHash buildInfoPath
    changedWorld
  = (Resolved ({| IIncrementalBuildInfo.configHash := scenarioConfigHash;
                  IIncrementalBuildInfo.inputFileVersions :=
                    [("/work/src/a.txt", "sha256:HELLO");
                     ("/work/src/b.txt", "sha256:world")] |},
               [descriptorA]),
     changedWorld,
     [EReadBuildInfo buildInfoPath; EReadFile "/work/src/a.txt";
      EReadFile "/work/src/b.txt"])
  /\ (~ In descriptorB [descriptorA]
      <-> exists prior content,
            JsMap.get buildInfoPath (buildInfoFiles changedWorld) = Some prior
            /\ IIncrementalBuildInfo.configHash prior = scenarioConfigHash
            /\ readFileToBuffer (fs changedWorld) (ICopyDescriptor.sourcePath descriptorB)
               = Some content
            /\ JsMap.get (ICopyDescriptor.sourcePath descriptorB)
                 (IIncrementalBuildInfo.inputFileVersions prior)
               = Some (sha256_base64 content)).
Proof.
  split; [reflexivity|].
  refine (proj1 (C1_excluded_iff_prior_hash_matches scenarioDescriptors scenarioConfigHash
                   buildInfoPath changedWorld changedWorld _ [descriptorA] _ _
                   descriptorB _)).
  - reflexivity.
  - simpl. auto.
Defined.

(** Two folders hold an a.txt and both are flattened into "out": the
    same a.txt declared again is no conflict, the other one is, and the run
    rejects whichever operation is taken first. *)
Lemma C2_scenario_conflict :
  addCopyDescriptor (operation "/work/src" ["*.txt"] ["/work/out"] (Some true) None)
    "/work/out" "/work/src/a.txt" [("/work/out/a.txt", descriptorA)]
  = Resolved [("/work/out/a.txt", descriptorA)]
  /\ addCopyDescriptor (operation "/work/lib" ["*.txt"] ["/work/out"] (Some true) None)
       "/work/out" "/work/lib/a.txt" [("/work/out/a.txt", descriptorA)]
     = Rejected (Error (conflictMessage "/work/out/a.txt"))
  /\ (exists contested evs,
        copyFilesAsync (rev conflictingOperations) buildInfoPath (world conflictingFiles [])
        = (Rejected (Error ("Cannot copy multiple files to the same destination "
                            ++ dquote ++ contested ++ dquote ++ ".")),
           world conflictingFiles [], evs)
        /\ forallb isGlob evs = true)
  /\ fst (fst (copyFilesAsync conflictingOperations buildInfoPath
                 (world conflictingFiles [])))
     = Rejected (Error (conflictMessage "/work/out/a.txt")).
Proof.
  split; [|split; [|split]].
  - refine (proj1 (C2_duplicate_destination_noop_or_conflict
                     (operation "/work/src" ["*.txt"] ["/work/out"] (Some true) None)
                     "/work/out" "/work/src/a.txt" [("/work/out/a.txt", descriptorA)]
                     descriptorA eq_refl) _).
    split; reflexivity.
  - refine (proj1 (proj2 (C2_duplicate_destination_noop_or_conflict
                     (operation "/work/lib" ["*.txt"] ["/work/out"] (Some true) None)
                     "/work/out" "/work/lib/a.txt" [("/work/out/a.txt", descriptorA)]
                     descriptorA eq_refl)) _).
    left. discriminate.
  - assert (Hget : JsMap.get
                     (resolvedDestinationPath
                        (operation "/work/lib" ["*.txt"] ["/work/out"] (Some true) None)
                        "/work/out" "/work/lib/a.txt")
                     [("/work/out/a.txt", descriptorA)]
                   = Some descriptorA) by reflexivity.
    destruct (proj1 (proj2 (proj2 (C2_duplicate_destination_noop_or_conflict
                     (operation "/work/lib" ["*.txt"] ["/work/out"] (Some true) None)
                     "/work/out" "/work/lib/a.txt" [("/work/out/a.txt", descriptorA)]
                     descriptorA Hget)))
                conflictingOperations (rev conflictingOperations) buildInfoPath
                (world conflictingFiles [])
                (operation "/work/src" ["*.txt"] ["/work/out"] (Some true) None)
                "/work/out" "/work/src/a.txt" ["/work/src/a.txt"]
                (operation "/work/lib" ["*.txt"] ["/work/out"] (Some true) None)
                "/work/out" "/work/lib/a.txt" ["/work/lib/a.txt"])
      as (contested & evs & Hrun & Hglob & _).
    + apply perm_swap.
    + intros c _. discriminate.
    + simpl. auto.
    + simpl. auto.
    + reflexivity.
    + reflexivity.
    + simpl. auto.
    + simpl. auto.
    + simpl. auto.
    + simpl. auto.
    + reflexivity.
    + left. discriminate.
    + exists contested, evs. split; assumption.
  - reflexivity.
Defined.



(** Flatten on and off, for root/sub/a.txt copied to D. *)
Lemma C4_scenario_flatten :
  resolvedDestinationPath (operation "/root" [] ["/D"] (Some true) None)
    "/D" "/root/sub/a.txt" = "/D/a.txt"
  /\ resolvedDestinationPath (operation "/root" [] ["/D"] (Some false) None)
       "/D" "/root/sub/a.txt" = "/D/sub/a.txt".
Proof.
  split.
  - refine (proj2 (proj2 (proj2 (C4_flatten_destination
              (operation "/root" [] ["/D"] (Some true) None) "/D" "/root/sub/a.txt")))
              cwd ["D"] ["root"] ["sub"] "a.txt" _ _ _ _ _ _ _ _ _ _); reflexivity.
  - refine (proj2 (proj2 (proj2 (C4_flatten_destination
              (operation "/root" [] ["/D"] (Some false) None) "/D" "/root/sub/a.txt")))
              cwd ["D"] ["root"] ["sub"] "a.txt" _ _ _ _ _ _ _ _ _ _); reflexivity.
Defined.


(** A transfer into the read-only folder rejects after the copies into
    "out" were made; the stale build info stays. *)
Lemma C6_scenario_transfer_error :
  exists e w' evs,
    copyFilesAsync [readonlyOperation] buildInfoPath
      (world scenarioFiles [(buildInfoPath, staleBuildInfo)])
    = (Rejected e, w', evs)
    /\ fs w' = copiedFiles
    /\ buildInfoFiles w' = [(buildInfoPath, staleBuildInfo)]
    /\ existsb isBuildInfoWrite evs = false.
Proof.
  eexists. eexists. eexists.
  split; [reflexivity|]. split; [reflexivity|].
  refine (proj1 (C6_failed_run_leaves_build_info [readonlyOperation] buildInfoPath
                   (world scenarioFiles [(buildInfoPath, staleBuildInfo)]) _ _ _ _)
            _ eq_refl).
  reflexivity.
Defined.

(** C7, as stated, fails: a run over unchanged sources resolves without
    writing a build info, and what the build-info file holds afterwards is
    the prior content, which lists a source that is not among this run's. *)
Lemma C7_noop_run_keeps_prior_build_info :
  ~ (forall w' evs,
       copyFilesAsync [scenarioOperation] buildInfoPath staleWorld = (Resolved tt, w', evs) ->
       exists buildInfo, In (EWriteBuildInfo buildInfo buildInfoPath) evs)
  /\ ~ (forall w' evs,
          copyFilesAsync [scenarioOperation] buildInfoPath staleWorld
            = (Resolved tt, w', evs) ->
          exists buildInfo,
            JsMap.get buildInfoPath (buildInfoFiles w') = Some buildInfo
            /\ forall p,
                 JsMap.get p (IIncrementalBuildInfo.inputFileVersions buildInfo) <> None ->
                 In p ["/work/src/a.txt"; "/work/src/b.txt"]).
Proof.
  assert (Hrun : copyFilesAsync [scenarioOperation] buildInfoPath staleWorld
                 = (Resolved tt, staleWorld,
                    [EGlob scenarioOperation; EReadBuildInfo buildInfoPath;
                     EReadFile "/work/src/a.txt"; EReadFile "/work/src/b.txt";
                     EWriteLine upToDateLine])) by reflexivity.
  split; intros Hclaim.
  - destruct (Hclaim _ _ Hrun) as (buildInfo & Hin).
    simpl in Hin. repeat destruct Hin as [Hin|Hin]; try discriminate. contradiction.
  - destruct (Hclaim _ _ Hrun) as (buildInfo & Hget & Hkeys).
    injection Hget as <-.
    assert (Hgone : In "/work/src/gone.txt" ["/work/src/a.txt"; "/work/src/b.txt"]).
    { apply Hkeys. simpl. discriminate. }
    simpl in Hgone. repeat destruct Hgone as [Hgone|Hgone]; try discriminate. contradiction.
Qed.

(** The first run of the scenario writes both hashes. *)
Lemma C7_scenario_first_run :
  JsMap.get buildInfoPath (buildInfoFiles copiedWorld) = Some scenarioBuildInfo
  /\ IIncrementalBuildInfo.configHash scenarioBuildInfo
     = computeConfigHash [scenarioOperation].
Proof.
  destruct (C7_build_info_written_when_work_was_done [scenarioOperation] buildInfoPath
              firstWorld copiedWorld
              (snd (copyFilesAsync [scenarioOperation] buildInfoPath firstWorld))
              [EGlob scenarioOperation] scenarioDescriptors eq_refl eq_refl)
    as [_ Hwritten].
  destruct (Hwritten scenarioBuildInfo [descriptorA; descriptorB]
              [EReadBuildInfo buildInfoPath; EReadFile "/work/src/a.txt";
               EReadFile "/work/src/b.txt"] eq_refl) as [_ Hwork].
  destruct Hwork as (_ & Hget & _ & Hhash & _); [discriminate|].
  split; assumption.
Defined.

(** Two copies and no link; one copy and one link. *)
Lemma C8_scenario_summary :
  terminalLines
    (snd (_copyFilesInnerAsync scenarioDescriptors scenarioConfigHash buildInfoPath
            firstWorld))
  = ["Copied 2 files and linked 0 files"]
  /\ terminalLines
       (snd (_copyFilesInnerAsync mixedDescriptors scenarioConfigHash buildInfoPath
               firstWorld))
     = ["Copied 1 file and linked 1 file"].
Proof.
  split.
  - destruct (C8_summary_counts scenarioDescriptors scenarioConfigHash buildInfoPath
                firstWorld firstWorld copiedWorld scenarioBuildInfo
                [descriptorA; descriptorB]
                [EReadBuildInfo buildInfoPath; EReadFile "/work/src/a.txt";
                 EReadFile "/work/src/b.txt"]
                (snd (_copyFilesInnerAsync scenarioDescriptors scenarioConfigHash
                        buildInfoPath firstWorld)))
      as (_ & Hlines & _).
    + reflexivity.
    + discriminate.
    + reflexivity.
    + exact Hlines.
  - destruct (C8_summary_counts mixedDescriptors scenarioConfigHash buildInfoPath
                firstWorld firstWorld
                (snd (fst (_copyFilesInnerAsync mixedDescriptors scenarioConfigHash
                             buildInfoPath firstWorld)))
                {| IIncrementalBuildInfo.configHash := scenarioConfigHash;
                   IIncrementalBuildInfo.inputFileVersions :=
                     [("/work/src/a.txt", "sha256:hello")] |}
                (JsMap.values mixedDescriptors)
                [EReadBuildInfo buildInfoPath; EReadFile "/work/src/a.txt"]
                (snd (_copyFilesInnerAsync mixedDescriptors scenarioConfigHash
                        buildInfoPath firstWorld)))
      as (_ & Hlines & _).
    + reflexivity.
    + discriminate.
    + reflexivity.
    + exact Hlines.
Defined.

(** No source matches: nothing happens, though a build info exists; with
    the scenario's files unchanged the up-to-date line is printed. *)
Lemma C9_scenario_no_descriptor :
  copyFilesAsync [scenarioOperation] buildInfoPath (world [] [(buildInfoPath, staleBuildInfo)])
  = (Resolved tt, world [] [(buildInfoPath, staleBuildInfo)], [EGlob scenarioOperation])
  /\ _copyFilesInnerAsync scenarioDescriptors scenarioConfigHash buildInfoPath copiedWorld
     = (Resolved tt, copiedWorld,
        [EReadBuildInfo buildInfoPath; EReadFile "/work/src/a.txt";
         EReadFile "/work/src/b.txt"] ++ [EWriteLine upToDateLine]).
Proof.
  split.
  - refine (proj1 (proj2 (proj1 (C9_no_descriptor_returns_at_once [] scenarioConfigHash
                                   buildInfoPath
                                   (world [] [(buildInfoPath, staleBuildInfo)])) eq_refl)
                     [scenarioOperation] [EGlob scenarioOperation] eq_refl)).
  - refine (proj1 (proj2 (C9_no_descriptor_returns_at_once scenarioDescriptors
                            scenarioConfigHash buildInfoPath copiedWorld) _
                     scenarioBuildInfo copiedWorld _ eq_refl)).
    discriminate.
Defined.

(** The flag omitted after [hardlink: false]: one descriptor, copied. *)
Lemma C10_scenario_omitted_flag :
  addCopyDescriptor (operation "/work/src" ["*.txt"] ["/work/out"] None None)
    "/work/out" "/work/src/a.txt" [("/work/out/a.txt", descriptorA)]
  = Resolved [("/work/out/a.txt", descriptorA)].
Proof.
  refine (proj1 (proj2 (proj2 (C10_omitted_hardlink_is_false
                                 (operation "/work/src" ["*.txt"] ["/work/out"] None None)
                                 "/work/out" "/work/src/a.txt" eq_refl))
                   (operation "/work/src" ["*.txt"] ["/work/out"] None (Some false))
                   "/work/out" [] [("/work/out/a.txt", descriptorA)] eq_refl eq_refl)
            eq_refl eq_refl).
Defined.

End Instances.

(** * More of the plugin *)

(** ** Resolution: what the map holds, when it exists, and in which order *)

Section MoreOfResolution.
Context {host : Host}.

(** X1. The map a resolution returns has one entry per destination, each
    stored under its own destination path, and holds exactly the declared
    copies: a destination maps to a descriptor iff some operation, one of
    its destination folders and one of its enumerated source files resolve
    to that destination with that source and that operation's hardlink
    flag. *)
Theorem X1_resolved_map_holds_the_declared_copies
    (copyOperations : list ICopyOperation.t) (w w' : World)
    (m : JsMap.t ICopyDescriptor.t) (evs : list Event) :
  _getCopyDescriptorsAsync copyOperations w = (Resolved m, w', evs) ->
  NoDup (JsMap.keys m)
  /\ (forall key d, In (key, d) m -> ICopyDescriptor.destinationPath d = key)
  /\ (forall key d,
        JsMap.get key m = Some d
        <-> exists c folder file sourceFiles,
              In c copyOperations
              /\ getFileSelectionSpecifierPaths (fs w) c = Some sourceFiles
              /\ In folder (ICopyOperation.destinationFolders c)
              /\ In file sourceFiles
              /\ key = resolvedDestinationPath c folder file
              /\ d = {| ICopyDescriptor.sourcePath := file;
                        ICopyDescriptor.destinationPath := key;
                        ICopyDescriptor.hardlink := truthy (ICopyOperation.hardlink c) |}).
Proof.
  unfold _getCopyDescriptorsAsync. intros Hres.
  apply forEachCopyConfiguration_addAll in Hres as (_ & Hadd & _ & _).
  destruct (addAll_invariant _ _ _ Hadd (Forall_nil _) (NoDup_nil _))
    as (Hk & Hnd & Hall & _ & Hsound).
  split; [exact Hnd|]. split.
  - intros key d Hin. unfold keyedByDestination in Hk. rewrite Forall_forall in Hk.
    exact (Hk _ Hin).
  - intros key d. split.
    + intros Hget. destruct (Hsound _ _ Hget) as [Hbad|([[c folder] file] & Hin & -> & ->)];
        [discriminate|].
      apply In_declaredRequests in Hin as (Hc & Hf & sourceFiles & Eg & Hfile).
      exists c, folder, file, sourceFiles. repeat split; auto.
    + intros (c & folder & file & sourceFiles & Hc & Eg & Hf & Hfile & -> & ->).
      apply (Hall (c, folder, file)). apply In_declaredRequests. eauto.
Qed.

(** X2. A resolution goes through exactly when every enumeration succeeds
    and no two declared copies claim one destination for different sources
    or different hardlink flags. *)
Theorem X2_resolution_resolves_iff_consistent
    (copyOperations : list ICopyOperation.t) (w : World) :
  (exists m w' evs, _getCopyDescriptorsAsync copyOperations w = (Resolved m, w', evs))
  <-> (forall c, In c copyOperations -> getFileSelectionSpecifierPaths (fs w) c <> None)
      /\ forall c1 folder1 file1 files1 c2 folder2 file2 files2,
           In c1 copyOperations -> In c2 copyOperations ->
           getFileSelectionSpecifierPaths (fs w) c1 = Some files1 ->
           getFileSelectionSpecifierPaths (fs w) c2 = Some files2 ->
           In folder1 (ICopyOperation.destinationFolders c1) -> In file1 files1 ->
           In folder2 (ICopyOperation.destinationFolders c2) -> In file2 files2 ->
           resolvedDestinationPath c1 folder1 file1 = resolvedDestinationPath c2 folder2 file2 ->
           file1 = file2
           /\ truthy (ICopyOperation.hardlink c1) = truthy (ICopyOperation.hardlink c2).
Proof.
  unfold _getCopyDescriptorsAsync. split.
  - intros (m & w' & evs & Hres).
    apply forEachCopyConfiguration_addAll in Hres as (Hglob & Hadd & _ & _).
    split; [exact Hglob|].
    intros c1 folder1 file1 files1 c2 folder2 file2 files2 H1 H2 G1 G2 F1 S1 F2 S2 Hdst.
    apply (addAll_consistent _ _ Hadd (c1, folder1, file1) (c2, folder2, file2));
      [apply In_declaredRequests; eauto | apply In_declaredRequests; eauto | exact Hdst].
  - intros (Hglob & Hcons).
    destruct (addAll_total (declaredRequests (fs w) copyOperations) []
                (Forall_nil _) (NoDup_nil _)) as (m & Hadd).
    + intros r existing _ Hbad. discriminate.
    + intros [[c1 folder1] file1] [[c2 folder2] file2] H1 H2 Hdst.
      apply In_declaredRequests in H1 as (Hc1 & Hf1 & files1 & G1 & S1).
      apply In_declaredRequests in H2 as (Hc2 & Hf2 & files2 & G2 & S2).
      exact (Hcons _ _ _ _ _ _ _ _ Hc1 Hc2 G1 G2 Hf1 S1 Hf2 S2 Hdst).
    + exists m, w, (map EGlob copyOperations).
      apply forEachCopyConfiguration_addAll. auto.
Qed.

(** X3. The order in which the operations are resolved does not matter:
    if a resolution goes through, it goes through for every reordering of
    the operations, with the same descriptor under every destination and
    as many entries. *)
Theorem X3_resolution_is_order_independent
    (copyOperations reordered : list ICopyOperation.t) (w w' : World)
    (m : JsMap.t ICopyDescriptor.t) (evs : list Event) :
  Permutation copyOperations reordered ->
  _getCopyDescriptorsAsync copyOperations w = (Resolved m, w', evs) ->
  exists m',
    _getCopyDescriptorsAsync reordered w = (Resolved m', w, map EGlob reordered)
    /\ (forall key, JsMap.get key m' = JsMap.get key m)
    /\ JsMap.size m' = JsMap.size m.
Proof.
  unfold _getCopyDescriptorsAsync. intros Hperm Hres.
  apply forEachCopyConfiguration_addAll in Hres as (Hglob & Hadd & _ & _).
  assert (Hreq : forall r, In r (declaredRequests (fs w) copyOperations)
                           <-> In r (declaredRequests (fs w) reordered)).
  { intros [[c folder] file]. rewrite !In_declaredRequests.
    split; intros (Hc & Hrest); (split; [|exact Hrest]).
    - exact (Permutation_in _ Hperm Hc).
    - exact (Permutation_in _ (Permutation_sym Hperm) Hc). }
  pose proof (addAll_consistent _ _ Hadd) as Hcons.
  destruct (addAll_total (declaredRequests (fs w) reordered) []
              (Forall_nil _) (NoDup_nil _)) as (m' & Hadd').
  { intros r existing _ Hbad. discriminate. }
  { intros r1 r2 H1 H2. apply Hcons; now apply Hreq. }
  destruct (addAll_invariant _ _ _ Hadd (Forall_nil _) (NoDup_nil _))
    as (_ & Hnd & Hall & _ & Hsound).
  destruct (addAll_invariant _ _ _ Hadd' (Forall_nil _) (NoDup_nil _))
    as (_ & Hnd' & Hall' & _ & Hsound').
  assert (Hsame : forall key, JsMap.get key m' = JsMap.get key m).
  { intros key. destruct (JsMap.get key m') as [d'|] eqn:E'.
    - destruct (Hsound' _ _ E') as [Hbad|(r & Hin & -> & ->)]; [discriminate|].
      symmetry. apply Hall. now apply Hreq.
    - destruct (JsMap.get key m) as [d|] eqn:E; [|reflexivity].
      destruct (Hsound _ _ E) as [Hbad|(r & Hin & -> & ->)]; [discriminate|].
      rewrite (Hall' r) in E' by now apply Hreq. discriminate. }
  exists m'. split; [|split; [exact Hsame|]].
  - apply forEachCopyConfiguration_addAll. repeat split; auto.
    intros c Hc. apply Hglob. exact (Permutation_in _ (Permutation_sym Hperm) Hc).
  - unfold JsMap.size. rewrite <- (length_map fst m'), <- (length_map fst m).
    apply Permutation_length. apply NoDup_Permutation; [exact Hnd' | exact Hnd |].
    intros key. fold (JsMap.keys m') (JsMap.keys m).
    pose proof (JsMap_get_None_keys key m') as K'.
    pose proof (JsMap_get_None_keys key m) as K.
    rewrite Hsame in K'.
    destruct (in_dec string_dec key (JsMap.keys m')) as [I'|I'];
      destruct (in_dec string_dec key (JsMap.keys m)) as [I|I]; try tauto.
Qed.

(** X4. Declaring operations more than once changes nothing: a list that
    holds the same operations, each any number of times and in any order,
    resolves as well, with one enumeration per operation declared, the same
    descriptor under every destination and as many entries. *)
Theorem X4_operation_declared_twice
    (copyOperations declared : list ICopyOperation.t) (w w' : World)
    (m : JsMap.t ICopyDescriptor.t) (evs : list Event) :
  (forall c, In c declared <-> In c copyOperations) ->
  _getCopyDescriptorsAsync copyOperations w = (Resolved m, w', evs) ->
  exists m' evs',
    _getCopyDescriptorsAsync declared w = (Resolved m', w, evs')
    /\ Permutation evs' (map EGlob declared)
    /\ (forall key, JsMap.get key m' = JsMap.get key m)
    /\ JsMap.size m' = JsMap.size m.
Proof.
  unfold _getCopyDescriptorsAsync. intros Hsame Hres.
  apply forEachCopyConfiguration_addAll in Hres as (Hglob & Hadd & _ & _).
  assert (Hreq : forall r, In r (declaredRequests (fs w) declared)
                           <-> In r (declaredRequests (fs w) copyOperations)).
  { intros [[c folder] file]. rewrite !In_declaredRequests.
    split; intros (Hc & Hrest); (split; [now apply Hsame | exact Hrest]). }
  pose proof (addAll_consistent _ _ Hadd) as Hcons.
  destruct (addAll_total (declaredRequests (fs w) declared) []
              (Forall_nil _) (NoDup_nil _)) as (m' & Hadd').
  { intros r existing _ Hbad. discriminate. }
  { intros r1 r2 H1 H2. apply Hcons; now apply Hreq. }
  destruct (addAll_invariant _ _ _ Hadd (Forall_nil _) (NoDup_nil _))
    as (_ & Hnd & Hall & _ & Hsound).
  destruct (addAll_invariant _ _ _ Hadd' (Forall_nil _) (NoDup_nil _))
    as (_ & Hnd' & Hall' & _ & Hsound').
  assert (Hget : forall key, JsMap.get key m' = JsMap.get key m).
  { intros key. destruct (JsMap.get key m') as [d'|] eqn:E'.
    - destruct (Hsound' _ _ E') as [Hbad|(r & Hin & -> & ->)]; [discriminate|].
      symmetry. apply Hall. now apply Hreq.
    - destruct (JsMap.get key m) as [d|] eqn:E; [|reflexivity].
      destruct (Hsound _ _ E) as [Hbad|(r & Hin & -> & ->)]; [discriminate|].
      rewrite (Hall' r) in E' by now apply Hreq. discriminate. }
  exists m', (map EGlob declared). split; [|split; [reflexivity|split; [exact Hget|]]].
  - apply forEachCopyConfiguration_addAll. repeat split; auto.
    intros c Hc. apply Hglob. now apply Hsame.
  - unfold JsMap.size. rewrite <- (length_map fst m'), <- (length_map fst m).
    apply Permutation_length. apply NoDup_Permutation; [exact Hnd' | exact Hnd |].
    intros key. fold (JsMap.keys m') (JsMap.keys m).
    pose proof (JsMap_get_None_keys key m') as K'.
    pose proof (JsMap_get_None_keys key m) as K.
    rewrite Hget in K'.
    destruct (in_dec string_dec key (JsMap.keys m')) as [I'|I'];
      destruct (in_dec string_dec key (JsMap.keys m)) as [I|I]; try tauto.
Qed.

End MoreOfResolution.

(** ** Hashing, the diff and the transfers *)

Section MoreOfTheEngine.
Context {host : Host}.

Lemma readPaths_app evs1 evs2 : readPaths (evs1 ++ evs2) = readPaths evs1 ++ readPaths evs2.
Proof. unfold readPaths. apply flat_map_app. Qed.

Lemma writtenPaths_app evs1 evs2 :
  writtenPaths (evs1 ++ evs2) = writtenPaths evs1 ++ writtenPaths evs2.
Proof. unfold writtenPaths. apply flat_map_app. Qed.

Lemma allInputFiles_NoDup_fold (ds : list ICopyDescriptor.t) :
  forall s : JsSet.t,
    NoDup s ->
    NoDup (fold_left (fun s d => JsSet.add (ICopyDescriptor.sourcePath d) s) ds s).
Proof.
  induction ds as [|d rest IH]; simpl; intros s Hnd; [exact Hnd|].
  apply IH. unfold JsSet.add.
  destruct (JsSet.has (ICopyDescriptor.sourcePath d) s) eqn:E; [exact Hnd|].
  apply NoDup_app; [exact Hnd | repeat constructor; auto |].
  intros p Hin [<-|[]]. apply JsSet_has_In in Hin. congruence.
Qed.

Lemma allInputFiles_NoDup copyDescriptors : NoDup (allInputFiles copyDescriptors).
Proof. apply allInputFiles_NoDup_fold. constructor. Qed.

(** The hashing loop reads its files in turn, up to the first that cannot
    be read. *)
Lemma hashInputFiles_reads inputFiles :
  forall acc w o w' evs,
    hashInputFiles inputFiles acc w = (o, w', evs) ->
    exists rest,
      inputFiles = readPaths evs ++ rest
      /\ (forall p, In p (readPaths evs) -> In p inputFiles)
      /\ match o with
         | Resolved _ =>
             rest = [] /\ forall p, In p inputFiles -> readFileToBuffer (fs w) p <> None
         | Rejected e =>
             exists p, e = IOError p /\ In p inputFiles /\ readFileToBuffer (fs w) p = None
         end.
Proof.
  induction inputFiles as [|q files IH]; simpl; intros acc w o w' evs H.
  - inversion H; subst. exists []. simpl. repeat split; auto; intros p [].
  - revert H. unfold bind, readFileToBufferAsync.
    destruct (readFileToBuffer (fs w) q) as [c|] eqn:Hread.
    + destruct (hashInputFiles files _ w) as [[o2 w2] evs2] eqn:E.
      intros H. inversion H; subst.
      destruct (IH _ _ _ _ _ E) as (rest & Heq & Hsub & Ho).
      exists rest. simpl. split; [now rewrite <- Heq|]. split.
      * intros p [<-|Hp]; auto.
      * destruct o.
        -- destruct Ho as [-> Hall]. split; [reflexivity|].
           intros p [<-|Hp]; [congruence | auto].
        -- destruct Ho as (p & -> & Hp & Hnone). exists p. auto.
    + intros H. inversion H; subst. exists files. simpl. repeat split; auto.
      * intros p [<-|[]]. now left.
      * exists q. auto.
Qed.

Lemma discardEvents_no_read configHash readBuildInfo :
  readPaths (discardEvents configHash readBuildInfo) = [].
Proof.
  unfold discardEvents. destruct readBuildInfo as [old|]; [|reflexivity].
  destruct (String.eqb _ configHash); reflexivity.
Qed.

(** What lines 183-227 return when they resolve. *)
Lemma findCopyDescriptorsWithWork_resolved copyDescriptors configHash buildInfoPath
    w buildInfo work w' evs :
  findCopyDescriptorsWithWork copyDescriptors configHash buildInfoPath w
    = (Resolved (buildInfo, work), w', evs) ->
  IIncrementalBuildInfo.configHash buildInfo = configHash
  /\ work = filter (hasWork (keptBuildInfo configHash
                               (JsMap.get buildInfoPath (buildInfoFiles w)))
                      (IIncrementalBuildInfo.inputFileVersions buildInfo))
              (JsMap.values copyDescriptors)
  /\ forall d, In d (JsMap.values copyDescriptors) ->
       exists content,
         readFileToBuffer (fs w) (ICopyDescriptor.sourcePath d) = Some content
         /\ JsMap.get (ICopyDescriptor.sourcePath d)
              (IIncrementalBuildInfo.inputFileVersions buildInfo)
            = Some (sha256_base64 content).
Proof.
  rewrite findCopyDescriptorsWithWork_eq. cbv zeta.
  destruct (hashInputFiles _ _ w) as [[[versions|e] w1] evsh] eqn:Eh; [|discriminate].
  destruct (selectDescriptorsWithWork _ _ versions []) as [work0|e] eqn:Es; [|discriminate].
  intros H. inversion H; subst. simpl.
  apply selectDescriptorsWithWork_resolved in Es as [-> _].
  repeat split; auto. intros d Hd.
  apply (proj1 (hashInputFiles_resolved _ _ _ _ _ _ Eh _)).
  apply allInputFiles_In. now apply in_map.
Qed.

Lemma writtenPaths_filter evs : writtenPaths evs = writtenPaths (filter isTransfer evs).
Proof.
  induction evs as [|ev rest IH]; simpl; [reflexivity|].
  destruct ev; simpl; rewrite <- ?IH; reflexivity.
Qed.

Lemma writtenPaths_transferEvents ds :
  writtenPaths (map transferEvent ds) = map ICopyDescriptor.destinationPath ds.
Proof.
  induction ds as [|d rest IH]; simpl; [reflexivity|].
  unfold transferEvent at 1. destruct (ICopyDescriptor.hardlink d); simpl; now rewrite IH.
Qed.

Lemma no_transfer_writtenPaths evs : existsb isTransfer evs = false -> writtenPaths evs = [].
Proof.
  induction evs as [|ev rest IH]; simpl; [reflexivity|].
  intros H. apply orb_false_iff in H as [Hev Hrest].
  destruct ev; simpl in *; try discriminate; auto.
Qed.

Lemma no_transfer_filter evs : existsb isTransfer evs = false -> filter isTransfer evs = [].
Proof.
  induction evs as [|ev rest IH]; simpl; [reflexivity|].
  intros H. apply orb_false_iff in H as [Hev Hrest]. rewrite Hev. auto.
Qed.

Lemma transferOne_events d counts w o w' evs :
  transferOne d counts w = (o, w', evs) ->
  filter isTransfer evs = [transferEvent d] /\ existsb isInput evs = false.
Proof.
  destruct counts as [copied linked]. unfold transferOne, transferEvent.
  destruct (ICopyDescriptor.hardlink d);
    unfold bind, createHardLinkAsync, copyFilesAsync_FileSystem, writeVerboseLine, emit, ret.
  - destruct (createHardLink (fs w) _ _); intros H; inversion H; subst; simpl; auto.
  - destruct (copyFiles (fs w) _ _); intros H; inversion H; subst; simpl; auto.
Qed.

(** The transfer loop makes one file-system call per descriptor, in turn,
    up to the first that rejects; it takes no input. *)
Lemma forEachCopyDescriptorWithWork_events work :
  forall counts w o w' evs,
    forEachCopyDescriptorWithWork work counts w = (o, w', evs) ->
    existsb isInput evs = false
    /\ exists n,
         filter isTransfer evs = map transferEvent (firstn n work)
         /\ (forall counts', o = Resolved counts' -> firstn n work = work).
Proof.
  induction work as [|d rest IH]; simpl; intros counts w o w' evs H.
  - inversion H; subst. split; [reflexivity|]. exists 0. auto.
  - apply bind_inv in H as [(c1 & w1 & evs1 & evs2 & Ht & Hk & ->)|(e & Ht & ->)].
    + apply transferOne_events in Ht as [Hf Hi].
      apply IH in Hk as (Hi2 & n & Hf2 & Hall).
      split; [now rewrite existsb_app, Hi, Hi2|].
      exists (S n). rewrite filter_app, Hf, Hf2. split; [reflexivity|].
      intros counts' Ho. simpl. f_equal. eauto.
    + apply transferOne_events in Ht as [Hf Hi]. split; [exact Hi|].
      exists 1. rewrite Hf. simpl. split; [reflexivity | discriminate].
Qed.

Lemma NoDup_map_filter {A B} (f : A -> B) (g : A -> bool) (l : list A) :
  NoDup (map f l) -> NoDup (map f (filter g l)).
Proof.
  induction l as [|x rest IH]; simpl; intros H; [constructor|].
  inversion H as [|? ? Hx Hrest]; subst.
  destruct (g x); simpl; [|auto]. constructor; [|auto].
  intros Hin. apply Hx. apply in_map_iff in Hin as (y & Hy & Hin).
  apply filter_In in Hin as [Hin _]. apply in_map_iff. eauto.
Qed.

Lemma NoDup_map_firstn {A B} (f : A -> B) (n : nat) (l : list A) :
  NoDup (map f l) -> NoDup (map f (firstn n l)).
Proof.
  revert l. induction n as [|n IH]; intros l H; simpl; [constructor|].
  destruct l as [|x rest]; simpl; [constructor|].
  inversion H as [|? ? Hx Hrest]; subst. constructor; [|auto].
  intros Hin. apply Hx. apply in_map_iff in Hin as (y & Hy & Hin).
  apply in_map_iff. exists y. split; [assumption|].
  rewrite <- (firstn_skipn n rest). apply in_or_app. now left.
Qed.

Lemma keyed_destinations m :
  keyedByDestination m -> map ICopyDescriptor.destinationPath (JsMap.values m) = JsMap.keys m.
Proof.
  unfold keyedByDestination, JsMap.values, JsMap.keys.
  induction m as [|[k d] rest IH]; simpl; intros H; [reflexivity|].
  inversion H; subst. simpl in *. f_equal; auto.
Qed.

Lemma values_In_get (m : JsMap.t ICopyDescriptor.t) d :
  keyedByDestination m -> NoDup (JsMap.keys m) -> In d (JsMap.values m) ->
  JsMap.get (ICopyDescriptor.destinationPath d) m = Some d.
Proof.
  intros Hk Hnd Hin. unfold JsMap.values in Hin.
  apply in_map_iff in Hin as ([k d'] & Heq & Hin). simpl in Heq. subst d'.
  unfold keyedByDestination in Hk. rewrite Forall_forall in Hk.
  pose proof (Hk _ Hin) as Hkey. simpl in Hkey. rewrite Hkey.
  now apply JsMap_In_get.
Qed.

(** X5. Hashing reads no path twice and reads only source paths of the
    descriptors; when lines 183-227 resolve, every descriptor's source has
    been read. *)
Theorem X5_each_source_is_read_once
    (copyDescriptors : JsMap.t ICopyDescriptor.t) (configHash buildInfoPath : string)
    (w w' : World) (o : Outcome (IIncrementalBuildInfo.t * list ICopyDescriptor.t))
    (evs : list Event) :
  findCopyDescriptorsWithWork copyDescriptors configHash buildInfoPath w = (o, w', evs) ->
  NoDup (readPaths evs)
  /\ (forall p, In p (readPaths evs) ->
        exists d, In d (JsMap.values copyDescriptors) /\ ICopyDescriptor.sourcePath d = p)
  /\ (forall found, o = Resolved found ->
        forall d, In d (JsMap.values copyDescriptors) ->
          In (ICopyDescriptor.sourcePath d) (readPaths evs)).
Proof.
  rewrite findCopyDescriptorsWithWork_eq. cbv zeta.
  destruct (hashInputFiles _ _ w) as [[oh w1] evsh] eqn:Eh.
  destruct (hashInputFiles_reads _ _ _ _ _ _ Eh) as (rest & Heq & Hsub & Ho).
  assert (Hreads : readPaths (EReadBuildInfo buildInfoPath
                                :: discardEvents configHash
                                     (JsMap.get buildInfoPath (buildInfoFiles w)) ++ evsh)
                   = readPaths evsh).
  { change (readPaths (discardEvents configHash
                         (JsMap.get buildInfoPath (buildInfoFiles w)) ++ evsh)
            = readPaths evsh).
    now rewrite readPaths_app, discardEvents_no_read. }
  assert (Hnd : NoDup (readPaths evsh)).
  { pose proof (allInputFiles_NoDup copyDescriptors) as Hnd. rewrite Heq in Hnd.
    exact (NoDup_app_remove_r _ _ Hnd). }
  assert (Hsrc : forall p, In p (readPaths evsh) ->
            exists d, In d (JsMap.values copyDescriptors)
                      /\ ICopyDescriptor.sourcePath d = p).
  { intros p Hp. apply Hsub, allInputFiles_In, in_map_iff in Hp as (d & Hd & Hin). eauto. }
  destruct oh as [versions|e].
  - destruct Ho as [-> _]. rewrite app_nil_r in Heq.
    assert (Hall : forall d, In d (JsMap.values copyDescriptors) ->
              In (ICopyDescriptor.sourcePath d) (readPaths evsh)).
    { intros d Hd. rewrite <- Heq. apply allInputFiles_In. now apply in_map. }
    destruct (selectDescriptorsWithWork _ _ versions []);
      intros H; inversion H; subst; simpl app; rewrite Hreads; repeat split; auto;
      discriminate.
  - intros H; inversion H; subst. simpl app. rewrite Hreads. repeat split; auto.
    discriminate.
Qed.

(** X6. Whatever its outcome, a run writes to no destination twice, and
    every copy or hard-link call it makes is the transfer of a descriptor
    held by the resolved map under that destination. *)
Theorem X6_no_destination_is_written_twice
    (copyOperations : list ICopyOperation.t) (buildInfoPath : string)
    (w w' : World) (o : Outcome unit) (evs : list Event) :
  copyFilesAsync copyOperations buildInfoPath w = (o, w', evs) ->
  NoDup (writtenPaths evs)
  /\ forall ev, In ev evs -> isTransfer ev = true ->
       exists m wR evsR d,
         _getCopyDescriptorsAsync copyOperations w = (Resolved m, wR, evsR)
         /\ JsMap.get (ICopyDescriptor.destinationPath d) m = Some d
         /\ ev = transferEvent d.
Proof.
  intros Hrun.
  assert (Hquiet : forall l, existsb isWrite l = false ->
            writtenPaths l = [] /\ forall ev, In ev l -> isTransfer ev = true -> False).
  { intros l Hl. destruct (isWrite_false_parts _ Hl) as (_ & Ht & _).
    split; [now apply no_transfer_writtenPaths|].
    intros ev Hin Hev. assert (existsb isTransfer l = true); [|congruence].
    apply existsb_exists. eauto. }
  apply copyFilesAsync_cases in Hrun
    as (evsR & [(e & HR & -> & -> & ->)
               |(descs & HR & [(Hsize & -> & -> & ->)
                              |(Hsize & evsD & [(e & HD & -> & -> & ->)
                                               |(bi & work & HD & [(-> & -> & -> & ->)
                                |(Hwork & wT & evsT & HT)])])])]);
    destruct (getCopyDescriptorsAsync_run _ _ _ _ _ HR) as [_ HgR];
    destruct (forallb_isGlob_quiet _ HgR) as (HqR & _);
    destruct (Hquiet _ HqR) as [HwR HnR];
    try (destruct (findCopyDescriptorsWithWork_quiet _ _ _ _ _ _ _ HD) as (_ & HqD & _);
         destruct (Hquiet _ HqD) as [HwD HnD]).
  - split; [rewrite HwR; constructor | intros ev Hin Hev; exfalso; eauto].
  - split; [rewrite HwR; constructor | intros ev Hin Hev; exfalso; eauto].
  - split; [rewrite writtenPaths_app, HwR, HwD; constructor|].
    intros ev Hin Hev. exfalso. apply in_app_iff in Hin as [Hin|Hin]; eauto.
  - split; [rewrite !writtenPaths_app, HwR, HwD; simpl; constructor|].
    intros ev Hin Hev. exfalso.
    rewrite !in_app_iff in Hin. destruct Hin as [Hin|[Hin|[Hin|[]]]]; eauto.
    subst ev. discriminate.
  - pose proof HR as HR0. unfold _getCopyDescriptorsAsync in HR.
    apply forEachCopyConfiguration_addAll in HR as (_ & Hadd & _ & _).
    destruct (addAll_invariant _ _ _ Hadd (Forall_nil _) (NoDup_nil _))
      as (Hk & Hnd & _).
    destruct (findCopyDescriptorsWithWork_resolved _ _ _ _ _ _ _ _ HD) as (_ & Hw & _).
    assert (Hloop : exists oT evsRest,
              forEachCopyDescriptorWithWork work (0, 0) w = (oT, wT, evsT)
              /\ evs = evsR ++ evsD ++ evsT ++ evsRest
              /\ existsb isTransfer evsRest = false).
    { destruct HT as [(e & HT & _ & _ & ->)|(counts & HT & _ & _ & ->)].
      - exists (Rejected e), []. rewrite app_nil_r. auto.
      - eexists _, _. split; [exact HT|]. split; reflexivity. }
    destruct Hloop as (oT & evsRest & HT' & -> & Hrest).
    destruct (forEachCopyDescriptorWithWork_events _ _ _ _ _ _ HT') as (_ & n & Hf & _).
    assert (Hsub : forall d, In d (firstn n work) -> In d (JsMap.values descs)).
    { intros d Hd.
      assert (Hin : In d work).
      { rewrite <- (firstn_skipn n work). apply in_or_app. now left. }
      rewrite Hw in Hin. now apply filter_In in Hin. }
    split.
    + rewrite !writtenPaths_app, HwR, HwD, (no_transfer_writtenPaths _ Hrest), app_nil_r.
      simpl. rewrite (writtenPaths_filter evsT), Hf, writtenPaths_transferEvents.
      apply NoDup_map_firstn. rewrite Hw. apply NoDup_map_filter.
      rewrite (keyed_destinations _ Hk). exact Hnd.
    + intros ev Hin Hev. rewrite !in_app_iff in Hin.
      destruct Hin as [Hin|[Hin|[Hin|Hin]]]; try (exfalso; eauto; fail).
      * assert (Hin' : In ev (filter isTransfer evsT)) by (apply filter_In; auto).
        rewrite Hf in Hin'. apply in_map_iff in Hin' as (d & <- & Hd).
        exists descs, w, evsR, d. split; [exact HR0|]. split; [|reflexivity].
        apply values_In_get; auto.
      * exfalso. assert (existsb isTransfer evsRest = true); [|congruence].
        apply existsb_exists. eauto.
Qed.

Lemma filter_nil_inv {A} (f : A -> bool) (l : list A) :
  filter f l = [] -> forall x, In x l -> f x = false.
Proof.
  induction l as [|y rest IH]; simpl; intros H x [].
  - subst. destruct (f x); [discriminate | reflexivity].
  - destruct (f y); [discriminate | auto].
Qed.

Lemma filter_all {A} (f : A -> bool) (l : list A) :
  (forall x, In x l -> f x = true) -> filter f l = l.
Proof.
  induction l as [|y rest IH]; simpl; intros H; [reflexivity|].
  rewrite (H y (or_introl eq_refl)). f_equal. auto.
Qed.

Lemma strictEq_Some_inv (x : option string) (h : string) :
  strictEq x (Some h) = true -> x = Some h.
Proof.
  destruct x as [y|]; simpl; [|discriminate].
  intros H. apply String.eqb_eq in H. now subst.
Qed.

(** Once a run has resolved over at least one descriptor, the build info
    kept for the next run records the digest of every source as that run
    read it. *)
Lemma resolved_run_records_every_source
    copyOperations buildInfoPath w1 w1' evs1 evsR copyDescriptors :
  _getCopyDescriptorsAsync copyOperations w1 = (Resolved copyDescriptors, w1, evsR) ->
  copyFilesAsync copyOperations buildInfoPath w1 = (Resolved tt, w1', evs1) ->
  forall d, In d (JsMap.values copyDescriptors) ->
    exists kept content,
      keptBuildInfo (computeConfigHash copyOperations)
        (JsMap.get buildInfoPath (buildInfoFiles w1')) = Some kept
      /\ readFileToBuffer (fs w1) (ICopyDescriptor.sourcePath d) = Some content
      /\ JsMap.get (ICopyDescriptor.sourcePath d)
           (IIncrementalBuildInfo.inputFileVersions kept)
         = Some (sha256_base64 content).
Proof.
  intros Hres Hrun d Hd.
  apply copyFilesAsync_cases in Hrun
    as (evsR' & [(e & HR & He & _)
                |(descs & HR & [(Hsize & _ & -> & ->)
                               |(Hsize & evsD & [(e & HD & He & _)
                                                |(bi & work & HD & [(-> & _ & -> & ->)
                                 |(Hwork & wT & evsT & [(e & HT & He & _)
                                                       |(counts & HT & _ & -> & ->)])])])])]);
    try discriminate; rewrite Hres in HR; inversion HR; subst descs evsR'.
  - destruct copyDescriptors; [destruct Hd | discriminate].
  - destruct (findCopyDescriptorsWithWork_resolved _ _ _ _ _ _ _ _ HD) as (Hh & Hw & Hall).
    destruct (Hall d Hd) as (c & Hread & Hver).
    symmetry in Hw. pose proof (filter_nil_inv _ _ Hw d Hd) as Hno.
    unfold hasWork in Hno. rewrite Hver in Hno. apply Bool.negb_false_iff in Hno.
    apply strictEq_Some_inv in Hno.
    destruct (keptBuildInfo _ _) as [kept|]; [|discriminate].
    exists kept, c. auto.
  - destruct (findCopyDescriptorsWithWork_resolved _ _ _ _ _ _ _ _ HD) as (Hh & Hw & Hall).
    destruct (Hall d Hd) as (c & Hread & Hver).
    exists bi, c. simpl. rewrite JsMap_get_set_same. unfold keptBuildInfo.
    rewrite Hh, String.eqb_refl. auto.
Qed.

(** X7. Change detection: after a run that resolved, the next diff over
    the same descriptors puts a descriptor in the transfer set exactly when
    the digest of its source's content differs from the digest of the
    content the earlier run read. *)
Theorem X7_retransfer_iff_source_digest_changed
    (copyOperations : list ICopyOperation.t) (buildInfoPath : string)
    (w1 w1' w2 w2' : World) (evs1 evsR evsD : list Event)
    (copyDescriptors : JsMap.t ICopyDescriptor.t)
    (buildInfo : IIncrementalBuildInfo.t) (work : list ICopyDescriptor.t) :
  _getCopyDescriptorsAsync copyOperations w1 = (Resolved copyDescriptors, w1, evsR) ->
  copyFilesAsync copyOperations buildInfoPath w1 = (Resolved tt, w1', evs1) ->
  buildInfoFiles w2 = buildInfoFiles w1' ->
  findCopyDescriptorsWithWork copyDescriptors (computeConfigHash copyOperations)
    buildInfoPath w2 = (Resolved (buildInfo, work), w2', evsD) ->
  forall d, In d (JsMap.values copyDescriptors) ->
    exists before now,
      readFileToBuffer (fs w1) (ICopyDescriptor.sourcePath d) = Some before
      /\ readFileToBuffer (fs w2) (ICopyDescriptor.sourcePath d) = Some now
      /\ (In d work <-> sha256_base64 before <> sha256_base64 now).
Proof.
  intros Hres Hrun Hinfo Hfind d Hd.
  destruct (resolved_run_records_every_source _ _ _ _ _ _ _ Hres Hrun d Hd)
    as (kept & before & Hkept & Hread1 & Hold).
  destruct (findCopyDescriptorsWithWork_resolved _ _ _ _ _ _ _ _ Hfind) as (_ & Hw & Hall).
  destruct (Hall d Hd) as (now & Hread2 & Hver).
  exists before, now. split; [exact Hread1|]. split; [exact Hread2|].
  rewrite Hw, filter_In, Hinfo, Hkept. unfold hasWork. rewrite Hold, Hver. simpl.
  rewrite Bool.negb_true_iff. split.
  - intros [_ Hne]. now apply String.eqb_neq.
  - intros Hne. split; [exact Hd | now apply String.eqb_neq].
Qed.

(** X8. Without a usable prior build info (none at the path, or one of
    another configuration hash) every descriptor is in the transfer set, in
    the order of the map; the discard line is printed exactly when a build
    info was there. *)
Theorem X8_everything_is_transferred_without_prior
    (copyDescriptors : JsMap.t ICopyDescriptor.t) (configHash buildInfoPath : string)
    (w w' : World) (buildInfo : IIncrementalBuildInfo.t)
    (work : list ICopyDescriptor.t) (evs : list Event) :
  (forall old, JsMap.get buildInfoPath (buildInfoFiles w) = Some old ->
     IIncrementalBuildInfo.configHash old <> configHash) ->
  findCopyDescriptorsWithWork copyDescriptors configHash buildInfoPath w
    = (Resolved (buildInfo, work), w', evs) ->
  work = JsMap.values copyDescriptors
  /\ (In (EWriteVerboseLine discardLine) evs
      <-> JsMap.get buildInfoPath (buildInfoFiles w) <> None).
Proof.
  intros Hprior Hfind.
  destruct (findCopyDescriptorsWithWork_resolved _ _ _ _ _ _ _ _ Hfind) as (_ & Hw & Hall).
  assert (Hkept : keptBuildInfo configHash (JsMap.get buildInfoPath (buildInfoFiles w))
                  = None).
  { unfold keptBuildInfo.
    destruct (JsMap.get buildInfoPath (buildInfoFiles w)) as [old|]; [|reflexivity].
    destruct (String.eqb _ configHash) eqn:E; [|reflexivity].
    apply String.eqb_eq in E. exfalso. exact (Hprior old eq_refl E). }
  split.
  - rewrite Hw, Hkept. apply filter_all. intros d Hd.
    destruct (Hall d Hd) as (c & _ & Hver). unfold hasWork. now rewrite Hver.
  - revert Hfind. rewrite findCopyDescriptorsWithWork_eq. cbv zeta.
    destruct (hashInputFiles _ _ w) as [[[versions|e] w1] evsh] eqn:Eh; [|discriminate].
    destruct (hashInputFiles_quiet _ _ _ _ _ _ Eh) as (_ & _ & Hnd & _).
    destruct (selectDescriptorsWithWork _ _ versions []); [|discriminate].
    intros Hfind. inversion Hfind; subst. unfold discardEvents.
    destruct (JsMap.get buildInfoPath (buildInfoFiles w)) as [old|] eqn:Eg.
    + pose proof (Hprior old eq_refl) as Hne. apply String.eqb_neq in Hne. rewrite Hne.
      split; [discriminate|]. intros _. simpl. auto.
    + split; [|congruence]. simpl. intros [Hbad|Hbad]; [discriminate | contradiction].
Qed.

(** X9. If the digest is never the empty string, lines 183-227 resolve
    exactly when every descriptor's source can be read, and their only
    failure is the read error of a source: the missing-hash error of line
    219 is never thrown. *)
Theorem X9_diff_fails_only_on_unreadable_source
    (copyDescriptors : JsMap.t ICopyDescriptor.t) (configHash buildInfoPath : string)
    (w : World) :
  (forall content, sha256_base64 content <> EmptyString) ->
  ((exists found w' evs,
       findCopyDescriptorsWithWork copyDescriptors configHash buildInfoPath w
       = (Resolved found, w', evs))
   <-> forall d, In d (JsMap.values copyDescriptors) ->
         readFileToBuffer (fs w) (ICopyDescriptor.sourcePath d) <> None)
  /\ forall e w' evs,
       findCopyDescriptorsWithWork copyDescriptors configHash buildInfoPath w
       = (Rejected e, w', evs) ->
       exists d,
         In d (JsMap.values copyDescriptors)
         /\ e = IOError (ICopyDescriptor.sourcePath d)
         /\ readFileToBuffer (fs w) (ICopyDescriptor.sourcePath d) = None.
Proof.
  intros Hdigest. rewrite findCopyDescriptorsWithWork_eq. cbv zeta.
  destruct (hashInputFiles _ _ w) as [[[versions|e] w1] evsh] eqn:Eh.
  - destruct (hashInputFiles_reads _ _ _ _ _ _ Eh) as (rest & _ & _ & _ & Hreadable).
    assert (Htruthy : forall d, In d (JsMap.values copyDescriptors) ->
              truthyString (JsMap.get (ICopyDescriptor.sourcePath d) versions) = true).
    { intros d Hd.
      destruct (proj1 (hashInputFiles_resolved _ _ _ _ _ _ Eh
                         (ICopyDescriptor.sourcePath d))) as (c & _ & ->).
      - apply allInputFiles_In. now apply in_map.
      - simpl. pose proof (Hdigest c). destruct (sha256_base64 c); [contradiction | reflexivity]. }
    rewrite (selectDescriptorsWithWork_total _ _ _ _ Htruthy). split.
    + split; [|eauto]. intros _ d Hd. apply Hreadable.
      apply allInputFiles_In. now apply in_map.
    + intros e w' evs Hbad. discriminate.
  - destruct (hashInputFiles_reads _ _ _ _ _ _ Eh) as (rest & _ & _ & p & -> & Hp & Hnone).
    apply allInputFiles_In, in_map_iff in Hp as (d & <- & Hd). split.
    + split; [intros (found & w' & evs & Hbad); discriminate|].
      intros Hall. exfalso. exact (Hall d Hd Hnone).
    + intros e w' evs H. inversion H; subst. eauto.
Qed.

Lemma hashInputFiles_no_glob inputFiles :
  forall acc w o w' evs,
    hashInputFiles inputFiles acc w = (o, w', evs) -> existsb isGlob evs = false.
Proof.
  induction inputFiles as [|q files IH]; simpl; intros acc w o w' evs H.
  - now inversion H.
  - revert H. unfold bind, readFileToBufferAsync.
    destruct (readFileToBuffer (fs w) q) as [c|].
    + destruct (hashInputFiles files _ w) as [[o2 w2] evs2] eqn:E.
      intros H. inversion H; subst. simpl. eauto.
    + intros H. now inversion H.
Qed.

Lemma findCopyDescriptorsWithWork_no_glob copyDescriptors configHash buildInfoPath
    w o w' evs :
  findCopyDescriptorsWithWork copyDescriptors configHash buildInfoPath w = (o, w', evs) ->
  existsb isGlob evs = false.
Proof.
  rewrite findCopyDescriptorsWithWork_eq. cbv zeta.
  destruct (hashInputFiles _ _ w) as [[oh w1] evsh] eqn:Eh.
  apply hashInputFiles_no_glob in Eh.
  assert (Hpre : existsb isGlob
                   ((EReadBuildInfo buildInfoPath
                       :: discardEvents configHash
                            (JsMap.get buildInfoPath (buildInfoFiles w))) ++ evsh) = false).
  { rewrite existsb_app, Eh. unfold discardEvents.
    destruct (JsMap.get buildInfoPath (buildInfoFiles w)) as [old|]; [|reflexivity].
    destruct (String.eqb _ configHash); reflexivity. }
  destruct oh as [versions|e].
  - destruct (selectDescriptorsWithWork _ _ versions []);
      intros H; inversion H; subst; exact Hpre.
  - intros H; inversion H; subst; exact Hpre.
Qed.

(** X10. The three phases do not overlap: a run's calls are first the
    enumerations of resolution, then the reads of the diff (which writes and
    prints no line), then the transfers, the printed line and the build-info
    write, among which there is no enumeration and no read. *)
Theorem X10_phases_are_sequential
    (copyOperations : list ICopyOperation.t) (buildInfoPath : string)
    (w w' : World) (o : Outcome unit) (evs : list Event) :
  copyFilesAsync copyOperations buildInfoPath w = (o, w', evs) ->
  exists evsR evsD evsT,
    evs = evsR ++ evsD ++ evsT
    /\ forallb isGlob evsR = true
    /\ (existsb isGlob evsD = false /\ existsb isWrite evsD = false
        /\ terminalLines evsD = [])
    /\ existsb isInput evsT = false.
Proof.
  intros Hrun.
  apply copyFilesAsync_cases in Hrun
    as (evsR & [(e & HR & -> & -> & ->)
               |(descs & HR & [(Hsize & -> & -> & ->)
                              |(Hsize & evsD & [(e & HD & -> & -> & ->)
                                               |(bi & work & HD & [(-> & -> & -> & ->)
                                |(Hwork & wT & evsT & [(e & HT & -> & -> & ->)
                                                      |(counts & HT & -> & -> & ->)])])])])]);
    destruct (getCopyDescriptorsAsync_run _ _ _ _ _ HR) as [_ HgR];
    try (pose proof (findCopyDescriptorsWithWork_no_glob _ _ _ _ _ _ _ HD) as HgD;
         destruct (findCopyDescriptorsWithWork_quiet _ _ _ _ _ _ _ HD) as (_ & HqD & HtD & _));
    try (destruct (forEachCopyDescriptorWithWork_events _ _ _ _ _ _ HT) as (HiT & _)).
  - exists evsR, [], []. rewrite !app_nil_r. repeat split; auto.
  - exists evsR, [], []. rewrite !app_nil_r. repeat split; auto.
  - exists evsR, evsD, []. rewrite !app_nil_r. repeat split; auto.
  - exists evsR, evsD, [EWriteLine upToDateLine]. repeat split; auto.
  - exists evsR, evsD, evsT. repeat split; auto.
  - eexists evsR, evsD, _. split; [reflexivity|]. repeat split; auto.
    rewrite existsb_app, HiT. reflexivity.
Qed.

(** X11. A run that rejects prints no line; a run that resolves without a
    transfer prints nothing or the line saying that all is up to date; a
    run that resolves after transfers prints one line, "Copied <c> file(s)
    and linked <l> file(s)", with the numbers of copy and of hard-link
    calls made in decimal and "file" for a count of one; the counts are not
    both zero and the line is that of no other pair of counts. *)
Theorem X11_lines_printed
    (copyOperations : list ICopyOperation.t) (buildInfoPath : string)
    (w w' : World) (o : Outcome unit) (evs : list Event) :
  copyFilesAsync copyOperations buildInfoPath w = (o, w', evs) ->
  match o with
  | Rejected _ => terminalLines evs = []
  | Resolved _ =>
      (existsb isTransfer evs = false
       /\ (terminalLines evs = []
           \/ terminalLines evs
              = ["All requested file copy operations are up to date. Nothing to do."]))
      \/ (0 < length (filter isTransfer evs)
          /\ let copied := length (filter isCopy evs) in
             let linked := length (filter isLink evs) in
             terminalLines evs
             = [("Copied " ++ NilEmpty.string_of_uint (Nat.to_uint copied) ++ " file"
                 ++ (if Nat.eqb copied 1 then EmptyString else "s") ++ " and linked "
                 ++ NilEmpty.string_of_uint (Nat.to_uint linked) ++ " file"
                 ++ (if Nat.eqb linked 1 then EmptyString else "s"))%string]
                /\ forall c l, terminalLines evs = [summaryLine c l] ->
                     c = copied /\ l = linked)
  end.
Proof.
  intros Hrun.
  apply copyFilesAsync_cases in Hrun
    as (evsR & [(e & HR & -> & -> & ->)
               |(descs & HR & [(Hsize & -> & -> & ->)
                              |(Hsize & evsD & [(e & HD & -> & -> & ->)
                                               |(bi & work & HD & [(-> & -> & -> & ->)
                                |(Hwork & wT & evsT & [(e & HT & -> & -> & ->)
                                                      |(counts & HT & -> & -> & ->)])])])])]);
    destruct (getCopyDescriptorsAsync_run _ _ _ _ _ HR) as [_ HgR];
    destruct (forallb_isGlob_quiet _ HgR) as (HqR & HtR & _);
    destruct (isWrite_false_parts _ HqR) as (_ & HxR & HcR & HlR);
    try (destruct (findCopyDescriptorsWithWork_quiet _ _ _ _ _ _ _ HD) as (_ & HqD & HtD & _);
         destruct (isWrite_false_parts _ HqD) as (_ & HxD & HcD & HlD));
    try (destruct (forEachCopyDescriptorWithWork_run _ _ _ _ _ _ _ HT)
           as (_ & _ & HtT & _ & HcT)).
  - exact HtR.
  - left. auto.
  - now rewrite terminalLines_app, HtR, HtD.
  - left. split.
    + rewrite !existsb_app, HxR, HxD. reflexivity.
    + right. now rewrite !terminalLines_app, HtR, HtD.
  - now rewrite !terminalLines_app, HtR, HtD, HtT.
  - right. destruct counts as [copied linked].
    destruct (HcT _ eq_refl) as (Hc & Hn1 & Hn2). inversion Hc; subst copied linked.
    destruct (forEachCopyDescriptorWithWork_events _ _ _ _ _ _ HT) as (_ & n & Hf & Hall).
    rewrite (Hall _ eq_refl) in Hf.
    rewrite !filter_app, (no_transfer_filter _ HxR), (no_transfer_filter _ HxD), HcR, HcD,
      HlR, HlD, Hf, !length_app, Hn1, Hn2.
    simpl. rewrite !terminalLines_app, HtR, HtD, HtT. simpl.
    rewrite length_map, !Nat.add_0_r. split; [|split; [reflexivity|]].
    + destruct work; [contradiction | simpl; lia].
    + intros c l Hcl.
      pose proof (f_equal (hd EmptyString) Hcl) as Heq.
      change (summaryLine (length (filter (fun d => negb (ICopyDescriptor.hardlink d)) work))
                (length (filter ICopyDescriptor.hardlink work))
              = summaryLine c l) in Heq.
      apply summaryLine_injective in Heq as [-> ->]. split; reflexivity.
Qed.

End MoreOfTheEngine.

(** ** Normalized destination folders *)

Section MoreOfPosix.
Import PosixPath.

Lemma split_plain_segments (s : string) :
  forallb (fun segment => negb (containsSlash segment)) (split s) = true.
Proof.
  induction s as [|c s IH]; simpl; [reflexivity|].
  destruct (Ascii.eqb c slash) eqn:Ec; simpl; [exact IH|].
  pose proof (split_not_nil s) as Hne.
  destruct (split s) as [|segment segments]; [contradiction|].
  simpl in *. now rewrite Ec.
Qed.

(** Below the root, normalization keeps plain names only. *)
Lemma normalizeSegments_isName (segments : list string) :
  forall stack,
    forallb (fun segment => negb (containsSlash segment)) segments = true ->
    forallb isName stack = true ->
    forallb isName (normalizeSegments false segments stack) = true.
Proof.
  induction segments as [|segment rest IH]; simpl; intros stack Hs Hstack.
  - rewrite forallb_forall in *. intros x Hx. apply Hstack. now apply in_rev.
  - apply andb_true_iff in Hs as [Hseg Hrest].
    destruct (String.eqb segment EmptyString) eqn:Ee; simpl; [auto|].
    destruct (String.eqb segment ".") eqn:Ed; [auto|].
    destruct (String.eqb segment "..") eqn:Edd.
    + destruct stack as [|top below]; [auto|].
      simpl in Hstack. apply andb_true_iff in Hstack as [Htop Hbelow].
      destruct (String.eqb top ".."); apply IH; auto.
      simpl. now rewrite Htop.
    + apply IH; auto. simpl. rewrite Hstack, andb_true_r.
      unfold isName. now rewrite Ee, Ed, Edd, Hseg.
Qed.

Lemma prepend_absolute (args : list string) (cwd : string) :
  isAbsolute cwd = true ->
  forall resolvedPath, snd (prepend (args ++ [cwd]) resolvedPath) = true.
Proof.
  intros Hcwd. induction args as [|p rest IH]; simpl; intros resolvedPath.
  - destruct cwd as [|c tail]; [discriminate|]. simpl.
    simpl in Hcwd. now rewrite Hcwd.
  - destruct (String.eqb p EmptyString); [apply IH|].
    destruct (isAbsolute p); [reflexivity | apply IH].
Qed.

(** With an absolute working directory, [resolve] returns an absolute path
    of plain names. *)
Lemma resolveAll_names (cwd : string) (args : list string) :
  isAbsolute cwd = true ->
  exists names, forallb isName names = true /\ resolveAll cwd args = absolute names.
Proof.
  intros Hcwd. unfold resolveAll.
  pose proof (prepend_absolute (rev args) cwd Hcwd EmptyString) as Habs.
  destruct (prepend (rev args ++ [cwd]) EmptyString) as [resolvedPath resolvedAbsolute].
  simpl in Habs. subst resolvedAbsolute. simpl negb.
  exists (normalizeSegments false (split resolvedPath) []). split; [|reflexivity].
  apply normalizeSegments_isName; [apply split_plain_segments | reflexivity].
Qed.

(** Resolving an absolute path of plain names, against any folder, returns
    it. *)
Lemma resolve_of_absolute (cwd root : string) (names : list string) :
  forallb isName names = true -> resolve cwd root (absolute names) = absolute names.
Proof.
  intros Hn. rewrite <- (resolveAll_absolute cwd names Hn) at 2.
  unfold resolve, resolveAll. simpl rev. simpl app.
  assert (Hprep : forall rest,
            prepend (absolute names :: rest) EmptyString
            = ((absolute names ++ String slash EmptyString)%string, true))
    by reflexivity.
  now rewrite !Hprep.
Qed.

(** X12. With POSIX paths and an absolute working directory,
    [normalizeCopyOperation] keeps the flags and the number of destination
    folders, turns every destination folder into an absolute path of plain
    names, and is idempotent on them: normalizing the result again, against
    any root folder, changes no destination folder. *)
Theorem X12_normalized_destination_folders_are_absolute {host : Host}
    (normalizeFileSelectionSpecifier :
       string -> string * list string * list string -> string * list string * list string)
    (cwd rootFolderPath : string) (copyOperation : ICopyOperation.t) :
  path_resolve = PosixPath.resolve cwd ->
  PosixPath.isAbsolute cwd = true ->
  let normalized :=
    normalizeCopyOperation normalizeFileSelectionSpecifier rootFolderPath copyOperation in
  ICopyOperation.flatten normalized = ICopyOperation.flatten copyOperation
  /\ ICopyOperation.hardlink normalized = ICopyOperation.hardlink copyOperation
  /\ length (ICopyOperation.destinationFolders normalized)
     = length (ICopyOperation.destinationFolders copyOperation)
  /\ (forall folder, In folder (ICopyOperation.destinationFolders normalized) ->
        exists names,
          forallb PosixPath.isName names = true /\ folder = PosixPath.absolute names)
  /\ forall otherRoot,
       ICopyOperation.destinationFolders
         (normalizeCopyOperation normalizeFileSelectionSpecifier otherRoot normalized)
       = ICopyOperation.destinationFolders normalized.
Proof.
  intros Hresolve Hcwd normalized. subst normalized. unfold normalizeCopyOperation.
  destruct (normalizeFileSelectionSpecifier rootFolderPath _) as [[s1 i1] e1]. simpl.
  assert (Hnames : forall folder,
            In folder (map (fun x => path_resolve rootFolderPath x)
                         (ICopyOperation.destinationFolders copyOperation)) ->
            exists names, forallb isName names = true /\ folder = absolute names).
  { intros folder Hin. apply in_map_iff in Hin as (x & <- & _).
    rewrite Hresolve. unfold resolve. now apply resolveAll_names. }
  repeat split; auto.
  - apply length_map.
  - intros otherRoot.
    destruct (normalizeFileSelectionSpecifier otherRoot _) as [[s2 i2] e2]. simpl.
    rewrite <- (map_id (map _ (ICopyOperation.destinationFolders copyOperation))) at 2.
    apply map_ext_in. intros folder Hin.
    destruct (Hnames folder Hin) as (names & Hn & ->).
    rewrite Hresolve. now apply resolve_of_absolute.
Qed.

End MoreOfPosix.

(** * The install action *)

Section InstallFacts.
Import BaseInstallAction.

Variable throws : Step -> bool.

Lemma andThen_inv {A B} (m : Act A) (k : A -> Act B) r steps :
  andThen m k = (r, steps) ->
  (exists a steps1 steps2,
      m = (Done a, steps1) /\ k a = (r, steps2) /\ steps = steps1 ++ steps2)
  \/ (exists e, m = (Threw e, steps) /\ r = Threw e).
Proof.
  unfold andThen. destruct m as [[a|e] steps1].
  - destruct (k a) as [r2 steps2] eqn:Ek. intros H. inversion H; subst.
    left. now exists a, steps1, steps2.
  - intros H. inversion H; subst. right. now exists e.
Qed.

Lemma andThen_steps {A B} (P : Step -> Prop) (m : Act A) (k : A -> Act B) :
  Forall P (snd m) -> (forall a, Forall P (snd (k a))) -> Forall P (snd (andThen m k)).
Proof.
  unfold andThen. destruct m as [[a|e] steps1]; simpl; intros Hm Hk; [|exact Hm].
  specialize (Hk a). destruct (k a) as [r steps2]. simpl in *.
  apply Forall_app. auto.
Qed.

Lemma andThen_threw_left {A B} (m : Act A) (k : A -> Act B) :
  threw (fst m) = true -> threw (fst (andThen m k)) = true.
Proof. unfold andThen. destruct m as [[a|e] steps1]; simpl; [discriminate | auto]. Qed.

Lemma andThen_threw_right {A B} (m : Act A) (k : A -> Act B) :
  (forall a, threw (fst (k a)) = true) -> threw (fst (andThen m k)) = true.
Proof.
  unfold andThen. destruct m as [[a|e] steps1]; simpl; intros Hk; [|reflexivity].
  specialize (Hk a). now destruct (k a).
Qed.

Lemma call_steps (P : Step -> Prop) (s : Step) : P s -> Forall P (snd (call throws s)).
Proof. unfold call. destruct (throws s); simpl; auto. Qed.

Lemma print_steps (P : Step -> Prop) (s : Step) : P s -> Forall P (snd (print s)).
Proof. simpl. auto. Qed.

Lemma JsMap_keys_set {V} (key : string) (value : V) (m : JsMap.t V) :
  JsMap.keys (JsMap.set key value m)
  = match JsMap.get key m with
    | Some _ => JsMap.keys m
    | None => JsMap.keys m ++ [key]
    end.
Proof.
  induction m as [|[k v] rest IH]; simpl; [reflexivity|].
  destruct (String.eqb key k) eqn:E; simpl; [reflexivity|].
  rewrite IH. now destruct (JsMap.get key rest).
Qed.

Lemma hasSubspace_names (x : Subspace) (ss : list Subspace) :
  hasSubspace x ss = true <-> In (subspaceName x) (map subspaceName ss).
Proof.
  unfold hasSubspace. rewrite existsb_exists, in_map_iff. split.
  - intros (y & Hy & E). apply String.eqb_eq in E. eauto.
  - intros (y & E & Hy). exists y. split; [assumption|]. now apply String.eqb_eq.
Qed.

Lemma newSubspaceSet_snoc (l : list Subspace) (x : Subspace) :
  newSubspaceSet (l ++ [x]) = addSubspace x (newSubspaceSet l).
Proof. unfold newSubspaceSet. now rewrite fold_left_app. Qed.

Lemma newProjectSet_snoc (l : list RushConfigurationProject) (p : RushConfigurationProject) :
  newProjectSet (l ++ [p]) = addProject p (newProjectSet l).
Proof. unfold newProjectSet. now rewrite fold_left_app. Qed.

Lemma find_none_filter {A} (f : A -> bool) (l : list A) :
  find f l = None -> filter f l = [].
Proof.
  induction l as [|x rest IH]; simpl; [reflexivity|].
  destruct (f x); [discriminate | exact IH].
Qed.

Lemma find_snoc {A} (f : A -> bool) (l : list A) (x : A) :
  find f (l ++ [x])
  = match find f l with
    | Some y => Some y
    | None => if f x then Some x else None
    end.
Proof.
  induction l as [|y rest IH]; simpl; [reflexivity|].
  destruct (f y); auto.
Qed.

Lemma metadataOf_snoc_other (s : Subspace) selected p :
  inSubspace (subspaceName s) p = false ->
  metadataOf s (selected ++ [p]) = metadataOf s selected.
Proof.
  intros H. unfold metadataOf. rewrite filter_app. simpl. rewrite H, app_nil_r. reflexivity.
Qed.

(** The selection loop, project by project: the subspaces are those of the
    projects, in order of first use, and each has the metadata of the first
    project that named it. *)
Lemma selectProject_fold (selected : list RushConfigurationProject) :
  forall ss md,
    fold_left (fun state project => selectProject project state) selected ([], JsMap.empty)
    = (ss, md) ->
    ss = newSubspaceSet (map subspace selected)
    /\ JsMap.keys md = map subspaceName ss
    /\ forall name,
         JsMap.get name md
         = match find (inSubspace name) selected with
           | Some first => Some (metadataOf (subspace first) selected)
           | None => None
           end.
Proof.
  induction selected as [|p done IH] using rev_ind; intros ss md.
  - simpl. intros H. inversion H; subst. repeat split; reflexivity.
  - rewrite fold_left_app. simpl.
    destruct (fold_left _ done ([], JsMap.empty)) as [ss0 md0] eqn:E0.
    destruct (IH _ _ eq_refl) as (Hss & Hkeys & Hget). clear IH.
    remember (subspaceName (subspace p)) as n eqn:Hndef.
    assert (Hn : inSubspace n p = true).
    { unfold inSubspace. rewrite <- Hndef. apply String.eqb_refl. }
    assert (Hnot : forall name, name <> n -> inSubspace name p = false).
    { intros name Hne. unfold inSubspace. rewrite <- Hndef. apply String.eqb_neq. auto. }
    pose proof (Hget n) as Hgn.
    unfold selectProject. rewrite <- Hndef.
    rewrite map_app. change (map subspace [p]) with [subspace p].
    rewrite newSubspaceSet_snoc, <- Hss.
    destruct (find (inSubspace n) done) as [first|] eqn:Ef.
    + (* the subspace was met before *)
      rewrite Hgn.
      assert (Hfirst : subspaceName (subspace first) = n).
      { apply find_some in Ef as [_ Ef]. now apply String.eqb_eq in Ef. }
      assert (Hhas : addSubspace (subspace p) ss0 = ss0).
      { unfold addSubspace.
        assert (H : hasSubspace (subspace p) ss0 = true); [|now rewrite H].
        apply hasSubspace_names. rewrite <- Hndef, <- Hkeys.
        destruct (in_dec string_dec n (JsMap.keys md0)) as [I|I]; [exact I|].
        apply JsMap_get_None_keys in I. congruence. }
      unfold metadataOf at 1 2 3. rewrite Hfirst.
      destruct (alwaysFullInstallOf (subspace first)) eqn:Efull; simpl;
        intros H; inversion H; subst ss md; clear H.
      * split; [now rewrite Hhas|]. split; [exact Hkeys|].
        intros name. rewrite find_snoc, Hget.
        destruct (find (inSubspace name) done) as [f|] eqn:Efn.
        -- unfold metadataOf.
           destruct (alwaysFullInstallOf (subspace f)) eqn:Ff; [reflexivity|].
           assert (Hname : subspaceName (subspace f) = name).
           { apply find_some in Efn as [_ Efn]. now apply String.eqb_eq in Efn. }
           destruct (String.eqb name n) eqn:En.
           ++ apply String.eqb_eq in En. rewrite En, Ef in Efn.
              inversion Efn; subst f. congruence.
           ++ apply String.eqb_neq in En.
              rewrite Hname, filter_app. simpl.
              rewrite (Hnot _ En), app_nil_r. reflexivity.
        -- destruct (inSubspace name p) eqn:Hp; [|reflexivity].
           apply String.eqb_eq in Hp. rewrite <- Hndef in Hp. subst name. congruence.
      * split; [now rewrite Hhas|]. split.
        -- rewrite JsMap_keys_set, Hgn. exact Hkeys.
        -- intros name. rewrite find_snoc.
           destruct (String.eqb name n) eqn:En.
           ++ apply String.eqb_eq in En. subst name.
              rewrite JsMap_get_set_same, Ef. unfold metadataOf.
              rewrite Efull, Hfirst, filter_app. simpl. rewrite Hn.
              rewrite newProjectSet_snoc. unfold filterArgumentsOf.
              rewrite flat_map_app. simpl. reflexivity.
           ++ apply String.eqb_neq in En.
              rewrite (JsMap_get_set_other _ _ _ _ En), Hget.
              rewrite (Hnot _ En).
              destruct (find (inSubspace name) done) as [f|] eqn:Efn; [|reflexivity].
              rewrite metadataOf_snoc_other; [reflexivity|].
              apply find_some in Efn as [_ Efn]. apply String.eqb_eq in Efn.
              rewrite Efn. now apply Hnot.
    + (* the subspace is new *)
      rewrite Hgn. fold (alwaysFullInstallOf (subspace p)).
      assert (Hnew : addSubspace (subspace p) ss0 = ss0 ++ [subspace p]).
      { unfold addSubspace.
        assert (H : hasSubspace (subspace p) ss0 = false); [|now rewrite H].
        destruct (hasSubspace (subspace p) ss0) eqn:Eh; [|reflexivity].
        apply hasSubspace_names in Eh. rewrite <- Hndef, <- Hkeys in Eh.
        exfalso. revert Eh. now apply JsMap_get_None_keys. }
      assert (Hother : forall name,
                name <> n ->
                match find (inSubspace name) (done ++ [p]) with
                | Some first => Some (metadataOf (subspace first) (done ++ [p]))
                | None => None
                end = JsMap.get name md0).
      { intros name Hne. rewrite find_snoc, Hget, (Hnot _ Hne).
        destruct (find (inSubspace name) done) as [f|] eqn:Efn; [|reflexivity].
        rewrite metadataOf_snoc_other; [reflexivity|].
        apply find_some in Efn as [_ Efn]. apply String.eqb_eq in Efn.
        rewrite Efn. now apply Hnot. }
      assert (Hmine : find (inSubspace n) (done ++ [p]) = Some p).
      { now rewrite find_snoc, Ef, Hn. }
      destruct (alwaysFullInstallOf (subspace p)) eqn:Efull; simpl;
        intros H; inversion H; subst ss md; clear H.
      * split; [reflexivity|]. split.
        -- rewrite JsMap_keys_set, Hgn, Hnew, map_app, Hkeys. simpl. now rewrite Hndef.
        -- intros name. destruct (String.eqb name n) eqn:En.
           ++ apply String.eqb_eq in En. subst name.
              rewrite JsMap_get_set_same, Hmine. unfold metadataOf. now rewrite Efull.
           ++ apply String.eqb_neq in En.
              rewrite (JsMap_get_set_other _ _ _ _ En). symmetry. now apply Hother.
      * split; [reflexivity|]. split.
        -- rewrite JsMap_keys_set, JsMap_get_set_same, JsMap_keys_set, Hgn, Hnew, map_app,
             Hkeys. simpl. now rewrite Hndef.
        -- intros name. destruct (String.eqb name n) eqn:En.
           ++ apply String.eqb_eq in En. subst name.
              rewrite JsMap_get_set_same, Hmine. unfold metadataOf. rewrite Efull.
              rewrite <- Hndef, filter_app, (find_none_filter _ _ Ef). simpl. rewrite Hn.
              reflexivity.
           ++ apply String.eqb_neq in En.
              rewrite !(JsMap_get_set_other _ _ _ _ En). symmetry. now apply Hother.
Qed.

(** X13. In a filtered install (the subspaces feature is on and the
    selection has not as many projects as the configuration) the selected
    subspaces are the subspaces of the selected projects, each once, in the
    order of first use; the map has an entry for exactly these; and the entry
    of a subspace is decided by the first selected project that names it: if
    that subspace is always fully installed, all its projects and no filter
    argument; otherwise the selected projects of that subspace, with one
    "--filter <packageName>" pair for each, in selection order. *)
Theorem X13_filtered_install_selects_by_subspace
    (configuration : RushConfiguration) (selectedSubspaceParameter : option Subspace)
    (installManagerOptions : IInstallManagerOptions) :
  subspacesFeatureEnabled configuration = true ->
  length (options_selectedProjects installManagerOptions)
    <> length (projects configuration) ->
  let selected := options_selectedProjects installManagerOptions in
  exists selectedSubspaces metadataBySubspace,
    selectSubspaces configuration selectedSubspaceParameter installManagerOptions
    = (Done (Some selectedSubspaces, metadataBySubspace), [])
    /\ selectedSubspaces = newSubspaceSet (map subspace selected)
    /\ JsMap.keys metadataBySubspace = map subspaceName selectedSubspaces
    /\ forall name,
         JsMap.get name metadataBySubspace
         = match find (inSubspace name) selected with
           | Some first =>
               Some (if alwaysFullInstallOf (subspace first)
                     then {| selectedProjects := newProjectSet (getProjects (subspace first));
                             pnpmFilterArguments := [];
                             alwaysFullInstall := true |}
                     else {| selectedProjects :=
                               newProjectSet (filter (inSubspace name) selected);
                             pnpmFilterArguments :=
                               flat_map (fun project => ["--filter"; packageName project])
                                 (filter (inSubspace name) selected);
                             alwaysFullInstall := false |})
           | None => None
           end.
Proof.
  intros Henabled Hsize selected. unfold selectSubspaces. rewrite Henabled.
  apply Nat.eqb_neq in Hsize. rewrite Hsize. simpl negb. cbv iota.
  fold selected.
  destruct (fold_left _ selected ([], JsMap.empty)) as [ss md] eqn:E.
  destruct (selectProject_fold _ _ _ E) as (Hss & Hkeys & Hget).
  exists ss, md. repeat split; auto.
  intros name. rewrite Hget.
  destruct (find (inSubspace name) selected) as [first|] eqn:Ef; [|reflexivity].
  apply find_some in Ef as [_ Ef]. apply String.eqb_eq in Ef.
  unfold metadataOf, filterArgumentsOf. now rewrite Ef.
Qed.

(** X14. The selection throws in one case only: the subspaces feature is
    on, the selection has as many projects as the configuration, no
    subspace parameter is given and [preventSelectingAllSubspaces] is set.
    It then throws [AlreadyReportedError] after two console lines; in every
    other case it prints nothing. *)
Theorem X14_selection_throws_only_when_all_subspaces_are_prevented
    (configuration : RushConfiguration) (selectedSubspaceParameter : option Subspace)
    (installManagerOptions : IInstallManagerOptions)
    (r : Result (option (list Subspace) * JsMap.t ISubspaceSelectedProjectsMetadata))
    (steps : list Step) :
  selectSubspaces configuration selectedSubspaceParameter installManagerOptions
    = (r, steps) ->
  (threw r = true
   <-> subspacesFeatureEnabled configuration = true
       /\ length (options_selectedProjects installManagerOptions)
          = length (projects configuration)
       /\ selectedSubspaceParameter = None
       /\ preventSelectingAllSubspaces configuration = Some true)
  /\ (threw r = true ->
      r = Threw AlreadyReportedError
      /\ steps = [ConsoleLog BlankLine; ConsoleLog PreventSelectingAllSubspaces])
  /\ (threw r = false -> steps = []).
Proof.
  unfold selectSubspaces.
  destruct (subspacesFeatureEnabled configuration).
  2:{ intros H. inversion H; subst. simpl. repeat split; try discriminate.
      intros (Hbad & _). discriminate. }
  destruct (Nat.eqb _ _) eqn:Esize; simpl negb; cbv iota.
  2:{ destruct (fold_left _ _ _) as [ss md]. intros H. inversion H; subst. simpl.
      apply Nat.eqb_neq in Esize. repeat split; try discriminate.
      intros (_ & Hbad & _). contradiction. }
  apply Nat.eqb_eq in Esize.
  destruct selectedSubspaceParameter as [selected|].
  { intros H. inversion H; subst. simpl. repeat split; try discriminate.
    intros (_ & _ & Hbad & _). discriminate. }
  destruct (preventSelectingAllSubspaces configuration) as [[|]|]; simpl;
    intros H; inversion H; subst; simpl; repeat split; auto; try discriminate;
    intros (_ & _ & _ & Hbad); discriminate.
Qed.

Lemma done_steps {A} (P : Step -> Prop) (a : A) : Forall P (snd (done a)).
Proof. constructor. Qed.

Lemma throwError_steps {A} (P : Step -> Prop) (e : Thrown) :
  Forall P (snd (@throwError A e)).
Proof. constructor. Qed.

Lemma ensureConsistentVersions_steps (P : Step -> Prop) selectedSubspaces :
  (forall s, P (EnsureConsistentVersions s)) ->
  Forall P (snd (ensureConsistentVersions throws selectedSubspaces)).
Proof.
  intros HP. destruct selectedSubspaces as [selected|]; simpl; [|now apply call_steps].
  induction selected as [|s rest IH]; simpl; [constructor|].
  apply andThen_steps; [now apply call_steps | intros _; exact IH].
Qed.

Lemma selectSubspaces_steps (P : Step -> Prop) configuration parameter options :
  P (ConsoleLog BlankLine) -> P (ConsoleLog PreventSelectingAllSubspaces) ->
  Forall P (snd (selectSubspaces configuration parameter options)).
Proof.
  intros H1 H2. unfold selectSubspaces.
  destruct (subspacesFeatureEnabled configuration); [|constructor].
  destruct (negb _).
  - destruct (fold_left _ _ _). constructor.
  - destruct parameter; [constructor|].
    destruct (negb _); [constructor|]. simpl. auto.
Qed.

Lemma checkParameters_steps (P : Step -> Prop) action :
  Forall P (snd (checkParameters action)).
Proof.
  unfold checkParameters.
  apply andThen_steps.
  - destruct (truthyNumber _); [|constructor]. destruct (negb _); constructor.
  - intros _. destruct (Z.ltb _ _); constructor.
Qed.

Lemma prepare_steps action :
  Forall (fun s => isPrepareStep s = true) (snd (prepare throws action)).
Proof.
  unfold prepare.
  repeat first
    [ apply andThen_steps; [|intros ?]
    | apply call_steps; reflexivity
    | apply print_steps; reflexivity
    | apply done_steps
    | apply throwError_steps
    | apply ensureConsistentVersions_steps; intros; reflexivity
    | apply selectSubspaces_steps; reflexivity
    | apply checkParameters_steps
    | match goal with
      | |- Forall _ (snd (if ?b then _ else _)) => destruct b
      | |- Forall _ (snd (let '(_, _) := ?x in _)) => destruct x
      end ].
Qed.

Lemma install_steps options selectedSubspaces metadataBySubspace :
  Forall (fun s => isTryStep s = true)
    (snd (install throws options selectedSubspaces metadataBySubspace)).
Proof.
  destruct selectedSubspaces as [selected|]; cbn [install].
  - induction selected as [|s rest IH]; cbn [installForEach]; [constructor|].
    apply andThen_steps; [apply print_steps; reflexivity | intros _].
    apply andThen_steps; [|intros _; exact IH].
    unfold _doInstall. apply andThen_steps; [|intros _]; apply call_steps; reflexivity.
  - unfold _doInstall. apply andThen_steps; [|intros _]; apply call_steps; reflexivity.
Qed.

Lemma finalize_steps action options installSuccessful :
  Forall (fun s => isFinallyStep s = true)
    (snd (finalize throws action options installSuccessful)).
Proof.
  unfold finalize, _collectTelemetry.
  repeat first
    [ apply andThen_steps; [|intros ?]
    | apply call_steps; reflexivity
    | apply done_steps
    | match goal with
      | |- Forall _ (snd (if ?b then _ else _)) => destruct b
      end ].
Qed.

(** Every way [runAsync] can go. *)
Lemma runAsync_cases action r steps :
  runAsync throws action = (r, steps) ->
  (exists e, prepare throws action = (Threw e, steps) /\ r = Threw e)
  \/ exists options selectedSubspaces metadataBySubspace warn sP rT sT rF sF,
       prepare throws action
       = (Done (options, selectedSubspaces, metadataBySubspace, warn), sP)
       /\ install throws options selectedSubspaces metadataBySubspace = (rT, sT)
       /\ finalize throws action options (negb (threw rT)) = (rF, sF)
       /\ ((exists e, rF = Threw e /\ r = Threw e /\ steps = sP ++ sT ++ sF)
           \/ (rF = Done tt /\ exists e, rT = Threw e /\ r = Threw e
                                         /\ steps = sP ++ sT ++ sF)
           \/ (rF = Done tt /\ rT = Done tt /\ r = Done tt
               /\ steps = sP ++ sT ++ sF
                          ++ (if warn then [ConsoleLog ScriptsRefreshedNotice] else [])
                          ++ [ConsoleLog (FinishedSuccessfully (actionName action))])).
Proof.
  unfold runAsync. intros H.
  apply andThen_inv in H as [(prepared & sP & rest & Hp & Hk & ->)|(e & Hp & ->)];
    [|left; eauto].
  right. destruct prepared as [[[options selectedSubspaces] metadataBySubspace] warn].
  destruct (install throws options selectedSubspaces metadataBySubspace) as [rT sT] eqn:ET.
  destruct (finalize throws action options (negb (threw rT))) as [rF sF] eqn:EF.
  exists options, selectedSubspaces, metadataBySubspace, warn, sP, rT, sT, rF, sF.
  split; [exact Hp|]. split; [exact ET|]. split; [exact EF|].
  revert Hk. unfold tryFinally.
  assert (Hflag : (match rT with Done _ => true | Threw _ => false end) = negb (threw rT))
    by now destruct rT.
  rewrite Hflag, EF.
  destruct rF as [[]|eF].
  - destruct rT as [[]|eT].
    + simpl. destruct warn; simpl; intros H; inversion H; subst;
        right; right; repeat split; now rewrite <- ?app_assoc.
    + simpl. intros H; inversion H; subst. right; left. split; [reflexivity|].
      exists eT. repeat split.
  - simpl. intros H; inversion H; subst. left. exists eF. repeat split.
Qed.

Lemma Forall_forallb (f : Step -> bool) (l : list Step) :
  Forall (fun s => f s = true) l -> forallb f l = true.
Proof. intros H. apply forallb_forall. now apply Forall_forall. Qed.

Lemma refused_left {A B} (m : Act A) (k : A -> Act B) :
  threw (fst m) = true /\ Forall (fun s => s <> ImportInstallManagerFactory) (snd m) ->
  threw (fst (andThen m k)) = true
  /\ Forall (fun s => s <> ImportInstallManagerFactory) (snd (andThen m k)).
Proof.
  unfold andThen. destruct m as [[a|e] steps1]; simpl; intros [Ht Hs];
    [discriminate | auto].
Qed.

Lemma refused_right {A B} (m : Act A) (k : A -> Act B) :
  Forall (fun s => s <> ImportInstallManagerFactory) (snd m) ->
  (forall a, threw (fst (k a)) = true
             /\ Forall (fun s => s <> ImportInstallManagerFactory) (snd (k a))) ->
  threw (fst (andThen m k)) = true
  /\ Forall (fun s => s <> ImportInstallManagerFactory) (snd (andThen m k)).
Proof.
  unfold andThen. destruct m as [[a|e] steps1]; simpl; intros Hm Hk; [|auto].
  specialize (Hk a). destruct (k a) as [r steps2]. simpl in *.
  destruct Hk. split; [assumption | now apply Forall_app].
Qed.

Ltac no_import :=
  repeat first
    [ apply andThen_steps; [|intros ?]
    | apply call_steps; discriminate
    | apply print_steps; discriminate
    | apply done_steps
    | apply throwError_steps
    | apply ensureConsistentVersions_steps; intros; discriminate
    | apply selectSubspaces_steps; discriminate
    | match goal with
      | |- Forall _ (snd (if ?b then _ else _)) => destruct b
      end ].

(** X15. A run that is to be refused (selecting all subspaces is
    prevented, or a network concurrency is given without PNPM, or the
    maximum of install attempts is below one) always throws, and does so
    before the install manager is loaded: whatever its collaborators do, it
    takes no step of the install, and none of the [finally] block. *)
Theorem X15_refused_run_installs_nothing (action : Action) :
  (subspacesFeatureEnabled (rushConfiguration action) = true
   /\ length (options_selectedProjects (installOptions action))
      = length (projects (rushConfiguration action))
   /\ targetSubspace action = None
   /\ preventSelectingAllSubspaces (rushConfiguration action) = Some true)
  \/ (truthyNumber (networkConcurrencyParameter action) = true
      /\ packageManager (rushConfiguration action) <> "pnpm")
  \/ (maxInstallAttempts action < 1)%Z ->
  threw (fst (runAsync throws action)) = true
  /\ forallb isPrepareStep (snd (runAsync throws action)) = true
  /\ existsb isInstallStep (snd (runAsync throws action)) = false
  /\ existsb isFinallyStep (snd (runAsync throws action)) = false.
Proof.
  intros Hrefused.
  assert (Hprep : threw (fst (prepare throws action)) = true
                  /\ Forall (fun s => s <> ImportInstallManagerFactory)
                       (snd (prepare throws action))).
  { unfold prepare.
    apply refused_right; [no_import | intros _].
    apply refused_right; [no_import | intros _].
    destruct Hrefused as [(He & Hl & Ht & Hpv)|Hparams].
    - apply refused_left. unfold selectSubspaces.
      rewrite He, Hl, Nat.eqb_refl, Ht, Hpv. simpl. split; [reflexivity|].
      repeat constructor; discriminate.
    - apply refused_right; [no_import | intros [selectedSubspaces metadataBySubspace]].
      apply refused_right; [no_import | intros _].
      apply refused_right; [no_import | intros _].
      apply refused_right; [no_import | intros warn].
      apply refused_right; [no_import | intros _].
      apply refused_right; [no_import | intros _].
      apply refused_left. unfold checkParameters.
      destruct Hparams as [(Hn & Hpm)|Hmax].
      + apply String.eqb_neq in Hpm. rewrite Hn, Hpm. simpl.
        split; [reflexivity | constructor].
      + apply Z.ltb_lt in Hmax. rewrite Hmax.
        destruct (truthyNumber _); [destruct (negb _)|]; simpl;
          (split; [reflexivity | constructor]). }
  destruct Hprep as [Ht Hs].
  pose proof (prepare_steps action) as Hp.
  unfold runAsync. revert Ht Hs Hp.
  destruct (prepare throws action) as [[prepared|e] sP]; simpl; [discriminate|].
  intros _ Hs Hp. split; [reflexivity|]. split; [now apply Forall_forallb|].
  rewrite Forall_forall in Hs, Hp.
  split.
  - destruct (existsb isInstallStep sP) eqn:E; [|reflexivity].
    apply existsb_exists in E as (s & Hin & Hs').
    pose proof (Hp s Hin) as H1. pose proof (Hs s Hin) as H2.
    destruct s; simpl in *; try discriminate. contradiction.
  - destruct (existsb isFinallyStep sP) eqn:E; [|reflexivity].
    apply existsb_exists in E as (s & Hin & Hs').
    pose proof (Hp s Hin) as H1.
    destruct s; simpl in *; try discriminate.
    destruct event; discriminate.
Qed.

Lemma finalize_head action options installSuccessful :
  hd_error (snd (finalize throws action options installSuccessful)) = Some StartDeleteAll.
Proof.
  unfold finalize, call. destruct (throws StartDeleteAll); [reflexivity|].
  unfold andThen at 1.
  now destruct (andThen (_collectTelemetry throws action options installSuccessful) _).
Qed.

Lemma finalize_quiet action options installSuccessful :
  (forall s, isFinallyStep s = true -> throws s = false) ->
  finalize throws action options installSuccessful
  = (Done tt,
     StartDeleteAll
       :: (if telemetry action
           then [TelemetryLog (if installSuccessful then "Succeeded" else "Failed")
                   (actionName action) (purgeParameter action)
                   (debug options) (fullUpgrade options)]
           else [])
       ++ [FlushTelemetry;
           HandleEvent postRushInstall (isDebug action) (ignoreHooksParameter action)]).
Proof.
  intros Hquiet. unfold finalize, _collectTelemetry, call.
  rewrite !Hquiet by reflexivity.
  destruct (telemetry action); reflexivity.
Qed.

(** X16. Once the install manager is loaded, the [finally] block runs
    whether the install resolved or threw: the purge manager's deletion is
    started right after the last step of the install.  An error of the
    block itself is the one thrown.  If the block does not throw, the run
    ends as the install did, and telemetry (when enabled) records
    "Succeeded" exactly when the install resolved. *)
Theorem X16_finally_block_always_runs (action : Action)
    options selectedSubspaces metadataBySubspace warn sP :
  prepare throws action = (Done (options, selectedSubspaces, metadataBySubspace, warn), sP) ->
  exists rT sT rF sF sR,
    install throws options selectedSubspaces metadataBySubspace = (rT, sT)
    /\ finalize throws action options (negb (threw rT)) = (rF, sF)
    /\ snd (runAsync throws action) = sP ++ sT ++ sF ++ sR
    /\ hd_error sF = Some StartDeleteAll
    /\ forallb isFinallyStep sF = true
    /\ forallb isReportStep sR = true
    /\ (forall e, rF = Threw e -> fst (runAsync throws action) = Threw e)
    /\ ((forall s, isFinallyStep s = true -> throws s = false) ->
        fst (runAsync throws action) = rT
        /\ sF = StartDeleteAll
                  :: (if telemetry action
                      then [TelemetryLog (if threw rT then "Failed" else "Succeeded")
                              (actionName action) (purgeParameter action)
                              (debug options) (fullUpgrade options)]
                      else [])
                  ++ [FlushTelemetry;
                      HandleEvent postRushInstall (isDebug action)
                        (ignoreHooksParameter action)]).
Proof.
  intros Hp.
  destruct (runAsync throws action) as [r steps] eqn:Hrun.
  destruct (runAsync_cases action r steps Hrun) as [(e & Hp' & _)|Hcase].
  { rewrite Hp in Hp'. discriminate. }
  destruct Hcase as (options' & ss' & md' & warn' & sP' & rT & sT & rF & sF
                     & Hp' & HT & HF & Hshape).
  rewrite Hp in Hp'. inversion Hp'; subst options' ss' md' warn' sP'. clear Hp'.
  assert (Hhead : hd_error sF = Some StartDeleteAll).
  { pose proof (finalize_head action options (negb (threw rT))) as H.
    now rewrite HF in H. }
  assert (Hfin : forallb isFinallyStep sF = true).
  { apply Forall_forallb.
    pose proof (finalize_steps action options (negb (threw rT))) as H.
    now rewrite HF in H. }
  assert (Hquiet : (forall s, isFinallyStep s = true -> throws s = false) ->
            rF = Done tt
            /\ sF = StartDeleteAll
                  :: (if telemetry action
                      then [TelemetryLog (if threw rT then "Failed" else "Succeeded")
                              (actionName action) (purgeParameter action)
                              (debug options) (fullUpgrade options)]
                      else [])
                  ++ [FlushTelemetry;
                      HandleEvent postRushInstall (isDebug action)
                        (ignoreHooksParameter action)]).
  { intros Hq. rewrite (finalize_quiet action options _ Hq) in HF.
    inversion HF; subst. destruct (threw rT); auto. }
  simpl fst. simpl snd.
  destruct Hshape as [(e & HrF & Hr & Hsteps)
                     |[(HrF & e & HrT & Hr & Hsteps)|(HrF & HrT & Hr & Hsteps)]].
  - exists rT, sT, rF, sF, []. rewrite app_nil_r.
    repeat split; auto.
    + intros e' He'. rewrite HrF in He'. now rewrite Hr, He'.
    + destruct (Hquiet H) as [Hd _]. rewrite HrF in Hd. discriminate.
    + now apply Hquiet.
  - exists rT, sT, rF, sF, []. rewrite app_nil_r.
    repeat split; auto.
    + intros e' He'. rewrite HrF in He'. discriminate.
    + now rewrite Hr, HrT.
    + now apply Hquiet.
  - exists rT, sT, rF, sF,
      ((if warn then [ConsoleLog ScriptsRefreshedNotice] else [])
       ++ [ConsoleLog (FinishedSuccessfully (actionName action))]).
    repeat split; auto.
    + now destruct warn.
    + intros e' He'. rewrite HrF in He'. discriminate.
    + now rewrite Hr, HrT.
    + now apply Hquiet.
Qed.

Lemma doInstall_inv options r steps :
  _doInstall throws options = (r, steps) ->
  (r = Done tt /\ steps = [GetInstallManager options; DoInstall options])
  \/ (r = Threw (CollaboratorError (GetInstallManager options))
      /\ steps = [GetInstallManager options]
      /\ throws (GetInstallManager options) = true)
  \/ (r = Threw (CollaboratorError (DoInstall options))
      /\ steps = [GetInstallManager options; DoInstall options]
      /\ throws (DoInstall options) = true).
Proof.
  unfold _doInstall, call, andThen.
  destruct (throws (GetInstallManager options)) eqn:EG;
    [|destruct (throws (DoInstall options)) eqn:ED];
    intros H; inversion H; subst; auto.
Qed.

Lemma installedSubspaces_app steps1 steps2 :
  installedSubspaces (steps1 ++ steps2)
  = installedSubspaces steps1 ++ installedSubspaces steps2.
Proof. unfold installedSubspaces. apply flat_map_app. Qed.

Lemma options_subspace_for options metadata s :
  options_subspace (installManagerOptionsForInstall options metadata s) = s.
Proof. now destruct metadata. Qed.

(** X17. With subspaces selected, they are installed one after the other,
    in the order of the selection, each with the options made for it, and
    the first call that throws ends the loop: the subspaces installed are a
    prefix of the selection, all of it if the loop resolves, and an error
    is that of the loop's last call. *)
Theorem X17_subspaces_are_installed_in_turn
    options metadataBySubspace (selected : list Subspace) r steps :
  install throws options (Some selected) metadataBySubspace = (r, steps) ->
  (exists n, installedSubspaces steps = firstn n selected)
  /\ (r = Done tt -> installedSubspaces steps = selected)
  /\ (forall o, In (GetInstallManager o) steps \/ In (DoInstall o) steps ->
        exists s, In s selected
          /\ o = installManagerOptionsForInstall options
                   (JsMap.get (subspaceName s) metadataBySubspace) s)
  /\ (forall e, r = Threw e ->
        exists c, e = CollaboratorError c /\ throws c = true
                  /\ last steps BuildInstallOptions = c
                  /\ (exists o, c = GetInstallManager o \/ c = DoInstall o)).
Proof.
  cbn [install]. revert r steps.
  induction selected as [|s rest IH]; cbn [installForEach]; intros r steps H.
  - inversion H; subst. repeat split.
    + now exists 0.
    + intros o [[]|[]].
    + intros e He. discriminate.
  - apply andThen_inv in H as [(a & steps1 & steps2 & Hprint & H & Hsteps)|(e & Hprint & _)];
      [|discriminate].
    inversion Hprint; subst steps1. clear Hprint.
    apply andThen_inv in H as [(a' & stepsD & stepsR & HD & HR & Hsteps2)|(e & HD & Hr)].
    + destruct (doInstall_inv _ _ _ HD) as [[_ HsD]|[[Hbad _]|[Hbad _]]];
        try discriminate.
      destruct (IH _ _ HR) as ((n & Hn) & Hall & Hopts & Hthrow).
      subst steps steps2 stepsD.
      repeat split.
      * exists (S n). simpl. rewrite options_subspace_for. now rewrite Hn.
      * intros Hr. simpl. rewrite options_subspace_for. now rewrite Hall.
      * intros o [Hin|Hin]; simpl in Hin.
        -- destruct Hin as [Hin|[Hin|[Hin|Hin]]]; try discriminate.
           ++ inversion Hin; subst. exists s. split; [now left | reflexivity].
           ++ destruct (Hopts o (or_introl Hin)) as (s' & Hs' & Ho).
              exists s'. split; [now right | assumption].
        -- destruct Hin as [Hin|[Hin|[Hin|Hin]]]; try discriminate.
           ++ inversion Hin; subst. exists s. split; [now left | reflexivity].
           ++ destruct (Hopts o (or_intror Hin)) as (s' & Hs' & Ho).
              exists s'. split; [now right | assumption].
      * intros e He. destruct (Hthrow e He) as (c & Hc & Ht & Hlast & Hkind).
        exists c. repeat split; auto.
        destruct stepsR as [|x stepsR'].
        -- simpl in Hlast.
           destruct Hkind as (o & [Ho|Ho]); rewrite Ho in Hlast; discriminate.
        -- exact Hlast.
    + subst r.
      destruct (doInstall_inv _ _ _ HD) as [[Hbad _]|[(He & HsD & Ht)|(He & HsD & Ht)]];
        try discriminate; inversion He; subst e; subst steps2 steps.
      * repeat split.
        -- now exists 0.
        -- intros Hbad. discriminate.
        -- intros o [Hin|Hin]; simpl in Hin.
           ++ destruct Hin as [Hin|[Hin|[]]]; try discriminate.
              inversion Hin; subst. exists s. split; [now left | reflexivity].
           ++ destruct Hin as [Hin|[Hin|[]]]; discriminate.
        -- intros e He'. inversion He'; subst e.
           eexists. repeat split; eauto.
      * repeat split.
        -- exists 1. simpl. rewrite options_subspace_for. now destruct rest.
        -- intros Hbad. discriminate.
        -- intros o [Hin|Hin]; simpl in Hin.
           ++ destruct Hin as [Hin|[Hin|[Hin|[]]]]; try discriminate.
              inversion Hin; subst. exists s. split; [now left | reflexivity].
           ++ destruct Hin as [Hin|[Hin|[Hin|[]]]]; try discriminate.
              inversion Hin; subst. exists s. split; [now left | reflexivity].
        -- intros e He'. inversion He'; subst e.
           eexists. repeat split; eauto.
Qed.

Lemma not_finished_in (f : Step -> bool) (steps : list Step) name :
  f (ConsoleLog (FinishedSuccessfully name)) = false ->
  Forall (fun s => f s = true) steps ->
  ~ In (ConsoleLog (FinishedSuccessfully name)) steps.
Proof.
  intros Hf Hall Hin. rewrite Forall_forall in Hall.
  apply Hall in Hin. congruence.
Qed.

(** X18. The steps of a run come in the order of the source: those before
    the [try], those of the install, those of the [finally] block, then
    the lines of the report.  The line saying that the action finished
    successfully is printed exactly when the run does not throw, and is
    then the last step. *)
Theorem X18_finished_line_iff_no_throw (action : Action) r steps :
  runAsync throws action = (r, steps) ->
  (exists sP sT sF sR,
      steps = sP ++ sT ++ sF ++ sR
      /\ forallb isPrepareStep sP = true /\ forallb isTryStep sT = true
      /\ forallb isFinallyStep sF = true /\ forallb isReportStep sR = true)
  /\ (r = Done tt <-> In (ConsoleLog (FinishedSuccessfully (actionName action))) steps)
  /\ (r = Done tt ->
      last steps BuildInstallOptions
      = ConsoleLog (FinishedSuccessfully (actionName action))).
Proof.
  intros Hrun.
  pose proof (prepare_steps action) as HP.
  destruct (runAsync_cases action r steps Hrun) as [(e & Hp & Hr)|Hcase].
  - rewrite Hp in HP. simpl in HP. subst r. repeat split.
    + exists steps, [], [], []. rewrite !app_nil_r.
      repeat split; auto. now apply Forall_forallb.
    + intros Hbad. discriminate.
    + intros Hin. exfalso. revert Hin. now apply (not_finished_in isPrepareStep).
    + intros Hbad. discriminate.
  - destruct Hcase as (options & ss & md & warn & sP & rT & sT & rF & sF
                       & Hp & HT & HF & Hshape).
    rewrite Hp in HP. simpl in HP.
    pose proof (install_steps options ss md) as HTs. rewrite HT in HTs. simpl in HTs.
    pose proof (finalize_steps action options (negb (threw rT))) as HFs.
    rewrite HF in HFs. simpl in HFs.
    assert (Hnone : ~ In (ConsoleLog (FinishedSuccessfully (actionName action)))
                      (sP ++ sT ++ sF)).
    { intros Hin. apply in_app_or in Hin as [Hin|Hin];
        [|apply in_app_or in Hin as [Hin|Hin]]; revert Hin.
      - now apply (not_finished_in isPrepareStep).
      - now apply (not_finished_in isTryStep).
      - now apply (not_finished_in isFinallyStep). }
    destruct Hshape as [(e & HrF & Hr & Hsteps)
                       |[(HrF & e & HrT & Hr & Hsteps)|(HrF & HrT & Hr & Hsteps)]].
    + subst r steps. repeat split.
      * exists sP, sT, sF, []. rewrite app_nil_r.
        repeat split; auto using Forall_forallb.
      * intros Hbad. discriminate.
      * intros Hin. contradiction.
      * intros Hbad. discriminate.
    + subst r steps. repeat split.
      * exists sP, sT, sF, []. rewrite app_nil_r.
        repeat split; auto using Forall_forallb.
      * intros Hbad. discriminate.
      * intros Hin. contradiction.
      * intros Hbad. discriminate.
    + subst r steps. repeat split.
      * exists sP, sT, sF,
          ((if warn then [ConsoleLog ScriptsRefreshedNotice] else [])
           ++ [ConsoleLog (FinishedSuccessfully (actionName action))]).
        repeat split; auto using Forall_forallb. now destruct warn.
      * intros _. rewrite !app_assoc. apply in_or_app. right. now left.
      * intros _. rewrite !app_assoc. apply last_last.
Qed.

Lemma andThen_done_inv {A B} (m : Act A) (k : A -> Act B) b steps :
  andThen m k = (Done b, steps) ->
  exists a steps1 steps2,
    m = (Done a, steps1) /\ k a = (Done b, steps2) /\ steps = steps1 ++ steps2.
Proof.
  intros H. apply andThen_inv in H as [H|(e & _ & Hbad)]; [exact H | discriminate].
Qed.

Lemma prepare_inv action options selectedSubspaces metadataBySubspace warn sP :
  prepare throws action
  = (Done (options, selectedSubspaces, metadataBySubspace, warn), sP) ->
  options = installOptions action
  /\ exists sS,
       selectSubspaces (rushConfiguration action) (targetSubspace action)
         (installOptions action)
       = (Done (selectedSubspaces, metadataBySubspace), sS).
Proof.
  unfold prepare. intros H.
  apply andThen_done_inv in H as (? & ? & ? & _ & H & _). cbv beta zeta in H.
  apply andThen_done_inv in H as (? & ? & ? & _ & H & _).
  apply andThen_done_inv in H as ([ss md] & sS & ? & Hsel & H & _).
  do 7 (apply andThen_done_inv in H as (? & ? & ? & _ & H & _)).
  unfold done in H. inversion H; subst. split; [reflexivity|]. now exists sS.
Qed.

Lemma In_newSubspaceSet (l : list Subspace) (x : Subspace) :
  In x (newSubspaceSet l) -> In x l.
Proof.
  induction l as [|y l' IH] using rev_ind; [intros []|].
  rewrite newSubspaceSet_snoc. unfold addSubspace.
  destruct (hasSubspace y (newSubspaceSet l')); intros Hin;
    [|apply in_app_or in Hin as [Hin|Hin]]; apply in_or_app; auto.
Qed.

Lemma installForEach_options options metadataBySubspace selected :
  Forall (fun step =>
            forall o, step = GetInstallManager o \/ step = DoInstall o ->
              exists s, In s selected
                /\ o = installManagerOptionsForInstall options
                         (JsMap.get (subspaceName s) metadataBySubspace) s)
    (snd (installForEach throws options metadataBySubspace selected)).
Proof.
  induction selected as [|s rest IH]; cbn [installForEach]; [constructor|].
  apply andThen_steps; [apply print_steps; intros o [H|H]; discriminate | intros _].
  apply andThen_steps.
  - unfold _doInstall. apply andThen_steps; [|intros _]; apply call_steps;
      intros o [H|H]; inversion H; subst; exists s; (split; [now left | reflexivity]).
  - intros _. eapply Forall_impl; [|exact IH].
    intros step Hstep o Ho. destruct (Hstep o Ho) as (s' & Hs' & Heq).
    exists s'. split; [now right | exact Heq].
Qed.

Lemma install_options options selectedSubspaces metadataBySubspace o :
  In (GetInstallManager o)
    (snd (install throws options selectedSubspaces metadataBySubspace))
  \/ In (DoInstall o)
       (snd (install throws options selectedSubspaces metadataBySubspace)) ->
  match selectedSubspaces with
  | None => o = options
  | Some selected =>
      exists s, In s selected
        /\ o = installManagerOptionsForInstall options
                 (JsMap.get (subspaceName s) metadataBySubspace) s
  end.
Proof.
  destruct selectedSubspaces as [selected|]; cbn [install].
  - pose proof (installForEach_options options metadataBySubspace selected) as Hall.
    rewrite Forall_forall in Hall.
    intros [Hin|Hin]; apply (Hall _ Hin); auto.
  - destruct (_doInstall throws options) as [r steps] eqn:E.
    destruct (doInstall_inv _ _ _ E) as [[_ ->]|[(_ & -> & _)|(_ & -> & _)]];
      simpl; intros [Hin|Hin];
      repeat (destruct Hin as [Hin|Hin]); try discriminate; try contradiction;
      now inversion Hin.
Qed.

Lemma install_step_of_run (action : Action) r steps options selectedSubspaces
    metadataBySubspace warn sP step :
  runAsync throws action = (r, steps) ->
  prepare throws action
  = (Done (options, selectedSubspaces, metadataBySubspace, warn), sP) ->
  In step steps -> isTryStep step = true ->
  In step (snd (install throws options selectedSubspaces metadataBySubspace)).
Proof.
  intros Hrun Hp Hin Htry.
  pose proof (prepare_steps action) as HP. rewrite Hp in HP. simpl in HP.
  destruct (runAsync_cases action r steps Hrun) as [(e & Hp' & _)|Hcase].
  { rewrite Hp in Hp'. discriminate. }
  destruct Hcase as (options' & ss' & md' & warn' & sP' & rT & sT & rF & sF
                     & Hp' & HT & HF & Hshape).
  rewrite Hp in Hp'. inversion Hp'; subst options' ss' md' warn' sP'. clear Hp'.
  rewrite HT. simpl.
  pose proof (finalize_steps action options (negb (threw rT))) as HFs.
  rewrite HF in HFs. simpl in HFs.
  rewrite Forall_forall in HP, HFs.
  assert (Hsteps : In step (sP ++ sT ++ sF)
                   \/ In step ((if warn then [ConsoleLog ScriptsRefreshedNotice] else [])
                               ++ [ConsoleLog (FinishedSuccessfully (actionName action))])).
  { destruct Hshape as [(e & _ & _ & ->)|[(_ & e & _ & _ & ->)|(_ & _ & _ & ->)]]; auto.
    rewrite !app_assoc in Hin. apply in_app_or in Hin as [Hin|Hin].
    - apply in_app_or in Hin as [Hin|Hin]; [left; now rewrite !app_assoc | right].
      apply in_or_app. now left.
    - right. apply in_or_app. now right. }
  destruct Hsteps as [Hin'|Hin'].
  - apply in_app_or in Hin' as [Hin'|Hin']; [|apply in_app_or in Hin' as [Hin'|Hin']].
    + apply HP in Hin'. destruct step; try discriminate. destruct message; discriminate.
    + exact Hin'.
    + apply HFs in Hin'. destruct step; try discriminate.
  - exfalso. destruct warn; simpl in Hin';
      repeat (destruct Hin' as [Hin'|Hin']); try contradiction; subst step; discriminate.
Qed.

(** X19. The options an install is made with.  Without the subspaces
    feature the one install gets the options built from the command line.
    With it, each subspace gets those options with itself as the subspace:
    when every project is selected, the subspace is the one named on the
    command line, or else one of the configuration's, and nothing else
    changes; when the selection is a part, the subspace is that of a
    selected project, and the selected projects and the filter arguments
    are those recorded for it.  The debug and full-upgrade flags are never
    changed. *)
Theorem X19_options_each_install_gets (action : Action) r steps o :
  runAsync throws action = (r, steps) ->
  In (GetInstallManager o) steps \/ In (DoInstall o) steps ->
  let configuration := rushConfiguration action in
  let options := installOptions action in
  let selected := options_selectedProjects options in
  (subspacesFeatureEnabled configuration = false -> o = options)
  /\ (subspacesFeatureEnabled configuration = true ->
      length selected = length (projects configuration) ->
      match targetSubspace action with
      | Some target => options_subspace o = target
      | None => In (options_subspace o) (subspaces configuration)
      end
      /\ o = installManagerOptionsForInstall options None (options_subspace o))
  /\ (subspacesFeatureEnabled configuration = true ->
      length selected <> length (projects configuration) ->
      exists project first,
        In project selected
        /\ find (inSubspace (subspaceName (subspace project))) selected = Some first
        /\ o = installManagerOptionsForInstall options
                 (Some (metadataOf (subspace first) selected)) (subspace project))
  /\ debug o = debug options
  /\ fullUpgrade o = fullUpgrade options.
Proof.
  intros Hrun Hin. cbv zeta.
  destruct (prepare throws action) as [[[[[options ss] md] warn]|e] sP] eqn:Hp.
  2:{ exfalso. destruct (runAsync_cases action r steps Hrun) as [(e' & Hp' & _)|Hcase].
      - pose proof (prepare_steps action) as HP. rewrite Hp' in HP. simpl in HP.
        rewrite Forall_forall in HP.
        destruct Hin as [Hin|Hin]; apply HP in Hin; discriminate.
      - destruct Hcase as (? & ? & ? & ? & ? & ? & ? & ? & ? & Hp' & _).
        rewrite Hp in Hp'. discriminate. }
  assert (Hinstall : In (GetInstallManager o) (snd (install throws options ss md))
                     \/ In (DoInstall o) (snd (install throws options ss md))).
  { destruct Hin as [Hin|Hin]; [left | right];
      now apply (install_step_of_run action r steps options ss md warn sP). }
  apply install_options in Hinstall.
  destruct (prepare_inv _ _ _ _ _ _ Hp) as (-> & sS & Hsel).
  unfold selectSubspaces in Hsel.
  destruct (subspacesFeatureEnabled (rushConfiguration action)) eqn:Hfeature.
  - destruct (Nat.eqb (length (options_selectedProjects (installOptions action)))
                (length (projects (rushConfiguration action)))) eqn:Hlen;
      cbn [negb] in Hsel.
    + apply Nat.eqb_eq in Hlen.
      assert (Hunfiltered :
                match targetSubspace action with
                | Some target => options_subspace o = target
                | None => In (options_subspace o) (subspaces (rushConfiguration action))
                end
                /\ o = installManagerOptionsForInstall (installOptions action) None
                         (options_subspace o)).
      { destruct (targetSubspace action) as [target|].
        - inversion Hsel; subst ss md. destruct Hinstall as (s & Hs & ->).
          simpl in Hs. destruct Hs as [<-|[]]. split; reflexivity.
        - destruct (negb (truthy (preventSelectingAllSubspaces (rushConfiguration action))));
            [|discriminate].
          inversion Hsel; subst ss md. destruct Hinstall as (s & Hs & ->).
          apply In_newSubspaceSet in Hs. split; [exact Hs | reflexivity]. }
      repeat split; try discriminate; try tauto;
        destruct Hunfiltered as [_ ->]; reflexivity.
    + apply Nat.eqb_neq in Hlen.
      destruct (fold_left _ _ _) as [ss' md'] eqn:Hfold.
      inversion Hsel; subst ss md.
      destruct (selectProject_fold _ _ _ Hfold) as (Hss & _ & Hget).
      destruct Hinstall as (s & Hs & Ho).
      rewrite Hss in Hs. apply In_newSubspaceSet in Hs.
      apply in_map_iff in Hs as (project & <- & Hproject).
      rewrite Hget in Ho.
      destruct (find (inSubspace (subspaceName (subspace project)))
                  (options_selectedProjects (installOptions action))) as [first|] eqn:Hfind.
      * repeat split; try discriminate; try tauto; try (rewrite Ho; reflexivity).
        intros _ _. exists project, first. repeat split; assumption.
      * exfalso. apply (find_none _ _ Hfind) in Hproject.
        unfold inSubspace in Hproject. now rewrite String.eqb_refl in Hproject.
  - inversion Hsel; subst ss md. subst o.
    repeat split; try discriminate; reflexivity.
Qed.

Lemma prepare_warn action options selectedSubspaces metadataBySubspace warn sP :
  prepare throws action
  = (Done (options, selectedSubspaces, metadataBySubspace, warn), sP) ->
  warn = String.eqb (actionName action) "update" && scriptsRefreshed action.
Proof.
  unfold prepare. intros H.
  apply andThen_done_inv in H as (? & ? & ? & _ & H & _). cbv beta zeta in H.
  apply andThen_done_inv in H as (? & ? & ? & _ & H & _).
  apply andThen_done_inv in H as ([ss md] & sS & ? & _ & H & _).
  do 2 (apply andThen_done_inv in H as (? & ? & ? & _ & H & _)).
  apply andThen_done_inv in H as (warn' & ? & ? & Hscripts & H & _).
  do 4 (apply andThen_done_inv in H as (? & ? & ? & _ & H & _)).
  unfold done in H. inversion H; subst.
  destruct (String.eqb (actionName action) "update");
    apply andThen_done_inv in Hscripts as (? & ? & ? & _ & Hdone & _);
    unfold done in Hdone; now inversion Hdone.
Qed.

Lemma prepare_guarded action :
  Forall (guardOf action) (snd (prepare throws action)).
Proof.
  unfold prepare.
  apply andThen_steps; [now apply call_steps | intros _]. cbv zeta.
  apply andThen_steps; [|intros _].
  { destruct (_hasVariantsField (rushConfiguration action)) eqn:E;
      [now apply print_steps | apply done_steps]. }
  apply andThen_steps; [now apply selectSubspaces_steps | intros [ss md]].
  apply andThen_steps; [now apply ensureConsistentVersions_steps | intros _].
  apply andThen_steps; [now apply call_steps | intros _].
  apply andThen_steps; [|intros warn].
  { destruct (String.eqb (actionName action) "update") eqn:E.
    - apply String.eqb_eq in E.
      apply andThen_steps; [now apply call_steps | intros _; apply done_steps].
    - apply String.eqb_neq in E.
      apply andThen_steps; [now apply call_steps | intros _; apply done_steps]. }
  apply andThen_steps; [now apply call_steps | intros _].
  apply andThen_steps; [|intros _].
  { destruct (purgeParameter action) eqn:E; [|apply done_steps].
    apply andThen_steps; [now apply print_steps | intros _].
    apply andThen_steps; [now apply call_steps | intros _].
    now apply print_steps. }
  apply andThen_steps; [apply checkParameters_steps | intros _].
  apply andThen_steps; [now apply call_steps | intros _; apply done_steps].
Qed.

(** X20. The branches of the preparation, seen from the steps of a run:
    the scripts are updated only by [rush update] and validated only by
    the other actions, the purge is made only when asked for, and the
    notice that scripts were refreshed is printed exactly when the run
    does not throw, the action is [update] and the update reported a
    change. *)
Theorem X20_scripts_are_refreshed_by_update_only (action : Action) r steps :
  runAsync throws action = (r, steps) ->
  (In (ConsoleLog ScriptsRefreshedNotice) steps
   <-> r = Done tt /\ actionName action = "update" /\ scriptsRefreshed action = true)
  /\ (In StandardScriptUpdate steps -> actionName action = "update")
  /\ (In StandardScriptValidate steps -> actionName action <> "update")
  /\ (In PurgeNormal steps -> purgeParameter action = true)
  /\ (In (TerminalWriteLine VariantsWarning) steps ->
      _hasVariantsField (rushConfiguration action) = true).
Proof.
  intros Hrun.
  pose proof (prepare_steps action) as HP.
  pose proof (prepare_guarded action) as HG.
  assert (Hphases :
            exists rest,
              steps = snd (prepare throws action) ++ rest
              /\ Forall (fun s => isPrepareStep s = false) rest
              /\ (In (ConsoleLog ScriptsRefreshedNotice) rest
                  <-> r = Done tt /\ actionName action = "update"
                      /\ scriptsRefreshed action = true)).
  { destruct (runAsync_cases action r steps Hrun) as [(e & Hp & Hr)|Hcase].
    - exists []. rewrite Hp, app_nil_r. subst r.
      repeat split; auto; try contradiction. intros [Hbad _]. discriminate.
    - destruct Hcase as (options & ss & md & warn & sP & rT & sT & rF & sF
                         & Hp & HT & HF & Hshape).
      pose proof (install_steps options ss md) as HTs. rewrite HT in HTs. simpl in HTs.
      pose proof (finalize_steps action options (negb (threw rT))) as HFs.
      rewrite HF in HFs. simpl in HFs.
      pose proof (prepare_warn _ _ _ _ _ _ Hp) as Hwarn.
      rewrite Hp. simpl snd.
      assert (Hother : Forall (fun s => isPrepareStep s = false) (sT ++ sF)).
      { apply Forall_app. split; eapply Forall_impl; try eassumption;
          intros s Hs; destruct s; try discriminate; try reflexivity;
          try (destruct message; discriminate || reflexivity);
          destruct event; discriminate || reflexivity. }
      assert (Hnot : ~ In (ConsoleLog ScriptsRefreshedNotice) (sT ++ sF)).
      { intros Hin. apply in_app_or in Hin as [Hin|Hin].
        - rewrite Forall_forall in HTs. apply HTs in Hin. discriminate.
        - rewrite Forall_forall in HFs. apply HFs in Hin. discriminate. }
      destruct Hshape as [(e & HrF & Hr & Hsteps)
                         |[(HrF & e & HrT & Hr & Hsteps)|(HrF & HrT & Hr & Hsteps)]].
      + exists (sT ++ sF). subst r steps.
        repeat split; auto; try contradiction. intros [Hbad _]. discriminate.
      + exists (sT ++ sF). subst r steps.
        repeat split; auto; try contradiction. intros [Hbad _]. discriminate.
      + exists ((sT ++ sF)
                ++ (if warn then [ConsoleLog ScriptsRefreshedNotice] else [])
                ++ [ConsoleLog (FinishedSuccessfully (actionName action))]).
        subst r steps. split; [now rewrite <- !app_assoc|]. split.
        * apply Forall_app. split; [exact Hother|].
          destruct warn; repeat constructor.
        * rewrite in_app_iff. split.
          -- intros [Hin|Hin]; [contradiction|].
             destruct warn; simpl in Hin.
             ++ symmetry in Hwarn. apply andb_true_iff in Hwarn as [Hname Hrefreshed].
                apply String.eqb_eq in Hname. auto.
             ++ destruct Hin as [Hin|[]]. discriminate.
          -- intros (_ & Hname & Hrefreshed). right.
             rewrite Hname, Hrefreshed in Hwarn. simpl in Hwarn. subst warn.
             now left. }
  destruct Hphases as (rest & -> & Hrest & Hnotice).
  rewrite Forall_forall in HP, HG, Hrest.
  assert (Hprepared : forall s, isPrepareStep s = true ->
            In s (snd (prepare throws action) ++ rest) -> guardOf action s).
  { intros s Hs Hin. apply in_app_or in Hin as [Hin|Hin]; [now apply HG|].
    apply Hrest in Hin. congruence. }
  split; [|repeat split; intros Hin;
            match type of Hin with
            | In ?s _ => exact (Hprepared s eq_refl Hin)
            end].
  rewrite <- Hnotice. rewrite in_app_iff. split; [|auto].
  intros [Hin|Hin]; [|exact Hin]. apply HP in Hin. discriminate.
Qed.

End InstallFacts.

(** * The further properties at the scenarios *)

Section MoreInstances.
Import Fixture.

(** The map the scenario resolves to. *)
Lemma X1_scenario_resolved_map :
  NoDup (JsMap.keys scenarioDescriptors)
  /\ (forall key d, In (key, d) scenarioDescriptors ->
        ICopyDescriptor.destinationPath d = key)
  /\ exists c folder file sourceFiles,
       In c [scenarioOperation]
       /\ getFileSelectionSpecifierPaths (fs firstWorld) c = Some sourceFiles
       /\ In folder (ICopyOperation.destinationFolders c)
       /\ In file sourceFiles
       /\ "/work/out/b.txt" = resolvedDestinationPath c folder file
       /\ descriptorB = {| ICopyDescriptor.sourcePath := file;
                           ICopyDescriptor.destinationPath := "/work/out/b.txt";
                           ICopyDescriptor.hardlink :=
                             truthy (ICopyOperation.hardlink c) |}.
Proof.
  destruct (X1_resolved_map_holds_the_declared_copies [scenarioOperation]
              firstWorld firstWorld scenarioDescriptors [EGlob scenarioOperation] eq_refl)
    as (Hkeys & Hkeyed & Hdeclared).
  repeat split; [exact Hkeys | exact Hkeyed |].
  apply (proj1 (Hdeclared "/work/out/b.txt" descriptorB)). reflexivity.
Defined.

(** The two declarations of the scenario's copy, in either order. *)
Lemma X3_scenario_reordered :
  exists m',
    _getCopyDescriptorsAsync (rev redeclaredOperations) firstWorld
    = (Resolved m', firstWorld, map EGlob (rev redeclaredOperations))
    /\ (forall key, JsMap.get key m' = JsMap.get key scenarioDescriptors)
    /\ JsMap.size m' = 2.
Proof.
  exact (X3_resolution_is_order_independent redeclaredOperations
           (rev redeclaredOperations) firstWorld firstWorld scenarioDescriptors
           (map EGlob redeclaredOperations) (perm_swap _ _ []) eq_refl).
Defined.

(** The scenario's operation declared a second time. *)
Lemma X4_scenario_declared_twice :
  exists m' evs',
    _getCopyDescriptorsAsync [scenarioOperation; scenarioOperation] firstWorld
    = (Resolved m', firstWorld, evs')
    /\ Permutation evs' [EGlob scenarioOperation; EGlob scenarioOperation]
    /\ (forall key, JsMap.get key m' = JsMap.get key scenarioDescriptors)
    /\ JsMap.size m' = 2.
Proof.
  refine (X4_operation_declared_twice [scenarioOperation]
            [scenarioOperation; scenarioOperation] firstWorld firstWorld
            scenarioDescriptors [EGlob scenarioOperation] _ eq_refl).
  intros c. simpl. tauto.
Defined.

(** Two destinations fed by one source: the source is read once. *)
Lemma X5_scenario_shared_source :
  NoDup (readPaths
           (snd (findCopyDescriptorsWithWork
                   [("/work/out/a.txt", descriptorA);
                    ("/work/bak/a.txt", descriptor "/work/src/a.txt" "/work/bak/a.txt" true)]
                   scenarioConfigHash buildInfoPath firstWorld)))
  /\ readPaths
       (snd (findCopyDescriptorsWithWork
               [("/work/out/a.txt", descriptorA);
                ("/work/bak/a.txt", descriptor "/work/src/a.txt" "/work/bak/a.txt" true)]
               scenarioConfigHash buildInfoPath firstWorld))
     = ["/work/src/a.txt"].
Proof.
  split; [|reflexivity].
  exact (proj1 (X5_each_source_is_read_once
                  [("/work/out/a.txt", descriptorA);
                   ("/work/bak/a.txt", descriptor "/work/src/a.txt" "/work/bak/a.txt" true)]
                  scenarioConfigHash buildInfoPath firstWorld _ _ _ eq_refl)).
Defined.

(** The first run of the scenario, declared twice, writes each destination
    once. *)
Lemma X6_scenario_destinations :
  NoDup (writtenPaths
           (snd (copyFilesAsync redeclaredOperations buildInfoPath firstWorld)))
  /\ writtenPaths (snd (copyFilesAsync redeclaredOperations buildInfoPath firstWorld))
     = ["/work/out/a.txt"; "/work/out/b.txt"].
Proof.
  split; [|reflexivity].
  exact (proj1 (X6_no_destination_is_written_twice redeclaredOperations buildInfoPath
                  firstWorld _ _ _ eq_refl)).
Defined.

(** After the first run a.txt changed and b.txt did not. *)
Lemma X7_scenario_changed_source :
  (exists before now,
     readFileToBuffer (fs firstWorld) "/work/src/a.txt" = Some before
     /\ readFileToBuffer (fs changedWorld) "/work/src/a.txt" = Some now
     /\ (In descriptorA [descriptorA] <-> sha256_base64 before <> sha256_base64 now))
  /\ (exists before now,
        readFileToBuffer (fs firstWorld) "/work/src/b.txt" = Some before
        /\ readFileToBuffer (fs changedWorld) "/work/src/b.txt" = Some now
        /\ (In descriptorB [descriptorA] <-> sha256_base64 before <> sha256_base64 now)).
Proof.
  pose proof (X7_retransfer_iff_source_digest_changed [scenarioOperation] buildInfoPath
                firstWorld copiedWorld changedWorld changedWorld
                (snd (copyFilesAsync [scenarioOperation] buildInfoPath firstWorld))
                [EGlob scenarioOperation]
                [EReadBuildInfo buildInfoPath; EReadFile "/work/src/a.txt";
                 EReadFile "/work/src/b.txt"]
                scenarioDescriptors
                {| IIncrementalBuildInfo.configHash := scenarioConfigHash;
                   IIncrementalBuildInfo.inputFileVersions :=
                     [("/work/src/a.txt", "sha256:HELLO");
                      ("/work/src/b.txt", "sha256:world")] |}
                [descriptorA] eq_refl eq_refl eq_refl eq_refl) as H.
  split.
  - apply (H descriptorA). simpl. auto.
  - apply (H descriptorB). simpl. auto.
Defined.

(** The build info of another configuration is discarded, and both files
    are transferred again. *)
Lemma X8_scenario_other_configuration :
  [descriptorA; descriptorB] = JsMap.values scenarioDescriptors
  /\ (In (EWriteVerboseLine discardLine)
        (snd (findCopyDescriptorsWithWork scenarioDescriptors "sha256:other"
                buildInfoPath copiedWorld))
      <-> JsMap.get buildInfoPath (buildInfoFiles copiedWorld) <> None).
Proof.
  refine (X8_everything_is_transferred_without_prior scenarioDescriptors "sha256:other"
            buildInfoPath copiedWorld copiedWorld
            {| IIncrementalBuildInfo.configHash := "sha256:other";
               IIncrementalBuildInfo.inputFileVersions :=
                 [("/work/src/a.txt", "sha256:hello");
                  ("/work/src/b.txt", "sha256:world")] |}
            [descriptorA; descriptorB] _ _ eq_refl).
  intros old Hold. inversion Hold. discriminate.
Defined.

(** With b.txt unreadable the comparison rejects with its path. *)
Lemma X9_scenario_unreadable_source :
  (exists found w' evs,
     findCopyDescriptorsWithWork scenarioDescriptors scenarioConfigHash buildInfoPath
       (world unreadableFiles [])
     = (Resolved found, w', evs))
  <-> forall d, In d (JsMap.values scenarioDescriptors) ->
        readFileToBuffer (fs (world unreadableFiles [])) (ICopyDescriptor.sourcePath d)
        <> None.
Proof.
  refine (proj1 (X9_diff_fails_only_on_unreadable_source scenarioDescriptors
                   scenarioConfigHash buildInfoPath (world unreadableFiles []) _)).
  intros content. discriminate.
Defined.

(** The first run of the scenario, in its three phases. *)
Lemma X10_scenario_phases :
  exists evsR evsD evsT,
    snd (copyFilesAsync [scenarioOperation] buildInfoPath firstWorld)
    = evsR ++ evsD ++ evsT
    /\ forallb isGlob evsR = true
    /\ (existsb isGlob evsD = false /\ existsb isWrite evsD = false
        /\ terminalLines evsD = [])
    /\ existsb isInput evsT = false.
Proof.
  exact (X10_phases_are_sequential [scenarioOperation] buildInfoPath firstWorld
           _ _ _ eq_refl).
Defined.

(** The first run prints the summary, the second the up-to-date line. *)
Lemma X11_scenario_lines :
  terminalLines (snd (copyFilesAsync [scenarioOperation] buildInfoPath firstWorld))
  = ["Copied 2 files and linked 0 files"]
  /\ terminalLines (snd (copyFilesAsync [scenarioOperation] buildInfoPath copiedWorld))
     = ["All requested file copy operations are up to date. Nothing to do."].
Proof.
  split.
  - pose proof (X11_lines_printed [scenarioOperation] buildInfoPath firstWorld
                  copiedWorld (Resolved tt) _ eq_refl) as H.
    destruct H as [[Hnone _]|[_ [Hline _]]]; [discriminate | exact Hline].
  - pose proof (X11_lines_printed [scenarioOperation] buildInfoPath copiedWorld
                  copiedWorld (Resolved tt) _ eq_refl) as H.
    destruct H as [[_ [Hnone|Hline]]|[Hsome _]];
      [discriminate | exact Hline | simpl in Hsome; lia].
Defined.

(** Destination folders relative to the project folder and absolute. *)
Lemma X12_scenario_normalized :
  ICopyOperation.destinationFolders
    (normalizeCopyOperation (fun _ selection => selection) "/work/project"
       (operation "src" [] ["dist"; "../shared/out"; "/abs/out"] None None))
  = ["/work/project/dist"; "/work/shared/out"; "/abs/out"]
  /\ forall folder,
       In folder
         (ICopyOperation.destinationFolders
            (normalizeCopyOperation (fun _ selection => selection) "/work/project"
               (operation "src" [] ["dist"; "../shared/out"; "/abs/out"] None None))) ->
       exists names,
         forallb PosixPath.isName names = true /\ folder = PosixPath.absolute names.
Proof.
  split; [reflexivity|].
  exact (proj1 (proj2 (proj2 (proj2
           (X12_normalized_destination_folders_are_absolute
              (fun _ selection => selection) cwd "/work/project"
              (operation "src" [] ["dist"; "../shared/out"; "/abs/out"] None None)
              eq_refl eq_refl))))).
Defined.

End MoreInstances.

Section InstallInstances.
Import BaseInstallAction InstallFixture.

(** The app and the cli selected: both subspaces, the tools in full. *)
Lemma X13_scenario_filtered_install :
  exists metadataBySubspace,
    selectSubspaces (configuration None "pnpm") None
      (optionsFor [project "app" defaultSubspace; project "cli" toolsSubspace])
    = (Done (Some [defaultSubspace; toolsSubspace], metadataBySubspace), [])
    /\ JsMap.get "default" metadataBySubspace
       = Some {| selectedProjects := [project "app" defaultSubspace];
                 pnpmFilterArguments := ["--filter"; "app"];
                 alwaysFullInstall := false |}
    /\ JsMap.get "tools" metadataBySubspace
       = Some {| selectedProjects :=
                   [project "cli" toolsSubspace; project "lint" toolsSubspace];
                 pnpmFilterArguments := [];
                 alwaysFullInstall := true |}.
Proof.
  destruct (X13_filtered_install_selects_by_subspace (configuration None "pnpm") None
              (optionsFor [project "app" defaultSubspace; project "cli" toolsSubspace])
              eq_refl)
    as (selectedSubspaces & metadataBySubspace & Hrun & Hselected & _ & Hget).
  - simpl. discriminate.
  - exists metadataBySubspace. rewrite Hselected in Hrun.
    split; [exact Hrun|]. split; rewrite Hget; reflexivity.
Defined.

(** Every project selected, no subspace named, and selecting all
    subspaces prevented. *)
Lemma X14_scenario_prevented :
  selectSubspaces (configuration (Some true) "pnpm") None (optionsFor allProjects)
  = (Threw AlreadyReportedError,
     [ConsoleLog BlankLine; ConsoleLog PreventSelectingAllSubspaces]).
Proof.
  destruct (selectSubspaces (configuration (Some true) "pnpm") None
              (optionsFor allProjects)) as [r steps] eqn:Hrun.
  destruct (X14_selection_throws_only_when_all_subspaces_are_prevented _ _ _ _ _ Hrun)
    as (Hiff & Hthrown & _).
  destruct Hthrown as [-> ->]; [|reflexivity].
  apply Hiff. repeat split; reflexivity.
Defined.

(** [--max-install-attempts 0]. *)
Lemma X15_scenario_no_attempt :
  threw (fst (runAsync neverThrows
                (installAction (configuration None "pnpm") allProjects 0))) = true
  /\ existsb isInstallStep
       (snd (runAsync neverThrows
               (installAction (configuration None "pnpm") allProjects 0))) = false.
Proof.
  destruct (X15_refused_run_installs_nothing neverThrows
              (installAction (configuration None "pnpm") allProjects 0))
    as (Hthrew & _ & Hnone & _).
  - right. right. reflexivity.
  - split; assumption.
Defined.

(** The install of the tools fails: the purge manager still deletes, and
    telemetry records the failure. *)
Lemma X16_scenario_failed_install :
  exists sP rT sT sR,
    threw rT = true
    /\ fst (runAsync (noInstallManagerFor "tools") filteredAction) = rT
    /\ snd (runAsync (noInstallManagerFor "tools") filteredAction)
       = sP ++ sT
         ++ [StartDeleteAll; TelemetryLog "Failed" "install" false false false;
             FlushTelemetry; HandleEvent postRushInstall false false]
         ++ sR.
Proof.
  destruct (X16_finally_block_always_runs (noInstallManagerFor "tools") filteredAction
              _ _ _ _ _ eq_refl)
    as (rT & sT & rF & sF & sR & HT & HF & Hsteps & _ & _ & _ & _ & Hquiet).
  destruct Hquiet as [Hr HsF].
  - intros s Hs. destruct s; try discriminate; reflexivity.
  - assert (Hthrew : threw rT = true).
    { vm_compute in HT. inversion HT. reflexivity. }
    rewrite Hthrew in HsF. simpl in HsF. rewrite HsF in Hsteps.
    eexists. exists rT, sT, sR.
    split; [exact Hthrew|]. split; [exact Hr | exact Hsteps].
Defined.

(** The install manager of the tools cannot be made: the default subspace
    is installed, the tools are not. *)
Lemma X17_scenario_install_stops :
  (exists n,
     installedSubspaces
       (snd (install (noInstallManagerFor "tools") (optionsFor [])
               (Some [defaultSubspace; toolsSubspace]) JsMap.empty))
     = firstn n [defaultSubspace; toolsSubspace])
  /\ installedSubspaces
       (snd (install (noInstallManagerFor "tools") (optionsFor [])
               (Some [defaultSubspace; toolsSubspace]) JsMap.empty))
     = [defaultSubspace].
Proof.
  split; [|reflexivity].
  exact (proj1 (X17_subspaces_are_installed_in_turn (noInstallManagerFor "tools")
                  (optionsFor []) JsMap.empty [defaultSubspace; toolsSubspace] _ _
                  eq_refl)).
Defined.

(** A run in which nothing throws ends with the line of success. *)
Lemma X18_scenario_finished :
  fst (runAsync neverThrows filteredAction) = Done tt
  /\ last (snd (runAsync neverThrows filteredAction)) BuildInstallOptions
     = ConsoleLog (FinishedSuccessfully "install").
Proof.
  split; [reflexivity|].
  exact (proj2 (proj2 (X18_finished_line_iff_no_throw neverThrows filteredAction _ _
                         eq_refl)) eq_refl).
Defined.

(** The cli selected: the tools are installed in full, without filter
    arguments. *)
Lemma X19_scenario_tools_options :
  In (DoInstall toolsOptions) (snd (runAsync neverThrows filteredAction))
  /\ exists project first,
       In project (options_selectedProjects (installOptions filteredAction))
       /\ find (inSubspace (subspaceName (subspace project)))
            (options_selectedProjects (installOptions filteredAction)) = Some first
       /\ toolsOptions
          = installManagerOptionsForInstall (installOptions filteredAction)
              (Some (metadataOf (subspace first)
                       (options_selectedProjects (installOptions filteredAction))))
              (subspace project).
Proof.
  assert (Hin : In (DoInstall toolsOptions) (snd (runAsync neverThrows filteredAction))).
  { vm_compute. repeat (try (left; reflexivity); right). }
  split; [exact Hin|].
  refine (proj1 (proj2 (proj2
            (X19_options_each_install_gets neverThrows filteredAction _ _ toolsOptions
               eq_refl (or_intror Hin)))) eq_refl _).
  simpl. discriminate.
Defined.

(** [rush update] with the scripts refreshed prints the notice. *)
Lemma X20_scenario_update :
  In (ConsoleLog ScriptsRefreshedNotice) (snd (runAsync neverThrows updateAction))
  /\ ~ In StandardScriptValidate (snd (runAsync neverThrows updateAction)).
Proof.
  destruct (X20_scripts_are_refreshed_by_update_only neverThrows updateAction _ _ eq_refl)
    as (Hnotice & _ & Hvalidate & _).
  split.
  - apply Hnotice. repeat split; reflexivity.
  - intros Hin. now apply Hvalidate in Hin.
Defined.

End InstallInstances.
